(** * websvg2png: the scanner, the two rasterizers and the side panel

    A shallow embedding of the three scripts of the extension,
    [content.ts] (the scanner that runs in the page), [contents/offscreen/index.ts]
    (the rasterizer of the offscreen document) and [sidepanel.tsx] (the panel
    with its own rasterizer, the archive export and the download handler),
    followed by the properties proved about them.

    Conventions of the embedding.
    - A JavaScript string is the list of its UTF-16 code units ([jsstring]).
    - A JavaScript number is [number]: NaN, the two infinities, or a finite
      value carried as a rational.  Where the program computes with numbers
      the result goes through [fl], the rounding of an exact real to the
      double that the engine stores; [fl] is a field of the class [Engine],
      so every definition is generic in it.  [Binary64.round] is that
      rounding for IEEE 754 doubles; the engine of the examples uses it,
      and what is proved about rounded results assumes of [fl] only the
      error bound that [Binary64.round] is proved to meet.  Negative zero
      is not distinguished from zero (both are falsy and compare equal in
      the program).
    - Every frame has a realm of its own, so [instanceof] in the scanner
      is false for the elements of a frame's document; runs of [scanSVGs]
      overlap at their awaits; the response of the scanner reaches the
      panel as JSON.
    - What the browser provides and the repository only calls (the XML
      parser and serializer, image decoding, the canvas encoder,
      [Number.prototype.toString], [chrome.downloads.download]) is a field
      of [Engine] as well.
    - Messages shown to the user are kept as plain strings: the program never
      inspects them. *)

From Stdlib Require Import ZArith NArith QArith Qminmax Qround Qabs List Ascii String Bool Lia Lqa.
From stdpp Require Import gmap.
Import ListNotations.

#[local] Open Scope Z_scope.
Set Warnings "-register-all,-clear-no-such-hyp".

(* ================================================================== *)
(** * Part I: the embedding                                            *)
(* ================================================================== *)

(** ** JavaScript values *)

Module JS.

(** UTF-16 code units. *)
Definition jsstring : Type := list N.

(** An ASCII literal as a JavaScript string. *)
Definition str (s : string) : jsstring :=
  List.map N_of_ascii (list_ascii_of_string s).

(** [!s] for a value of type [string | null]. *)
Definition falsy_str (s : option jsstring) : bool :=
  match s with
  | None => true
  | Some [] => true
  | Some (_ :: _) => false
  end.

Inductive number : Type :=
| NaN
| Inf (negative : bool)
| Num (q : Q).

Definition of_Z (z : Z) : number := Num (inject_Z z).

(** [ToBoolean] on numbers: [0] and [NaN] are falsy. *)
Definition truthy (n : number) : bool :=
  match n with
  | NaN => false
  | Inf _ => true
  | Num q => negb (Qeq_bool q 0)
  end.

(** [a || b] on numbers. *)
Definition or_else (a b : number) : number := if truthy a then a else b.

(** [a <= b]: false as soon as one side is NaN. *)
Definition le (a b : number) : bool :=
  match a, b with
  | NaN, _ | _, NaN => false
  | Inf true, _ => true
  | _, Inf false => true
  | Inf false, _ => false
  | _, Inf true => false
  | Num x, Num y => Qle_bool x y
  end.

(** [a < b]. *)
Definition lt (a b : number) : bool :=
  match a, b with
  | NaN, _ | _, NaN => false
  | Inf true, Inf true => false
  | Inf true, _ => true
  | Inf false, _ => false
  | Num _, Inf false => true
  | Num _, Inf true => false
  | Num x, Num y => negb (Qle_bool y x)
  end.

(** The value is a number greater than zero ([+Infinity] included). *)
Definition gt_zero (n : number) : Prop :=
  match n with
  | NaN => False
  | Inf negative => negative = false
  | Num q => (0 < q)%Q
  end.

(** The value is a number and is not below zero. *)
Definition ge_zero (n : number) : Prop :=
  match n with
  | NaN => False
  | Inf negative => negative = false
  | Num q => (0 <= q)%Q
  end.

Definition is_neg (q : Q) : bool := negb (Qle_bool 0 q).

(** *** Strings *)

Definition code_eqb (a b : N) : bool := N.eqb a b.

Fixpoint str_eqb (a b : jsstring) : bool :=
  match a, b with
  | [], [] => true
  | x :: a', y :: b' => code_eqb x y && str_eqb a' b'
  | _, _ => false
  end.

(** [p] is a prefix of [s]. *)
Fixpoint starts_with (p s : jsstring) : bool :=
  match p, s with
  | [], _ => true
  | x :: p', y :: s' => code_eqb x y && starts_with p' s'
  | _ :: _, [] => false
  end.

(** The class [\s] of a regular expression without the [u] flag: the
    WhiteSpace and LineTerminator code points, all of them single code
    units. *)
Definition is_space (c : N) : bool :=
  ((9 <=? c) && (c <=? 13) || (c =? 32) || (c =? 160) || (c =? 5760)
   || (8192 <=? c) && (c <=? 8202) || (c =? 8232) || (c =? 8233)
   || (c =? 8239) || (c =? 8287) || (c =? 12288) || (c =? 65279))%N.

(** The class [\d]. *)
Definition is_digit (c : N) : bool := ((48 <=? c) && (c <=? 57))%N.

(** The longest prefix whose code units all satisfy [p], and what follows. *)
Fixpoint span (p : N -> bool) (s : jsstring) : jsstring * jsstring :=
  match s with
  | [] => ([], [])
  | c :: t => if p c then let '(a, b) := span p t in (c :: a, b) else ([], s)
  end.

(** A regular expression is embedded by its matcher: [m s] is the length of
    the match that starts at the head of [s], if there is one.  The patterns
    of this program never match the empty string. *)
Definition matcher : Type := jsstring -> option nat.

(** A literal pattern such as [/xlink:href/]. *)
Definition lit (p : jsstring) : matcher :=
  fun s => if starts_with p s then Some (List.length p) else None.

(** [/\s+/]: greedy, at least one. *)
Definition spaces : matcher :=
  fun s => match List.length (fst (span is_space s)) with
           | O => None
           | n => Some n
           end.

(** [/>\s+</]: [\s+] is greedy and [<] is no white space, so the only
    candidate is the whole run. *)
Definition gt_spaces_lt : matcher :=
  fun s => match s with
           | c :: t =>
               if (c =? 62)%N then
                 let '(ws, rest) := span is_space t in
                 match ws, rest with
                 | _ :: _, r :: _ =>
                     if (r =? 60)%N then Some (S (S (List.length ws))) else None
                 | _, _ => None
                 end
               else None
           | [] => None
           end.

(** [s.replace(/re/g, rep)] for a replacement text without [$]: scan from
    the left; at a match emit [rep] and resume after the match, elsewhere
    copy one code unit.  [skip] counts the code units of the current match
    that are still to be dropped. *)
Fixpoint replace_from (m : matcher) (rep : jsstring) (skip : nat) (s : jsstring)
  : jsstring :=
  match s with
  | [] => []
  | c :: t =>
      match skip with
      | S k => replace_from m rep k t
      | O =>
          match m s with
          | Some (S n) => rep ++ replace_from m rep n t
          | _ => c :: replace_from m rep O t
          end
      end
  end.

Definition replace_all (m : matcher) (rep : jsstring) (s : jsstring) : jsstring :=
  replace_from m rep O s.

(** [s.replace(/re/, rep)]: the leftmost match only. *)
Fixpoint replace_first (m : matcher) (rep : jsstring) (s : jsstring) : jsstring :=
  match s with
  | [] => []
  | c :: t =>
      match m s with
      | Some (S n) => rep ++ skipn n t
      | _ => c :: replace_first m rep t
      end
  end.

(** [s.split(sep)] for a separator of one code unit: never empty. *)
Fixpoint split (sep : N) (s : jsstring) : list jsstring :=
  match s with
  | [] => [[]]
  | c :: t =>
      if code_eqb c sep then [] :: split sep t
      else match split sep t with
           | h :: r => (c :: h) :: r
           | [] => [[c]]
           end
  end.

(** The text before and after the first occurrence of [p] in [s]. *)
Fixpoint cut_at (p s : jsstring) : option (jsstring * jsstring) :=
  match s with
  | [] => None
  | c :: t =>
      if starts_with p s then Some ([], skipn (List.length p) s)
      else match cut_at p t with
           | Some (a, b) => Some (c :: a, b)
           | None => None
           end
  end.

(** No two white-space code units in a row; [after_space] says whether the
    text follows a white-space code unit. *)
Fixpoint no_double_space (after_space : bool) (s : jsstring) : bool :=
  match s with
  | [] => true
  | c :: t => negb (after_space && is_space c) && no_double_space (is_space c) t
  end.

(** The text does not start with white space. *)
Definition head_not_space (s : jsstring) : bool :=
  match s with
  | [] => true
  | c :: _ => negb (is_space c)
  end.

(** The text is not empty and does not end with white space. *)
Fixpoint last_not_space (s : jsstring) : bool :=
  match s with
  | [] => false
  | [c] => negb (is_space c)
  | _ :: t => last_not_space t
  end.

(** Where a text stands relative to an occurrence of [/>\s+</]: outside
    one, right after a [>], or in the white space after a [>]. *)
Inductive Gap : Type := Outside | AfterGt | InSpaces.

(** One code unit further; [None] when it completes an occurrence. *)
Definition gap_step (st : Gap) (c : N) : option Gap :=
  if (c =? 62)%N then Some AfterGt
  else if is_space c then
    match st with Outside => Some Outside | _ => Some InSpaces end
  else if (c =? 60)%N then
    match st with InSpaces => None | _ => Some Outside end
  else Some Outside.

(** The state after the text, [None] when the text completes an
    occurrence. *)
Fixpoint gap_run (st : Gap) (s : jsstring) : option Gap :=
  match s with
  | [] => Some st
  | c :: t =>
      match gap_step st c with
      | Some st' => gap_run st' t
      | None => None
      end
  end.

(** No occurrence of [/>\s+</] is completed in the text. *)
Definition gap_free (st : Gap) (s : jsstring) : bool :=
  match gap_run st s with Some _ => true | None => false end.

(** Neither [>], [<] nor white space. *)
Definition neutral (c : N) : bool :=
  negb ((c =? 62)%N || (c =? 60)%N || is_space c).

(** After white space, if any, the text goes on with [<]. *)
Definition gap_ahead (s : jsstring) : bool :=
  match snd (span is_space s) with
  | r :: _ => (r =? 60)%N
  | [] => false
  end.

(** In state [st], the text ahead does not complete an occurrence that
    has begun. *)
Definition ahead_ok (st : Gap) (s : jsstring) : bool :=
  match st with
  | Outside => true
  | AfterGt =>
      match fst (span is_space s) with
      | [] => true
      | _ :: _ => negb (gap_ahead s)
      end
  | InSpaces => negb (gap_ahead s)
  end.

(** Every code unit fits 16 bits, as in every JavaScript string. *)
Definition well_formed (s : jsstring) : Prop := List.Forall (fun c => (c < 65536)%N) s.

(** The code unit [sep] does not occur in the text. *)
Definition free_of (sep : N) (s : jsstring) : Prop := List.Forall (fun c => c <> sep) s.

(** [a[i]] on an array of strings: [None] is [undefined]. *)
Definition at_index (a : list jsstring) (i : nat) : option jsstring := nth_error a i.

(** *** UTF-8 and base64 *)

Definition is_high_surrogate (c : N) : bool := ((55296 <=? c) && (c <=? 56319))%N.
Definition is_low_surrogate (c : N) : bool := ((56320 <=? c) && (c <=? 57343))%N.

(** A code unit that is no surrogate. *)
Definition is_scalar (c : N) : bool :=
  (c <? 65536)%N && negb (is_high_surrogate c) && negb (is_low_surrogate c).

(** The UTF-8 octets of the code point [cp]. *)
Definition utf8_of_code_point (cp : N) : list N :=
  (if cp <? 128 then [cp]
   else if cp <? 2048 then [192 + cp / 64; 128 + cp mod 64]
   else if cp <? 65536 then
     [224 + cp / 4096; 128 + (cp / 64) mod 64; 128 + cp mod 64]
   else
     [240 + cp / 262144; 128 + (cp / 4096) mod 64;
      128 + (cp / 64) mod 64; 128 + cp mod 64])%N.

(** The octets that [encodeURIComponent] encodes: the string read as UTF-16
    and written as UTF-8.  A surrogate that is not part of a pair makes
    [encodeURIComponent] throw a [URIError] ([None]). *)
Fixpoint utf8_from (pending : option N) (s : jsstring) : option (list N) :=
  match s with
  | [] => match pending with None => Some [] | Some _ => None end
  | c :: t =>
      match pending with
      | Some hi =>
          if is_low_surrogate c then
            option_map
              (app (utf8_of_code_point
                      (65536 + (hi - 55296) * 1024 + (c - 56320))%N))
              (utf8_from None t)
          else None
      | None =>
          if is_high_surrogate c then utf8_from (Some c) t
          else if is_low_surrogate c then None
          else option_map (app (utf8_of_code_point c)) (utf8_from None t)
      end
  end.

Definition utf8 (s : jsstring) : option (list N) := utf8_from None s.

(** The URI characters [encodeURIComponent] leaves as they are:
    letters, digits and [- _ . ! ~ * ' ( )]. *)
Definition is_unreserved (b : N) : bool :=
  ((65 <=? b) && (b <=? 90) || (97 <=? b) && (b <=? 122)
   || (48 <=? b) && (b <=? 57)
   || (b =? 45) || (b =? 95) || (b =? 46) || (b =? 33) || (b =? 126)
   || (b =? 42) || (b =? 39) || (b =? 40) || (b =? 41))%N.

(** An upper-case hexadecimal digit. *)
Definition hex_digit (d : N) : N := (if d <? 10 then 48 + d else 55 + d)%N.

Definition percent_escape (b : N) : jsstring :=
  if is_unreserved b then [b] else [37%N; hex_digit (b / 16); hex_digit (b mod 16)].

(** [encodeURIComponent(s)]. *)
Definition encodeURIComponent (s : jsstring) : option jsstring :=
  option_map (flat_map percent_escape) (utf8 s).

(** The value of a hexadecimal digit, either case ([unescape] and
    [parseInt(_, 16)] take both). *)
Definition hex_value (c : N) : option N :=
  (if (48 <=? c) && (c <=? 57) then Some (c - 48)
   else if (65 <=? c) && (c <=? 70) then Some (c - 55)
   else if (97 <=? c) && (c <=? 102) then Some (c - 87)
   else None)%N.

(** The value of an upper-case hexadecimal digit (the class [[0-9A-F]]). *)
Definition upper_hex_value (c : N) : option N :=
  (if (48 <=? c) && (c <=? 57) then Some (c - 48)
   else if (65 <=? c) && (c <=? 70) then Some (c - 55)
   else None)%N.

(** The global replacement of [%XX] by the code unit [XX], scanning from the
    left as [replace_from] does.  [hex] says which digits the pattern
    takes. *)
Fixpoint percent_decode (hex : N -> option N) (skip : nat) (s : jsstring) : jsstring :=
  match s with
  | [] => []
  | c :: t =>
      match skip with
      | S k => percent_decode hex k t
      | O =>
          match t with
          | h :: l :: _ =>
              match (c =? 37)%N, hex h, hex l with
              | true, Some x, Some y => (16 * x + y)%N :: percent_decode hex 2 t
              | _, _, _ => c :: percent_decode hex O t
              end
          | _ => c :: percent_decode hex O t
          end
      end
  end.

(** [unescape(s)] on a string without [%u] escapes, which is all that
    [encodeURIComponent] produces: [%] is itself escaped there. *)
Definition unescape (s : jsstring) : jsstring := percent_decode hex_value O s.

Definition base64_char (v : N) : N :=
  (if v <? 26 then 65 + v
   else if v <? 52 then 71 + v
   else if v <? 62 then v - 4
   else if v =? 62 then 43
   else 47)%N.

(** Base64 of a list of octets. *)
Fixpoint base64 (bytes : list N) : jsstring :=
  match bytes with
  | [] => []
  | [a] =>
      [base64_char (a / 4); base64_char ((a mod 4) * 16); 61; 61]%N
  | [a; b] =>
      [base64_char (a / 4); base64_char ((a mod 4) * 16 + b / 16);
       base64_char ((b mod 16) * 4); 61]%N
  | a :: b :: c :: rest =>
      [base64_char (a / 4); base64_char ((a mod 4) * 16 + b / 16);
       base64_char ((b mod 16) * 4 + c / 64); base64_char (c mod 64)]%N
      ++ base64 rest
  end.

(** [btoa(s)]: throws ([None]) when a code unit is above 255. *)
Definition btoa (s : jsstring) : option jsstring :=
  if forallb (fun c => (c <? 256)%N) s then Some (base64 s) else None.

(** Values of one octet each. *)
Definition octets (bytes : list N) : Prop := List.Forall (fun b => (b < 256)%N) bytes.

(** The SVG data URL of a text: the base64 of its UTF-8 octets behind the
    media type; [None] for a text with a lone surrogate. *)
Definition data_url_of (s : jsstring) : option jsstring :=
  option_map (fun bytes => str "data:image/svg+xml;base64," ++ base64 bytes) (utf8 s).

End JS.

Export JS.

(** ** The host: what the engine and the browser provide *)

(** A parsed XML element as far as the panel touches it: its name, its
    attributes in document order, and the rest of the element, which the
    panel hands back to the serializer untouched. *)
Record XMLElement : Type := {
  xml_name : jsstring;
  xml_attributes : list (jsstring * jsstring);
  xml_rest : jsstring
}.

(** A decoded image. *)
Record Image : Type := {
  img_src : jsstring;
  img_width : number;
  img_height : number
}.

(** The calls made on a 2D context, in program order. *)
Inductive CanvasOp : Type :=
| SetFillStyle (colour : string)
| FillRect (x y w h : number)
| SetImageSmoothingEnabled (b : bool)
| SetImageSmoothingQuality (q : string)
| DrawImage (img : Image) (dx dy dw dh : number).

Record Canvas : Type := {
  canvas_width : number;
  canvas_height : number;
  canvas_ops : list CanvasOp
}.

Class Engine : Type := {
  (** rounding of an exact real to the stored double; overflow gives an
      infinity, underflow gives zero *)
  fl : Q -> number;
  (** [Number.prototype.toString] *)
  Number_toString : number -> jsstring;
  (** [new DOMParser().parseFromString(s, 'image/svg+xml')] followed by the
      [parsererror] test: [None] when the document holds a [parsererror]
      element, the document element otherwise *)
  parseFromString : jsstring -> option XMLElement;
  (** [new XMLSerializer().serializeToString(e)] *)
  serializeToString : XMLElement -> jsstring;
  (** assigning [img.src]: [Some] the decoded image when [onload] fires,
      [None] when [onerror] fires *)
  loadImage : jsstring -> option Image;
  (** whether [canvas.getContext('2d')] returns a context *)
  getContext2d : bool;
  (** [canvas.toDataURL('image/png')] *)
  toDataURL : Canvas -> jsstring;
  (** [chrome.downloads.download]: [None] when the promise resolves, the
      message of the error it rejects with otherwise *)
  downloads_download : jsstring -> jsstring -> option string;
  (** [zip.generateAsync] and [URL.createObjectURL]: the blob URL of an
      archive with the given entries *)
  createObjectURL : gmap jsstring jsstring -> jsstring
}.

(** ** Arithmetic on numbers *)

Section Arithmetic.
Context {host : Engine}.

(** [a / b] *)
Definition div (a b : number) : number :=
  match a, b with
  | NaN, _ | _, NaN => NaN
  | Inf _, Inf _ => NaN
  | Inf s, Num y => Inf (xorb s (is_neg y))
  | Num _, Inf _ => Num 0
  | Num x, Num y =>
      if Qeq_bool y 0 then (if Qeq_bool x 0 then NaN else Inf (is_neg x))
      else fl (x / y)
  end.

(** [a * b] *)
Definition mul (a b : number) : number :=
  match a, b with
  | NaN, _ | _, NaN => NaN
  | Inf s, Inf t => Inf (xorb s t)
  | Inf s, Num y => if Qeq_bool y 0 then NaN else Inf (xorb s (is_neg y))
  | Num x, Inf t => if Qeq_bool x 0 then NaN else Inf (xorb (is_neg x) t)
  | Num x, Num y => fl (x * y)
  end.

(** [a - b] *)
Definition sub (a b : number) : number :=
  match a, b with
  | NaN, _ | _, NaN => NaN
  | Inf s, Inf t => if Bool.eqb s t then NaN else Inf s
  | Inf s, Num _ => Inf s
  | Num _, Inf t => Inf (negb t)
  | Num x, Num y => fl (x - y)
  end.

(** [Math.min(a, b)] *)
Definition Math_min (a b : number) : number :=
  match a, b with
  | NaN, _ | _, NaN => NaN
  | Inf true, _ | _, Inf true => Inf true
  | Inf false, _ => b
  | _, Inf false => a
  | Num x, Num y => if Qle_bool x y then a else b
  end.

(** [Math.max(a, b)] *)
Definition Math_max (a b : number) : number :=
  match a, b with
  | NaN, _ | _, NaN => NaN
  | Inf false, _ | _, Inf false => Inf false
  | Inf true, _ => b
  | _, Inf true => a
  | Num x, Num y => if Qle_bool x y then b else a
  end.

End Arithmetic.

(** ** content.ts: the scanner *)

Module Content.

(** *** The page *)

(** What the scanner reads off one element. *)
Record ElementData : Type := {
  uid : nat;                                  (* the identity of the node *)
  localName : jsstring;                       (* what a type selector matches *)
  instanceof_Element : bool;                  (* [el instanceof Element] *)
  instanceof_SVGElement : bool;               (* [el instanceof SVGElement] *)
  attributes : list (jsstring * jsstring);    (* in document order *)
  style_width : jsstring;                     (* [getComputedStyle(el).width] *)
  style_height : jsstring;                    (* [getComputedStyle(el).height] *)
  bbox : option (number * number);            (* [el.getBBox()]; [None]: it throws *)
  clientWidth : Z;
  clientHeight : Z;
  outerHTML : jsstring
}.

(** An element with its children, the children of its open shadow root if it
    has one ([el.shadowRoot] is null for a closed root), and, for a frame,
    the elements of [contentDocument] ([None] when it is null or the access
    throws, as for a cross-origin frame). *)
Inductive Element : Type :=
| Node (data : ElementData)
       (children : list Element)
       (shadowRoot : option (list Element))
       (contentDocument : option (list Element)).

Definition data (e : Element) : ElementData :=
  match e with Node d _ _ _ => d end.
Definition children (e : Element) : list Element :=
  match e with Node _ c _ _ => c end.
Definition shadowRoot (e : Element) : option (list Element) :=
  match e with Node _ _ s _ => s end.
Definition contentDocument (e : Element) : option (list Element) :=
  match e with Node _ _ _ f => f end.

(** Induction over an element with its children, its shadow tree and its
    framed document. *)
Section ElementInduction.
Variable P : Element -> Prop.
Hypothesis step :
  forall d cs sr fr,
    List.Forall P cs ->
    match sr with Some root => List.Forall P root | None => True end ->
    match fr with Some doc => List.Forall P doc | None => True end ->
    P (Node d cs sr fr).

Fixpoint Element_induction (e : Element) : P e :=
  match e with
  | Node d cs sr fr =>
      let all :=
        fix all (l : list Element) : List.Forall P l :=
          match l with
          | [] => @List.Forall_nil _ P
          | x :: r => @List.Forall_cons _ P x r (Element_induction x) (all r)
          end in
      step d cs sr fr (all cs)
           (match sr return match sr with Some root => List.Forall P root | None => True end with
            | Some root => all root
            | None => I
            end)
           (match fr return match fr with Some doc => List.Forall P doc | None => True end with
            | Some doc => all doc
            | None => I
            end)
  end.
End ElementInduction.

(** A document or a shadow root: the elements at its top. *)
Definition Root : Type := list Element.

(** An element and its descendants in tree order; shadow trees and framed
    documents are separate trees and are not entered. *)
Fixpoint subtree (e : Element) : list Element :=
  match e with
  | Node _ cs _ _ => e :: flat_map subtree cs
  end.

(** [root.querySelectorAll('*')] *)
Definition all_elements (root : Root) : list Element := flat_map subtree root.

(** [root.querySelectorAll(name)] for a type selector. *)
Definition querySelectorAll (name : jsstring) (root : Root) : list Element :=
  List.filter (fun e => str_eqb (localName (data e)) name) (all_elements root).

(** [el.getAttribute(name)] *)
Fixpoint lookup_attribute (name : jsstring) (l : list (jsstring * jsstring))
  : option jsstring :=
  match l with
  | [] => None
  | (k, v) :: t => if str_eqb k name then Some v else lookup_attribute name t
  end.

Definition getAttribute (e : Element) (name : jsstring) : option jsstring :=
  lookup_attribute name (attributes (data e)).

(** *** scanSVGElements *)

(** [scanRegularDOM(root)]: what it pushes onto [svgElements]. *)
Definition scanRegularDOM (root : Root) : list Element :=
  List.filter (fun e => instanceof_SVGElement (data e))
         (querySelectorAll (str "svg") root).

(** One round of a [forEach] over [querySelectorAll('*')] that calls
    [scanShadowDOM]: the call for [e] itself, then the rounds for the
    descendants of [e], which follow it in tree order.  [guarded] says
    whether the loop tests [el instanceof Element] first, as the loops inside
    [scanShadowDOM] and [scanIframes] do and the loop over the document does
    not.  The call for [e] scans the shadow root and runs the guarded loop
    over its elements. *)
Fixpoint shadow_round (guarded : bool) (e : Element) : list Element :=
  match e with
  | Node d cs sr _ =>
      (if negb guarded || instanceof_Element d then
         match sr with
         | Some root => scanRegularDOM root ++ flat_map (shadow_round true) root
         | None => []
         end
       else [])
      ++ flat_map (shadow_round guarded) cs
  end.

(** [scanShadowDOM(root)] *)
Definition scanShadowDOM (e : Element) : list Element :=
  match shadowRoot e with
  | Some root => scanRegularDOM root ++ flat_map (shadow_round true) root
  | None => []
  end.

(** [scanIframes()] *)
Definition scanIframes (document : Root) : list Element :=
  flat_map
    (fun iframe =>
       match contentDocument iframe with
       | Some iframeDoc =>
           scanRegularDOM iframeDoc ++ flat_map (shadow_round true) iframeDoc
       | None => []
       end)
    (querySelectorAll (str "iframe") document).

(** The traversal: the three scans in the order the function runs them. *)
Definition traverse (document : Root) : list Element :=
  scanRegularDOM document
  ++ flat_map (shadow_round false) document
  ++ scanIframes document.

(** The variables the closure keeps between calls. *)
Record Cache : Type := {
  cachedElements : option (list Element);
  lastScanTime : Z
}.

Definition initial_cache : Cache :=
  {| cachedElements := None; lastScanTime := 0 |}.

Definition CACHE_DURATION : Z := 1000.

(** [scanSVGElements()] with [Date.now()] and the page as inputs: the list
    it returns and the variables afterwards. *)
Definition scanSVGElements (document : Root) (now : Z) (c : Cache)
  : list Element * Cache :=
  match cachedElements c with
  | Some cached =>
      if now - lastScanTime c <? CACHE_DURATION then (cached, c)
      else
        let svgElements := traverse document in
        (svgElements, {| cachedElements := Some svgElements; lastScanTime := now |})
  | None =>
      let svgElements := traverse document in
      (svgElements, {| cachedElements := Some svgElements; lastScanTime := now |})
  end.

(** Every element of the page: an element, then its descendants, then the
    elements of its open shadow tree, then those of its framed document. *)
Fixpoint page_elements (e : Element) : list Element :=
  match e with
  | Node _ cs sr fr =>
      e :: flat_map page_elements cs
        ++ match sr with Some root => flat_map page_elements root | None => [] end
        ++ match fr with Some doc => flat_map page_elements doc | None => [] end
  end.

(** What the callback of [scanIframes] pushes for one frame. *)
Definition scan_frame (iframe : Element) : list Element :=
  match contentDocument iframe with
  | Some iframeDoc =>
      scanRegularDOM iframeDoc ++ flat_map (shadow_round true) iframeDoc
  | None => []
  end.

(** The shadow roots that a loop of [scanShadowDOM] calls over the elements
    of [outer] scans, the loop testing [instanceof Element] when [guarded]:
    the open root of an element of [outer], or a root that the loop inside
    such a call reaches. *)
Inductive shadow_scope : bool -> Root -> Root -> Prop :=
| scope_host (guarded : bool) (outer : Root) (host : Element) (root : Root) :
    In host (all_elements outer) ->
    (guarded = true -> instanceof_Element (data host) = true) ->
    shadowRoot host = Some root ->
    shadow_scope guarded outer root
| scope_deeper (guarded : bool) (outer : Root) (host : Element) (mid root : Root) :
    In host (all_elements outer) ->
    (guarded = true -> instanceof_Element (data host) = true) ->
    shadowRoot host = Some mid ->
    shadow_scope true mid root ->
    shadow_scope guarded outer root.

(** The trees that a traversal looks into: the document, the open shadow
    trees at any depth below it, the documents of the accessible frames
    among the [iframe] elements of the document, and the open shadow trees
    at any depth below those. *)
Inductive scanned (document : Root) : Root -> Prop :=
| scanned_document : scanned document document
| scanned_shadow (root : Root) :
    shadow_scope false document root -> scanned document root
| scanned_frame (iframe : Element) (iframeDoc : Root) :
    In iframe (querySelectorAll (str "iframe") document) ->
    contentDocument iframe = Some iframeDoc ->
    scanned document iframeDoc
| scanned_frame_shadow (iframe : Element) (iframeDoc root : Root) :
    In iframe (querySelectorAll (str "iframe") document) ->
    contentDocument iframe = Some iframeDoc ->
    shadow_scope true iframeDoc root ->
    scanned document root.

(** The test of a loop that calls [scanShadowDOM]. *)
Definition guard (guarded : bool) (el : Element) : bool :=
  negb guarded || instanceof_Element (data el).

(** [el.shadowRoot] is truthy. *)
Definition has_shadowRoot (el : Element) : bool :=
  match shadowRoot el with Some _ => true | None => false end.

(** One round of the loop of [scanIframes] for [e] and its descendants. *)
Fixpoint frame_round (e : Element) : list Element :=
  match e with
  | Node d cs _ _ =>
      (if str_eqb (localName d) (str "iframe") then scan_frame e else [])
      ++ flat_map frame_round cs
  end.

(** How many elements of [l] have the identity [u]. *)
Definition occurrences (u : nat) (l : list Element) : nat :=
  count_occ Nat.eq_dec (List.map (fun e => uid (data e)) l) u.

(** *** getSVGDimensions *)

Record Dimensions : Type := {
  width : number;
  height : number
}.

Section Dimensions.
Context {host : Engine}.

(** The value of a string of decimal digits. *)
Definition digits_value (ds : jsstring) : N :=
  fold_left (fun acc d => (10 * acc + (d - 48))%N) ds 0%N.

(** [parseFloat] on a string of digits and dots, which is all [parseSize]
    passes: the digits before the first dot and the digits after it up to
    the next dot; NaN when there is no digit on either side. *)
Definition parseFloat (s : jsstring) : number :=
  let '(int_part, rest) := span is_digit s in
  let frac_part :=
    match rest with
    | 46%N :: t => fst (span is_digit t)
    | _ => []
    end in
  match int_part, frac_part with
  | [], [] => NaN
  | _, _ =>
      fl (inject_Z (Z.of_N (digits_value (int_part ++ frac_part)))
          / inject_Z (10 ^ Z.of_nat (List.length frac_part)))%Q
  end.

(** [parseSize]: the match of [/^([\d.]+)/] parsed, [0] without one. *)
Definition parseSize (size : option jsstring) : number :=
  match size with
  | None => Num 0
  | Some s =>
      match fst (span (fun c => is_digit c || (c =? 46)%N) s) with
      | [] => Num 0
      | m => parseFloat m
      end
  end.

(** The strings [width] and [height] hold when [parseSize] is reached. *)
Definition size_strings (svg : Element) : option jsstring * option jsstring :=
  let width := getAttribute svg (str "width") in
  let height := getAttribute svg (str "height") in
  let '(width, height) :=
    if (falsy_str width || falsy_str height)
       && negb (falsy_str (getAttribute svg (str "viewBox")))
    then
      match getAttribute svg (str "viewBox") with
      | Some v =>
          let viewBox := split 32 v in
          if (List.length viewBox =? 4)%nat
          then (at_index viewBox 2, at_index viewBox 3)
          else (width, height)
      | None => (width, height)
      end
    else (width, height) in
  let '(width, height) :=
    if falsy_str width || falsy_str height
    then (Some (style_width (data svg)), Some (style_height (data svg)))
    else (width, height) in
  if falsy_str width || falsy_str height
  then
    match bbox (data svg) with
    | Some (w, h) => (Some (Number_toString w), Some (Number_toString h))
    | None => (width, height)
    end
  else (width, height).

Definition getSVGDimensions (svg : Element) : Dimensions :=
  let '(width, height) := size_strings svg in
  {| width := or_else (parseSize width)
                (or_else (of_Z (clientWidth (data svg))) (of_Z 100));
     height := or_else (parseSize height)
                 (or_else (of_Z (clientHeight (data svg))) (of_Z 100)) |}.

(** *** The message listener *)

Record SVGItem : Type := {
  id : nat;
  item_outerHTML : jsstring;
  dimensions : Dimensions
}.

(** [svgElements.map((svg, index) => ...)] from index [i] on. *)
Fixpoint svgData_from (i : nat) (svgElements : list Element) : list SVGItem :=
  match svgElements with
  | [] => []
  | svg :: rest =>
      {| id := i;
         item_outerHTML := outerHTML (data svg);
         dimensions := getSVGDimensions svg |}
      :: svgData_from (S i) rest
  end.

(** The list that [scanSVGElements] returns holds the nodes themselves,
    and a node that comes from the cache may have changed since it was
    put there.  [live] says what each node, named by its [uid], reads as
    when the listener runs. *)
Definition read_now (live : nat -> ElementData) (svg : Element) : Element :=
  match svg with
  | Node d cs sr fr => Node (live (uid d)) cs sr fr
  end.

(** The listener: [Some svgData] is the response sent; a request with
    another action is left unanswered. *)
Definition onMessage (action : jsstring) (document : Root)
           (live : nat -> ElementData) (now : Z) (c : Cache)
  : option (list SVGItem) * Cache :=
  if str_eqb action (str "scanSVG") then
    let '(svgElements, c') := scanSVGElements document now c in
    (Some (svgData_from 0 (List.map (read_now live) svgElements)), c')
  else (None, c).

End Dimensions.

(** *** Realms *)

(** Every frame has a global object of its own, and an element belongs to
    the realm of the document that created it: for an element of a frame's
    document, [instanceof] against the [Element] or the [SVGElement] of
    the scanner's realm is false. *)
Definition of_another_realm (e : Element) : bool :=
  negb (instanceof_Element (data e)) && negb (instanceof_SVGElement (data e)).

(** The page is as a browser builds it: whatever lies in the document of a
    frame, at any depth, is of another realm than the scanner's. *)
Definition frames_foreign (document : Root) : bool :=
  forallb (fun e =>
             match contentDocument e with
             | Some doc => forallb of_another_realm (flat_map page_elements doc)
             | None => true
             end)
          (flat_map page_elements document).

(** A character of the class [[\d.]] of [parseSize]. *)
Definition is_size_char (c : N) : bool := is_digit c || (c =? 46)%N.

(** The text is empty or starts outside the class [[\d.]]. *)
Definition no_size_ahead (s : jsstring) : bool :=
  match s with
  | [] => true
  | c :: _ => negb (is_size_char c)
  end.

End Content.

(** ** The fallback chain of the dimensions, source by source *)

Module Chain.

Import Content.

(** A width string and a height string. *)
Definition Pair : Type := (option jsstring * option jsstring)%type.

(** Both strings are there and neither is empty. *)
Definition complete (p : Pair) : bool :=
  negb (falsy_str (fst p)) && negb (falsy_str (snd p)).

Section Chain.
Context {host : Engine}.

(** The [width] and [height] attributes. *)
Definition from_attributes (svg : Element) : Pair :=
  (getAttribute svg (str "width"), getAttribute svg (str "height")).

(** The third and fourth part of a non-empty [viewBox] attribute that
    splits at single spaces into exactly four parts. *)
Definition from_viewBox (svg : Element) : option Pair :=
  match getAttribute svg (str "viewBox") with
  | Some (c :: v) =>
      match split 32 (c :: v) with
      | [_; _; w; h] => Some (Some w, Some h)
      | _ => None
      end
  | _ => None
  end.

(** The computed style. *)
Definition from_style (svg : Element) : Pair :=
  (Some (style_width (data svg)), Some (style_height (data svg))).

(** The bounding box, when [getBBox] does not throw. *)
Definition from_bbox (svg : Element) : option Pair :=
  match bbox (data svg) with
  | Some (w, h) => Some (Some (Number_toString w), Some (Number_toString h))
  | None => None
  end.

(** The sources that are available, in the order they are consulted. *)
Definition sources (svg : Element) : list Pair :=
  from_attributes svg
  :: match from_viewBox svg with Some p => [p] | None => [] end
  ++ from_style svg
  :: match from_bbox svg with Some p => [p] | None => [] end.

(** The first pair that is complete; the last pair when none is. *)
Fixpoint first_complete (current : Pair) (rest : list Pair) : Pair :=
  match rest with
  | [] => current
  | next :: rest' =>
      if complete current then current else first_complete next rest'
  end.

Definition chosen (svg : Element) : Pair :=
  match sources svg with
  | [] => (None, None)
  | p :: rest => first_complete p rest
  end.

(** One axis: the parsed string when it is a number other than zero, else
    the client size when it is not zero, else 100. *)
Definition resolve (size : option jsstring) (client : Z) : number :=
  if truthy (parseSize size) then parseSize size
  else if client =? 0 then of_Z 100
  else of_Z client.

(** No source has anything: no [width], [height] or [viewBox] attribute,
    empty computed style strings, and a [getBBox] that throws. *)
Definition nothing_to_read (svg : Element) : Prop :=
  getAttribute svg (str "width") = None
  /\ getAttribute svg (str "height") = None
  /\ getAttribute svg (str "viewBox") = None
  /\ style_width (data svg) = []
  /\ style_height (data svg) = []
  /\ bbox (data svg) = None.

End Chain.

End Chain.

(** ** Promises *)

(** How a promise settles: with a value, or with an error of the given
    message. *)
Inductive Result (A : Type) : Type :=
| Resolve (value : A)
| Reject (message : string).

Arguments Resolve {A} value.
Arguments Reject {A} message.

(** ** contents/offscreen/index.ts: the rasterizer of the offscreen document *)

Module Offscreen.

Section Offscreen.
Context {host : Engine}.

(** [svgToBase64]: [None] when [encodeURIComponent] or [btoa] throws. *)
Definition svgToBase64 (svgString : jsstring) : option jsstring :=
  match encodeURIComponent svgString with
  | Some escaped =>
      match btoa (unescape escaped) with
      | Some b64 => Some (str "data:image/svg+xml;base64," ++ b64)
      | None => None
      end
  | None => None
  end.

(** The body of [img.onload] after the context is obtained: the calls on
    the context. *)
Definition draw (img : Image) (width height : number) : list CanvasOp :=
  let scale := Math_min (div width (img_width img)) (div height (img_height img)) in
  let scaledWidth := mul (img_width img) scale in
  let scaledHeight := mul (img_height img) scale in
  let x := div (sub width scaledWidth) (of_Z 2) in
  let y := div (sub height scaledHeight) (of_Z 2) in
  [SetImageSmoothingEnabled true;
   SetImageSmoothingQuality "high";
   DrawImage img x y scaledWidth scaledHeight].

(** [processImage]: how the promise it returns settles.  An exception of
    [svgToBase64] inside the executor rejects the promise with that
    exception. *)
Definition processImage (svgString : jsstring) (width height : number)
  : Result jsstring :=
  match svgToBase64 svgString with
  | None => Reject "URI malformed"
  | Some svgBase64 =>
      match loadImage svgBase64 with
      | None => Reject "SVG 加载失败"
      | Some img =>
          if getContext2d then
            Resolve (toDataURL {| canvas_width := width;
                                  canvas_height := height;
                                  canvas_ops := draw img width height |})
          else Reject "无法创建 canvas context"
      end
  end.

Record Response : Type := {
  success : bool;
  dataUrl : option jsstring;
  error : option string
}.

(** The listener: the response to a message, if it is one for this
    document. *)
Definition onMessage (target type : jsstring)
           (svgString : jsstring) (width height : number) : option Response :=
  if str_eqb target (str "offscreen") && str_eqb type (str "convert-svg") then
    match processImage svgString width height with
    | Resolve url => Some {| success := true; dataUrl := Some url; error := None |}
    | Reject message =>
        Some {| success := false; dataUrl := None; error := Some message |}
    end
  else None.

End Offscreen.

End Offscreen.

(** ** sidepanel.tsx: the panel *)

Module SidePanel.

Import Content.

Record PresetSize : Type := {
  preset_width : Z;
  preset_height : Z;
  label : string
}.

Definition PRESET_SIZES : list PresetSize :=
  [ {| preset_width := 16; preset_height := 16; label := "16x16" |};
    {| preset_width := 32; preset_height := 32; label := "32x32" |};
    {| preset_width := 48; preset_height := 48; label := "48x48" |};
    {| preset_width := 128; preset_height := 128; label := "128x128" |};
    {| preset_width := 0; preset_height := 0; label := "原始尺寸" |};
    {| preset_width := -1; preset_height := -1; label := "下载所有尺寸" |};
    {| preset_width := -2; preset_height := -2; label := "自定义尺寸" |} ].

(** [PRESET_SIZES[0]] *)
Definition PRESET_0 : PresetSize :=
  {| preset_width := 16; preset_height := 16; label := "16x16" |}.

(** The double quote. *)
Definition quote : jsstring := [34%N].

(** [cleanSvgString] *)
Definition cleanSvgString (svgString : jsstring) : jsstring :=
  let s := replace_all (lit [10%N]) (str " ") svgString in
  let s := replace_all spaces (str " ") s in
  let s := replace_all gt_spaces_lt (str "><") s in
  let s := replace_all (lit (str "xlink:href")) (str "href") s in
  let s := replace_all (lit (str "xmlns:xlink")) (str "xmlns") s in
  replace_first (lit (str "<svg"))
    (str "<svg xmlns=" ++ quote ++ str "http://www.w3.org/2000/svg" ++ quote) s.

(** What [cleanSvgString] puts after the first ["<svg"]. *)
Definition xmlns_declaration : jsstring :=
  str " xmlns=" ++ quote ++ str "http://www.w3.org/2000/svg" ++ quote.

(** The text after the first five replacements of [cleanSvgString]. *)
Definition before_xmlns (svgString : jsstring) : jsstring :=
  let s := replace_all (lit [10%N]) (str " ") svgString in
  let s := replace_all spaces (str " ") s in
  let s := replace_all gt_spaces_lt (str "><") s in
  let s := replace_all (lit (str "xlink:href")) (str "href") s in
  replace_all (lit (str "xmlns:xlink")) (str "xmlns") s.

(** [el.setAttribute(name, value)] on the attribute list: the first
    attribute of that name changes its value, a new one goes to the end. *)
Fixpoint set_attribute (name value : jsstring) (l : list (jsstring * jsstring))
  : list (jsstring * jsstring) :=
  match l with
  | [] => [(name, value)]
  | (k, v) :: t =>
      if str_eqb k name then (k, value) :: t
      else (k, v) :: set_attribute name value t
  end.

Definition setAttribute (e : XMLElement) (name value : jsstring) : XMLElement :=
  {| xml_name := xml_name e;
     xml_attributes := set_attribute name value (xml_attributes e);
     xml_rest := xml_rest e |}.

Definition xml_getAttribute (e : XMLElement) (name : jsstring) : option jsstring :=
  lookup_attribute name (xml_attributes e).

Record CustomSize : Type := {
  custom_width : number;
  custom_height : number;
  keepRatio : bool
}.

(** What the panel does that can be observed, in program order. *)
Inductive Effect : Type :=
| SetDownloadStatus (id : nat) (loading : bool) (error : option string)
| CallSvgToDataUrl (svgString : jsstring) (width height : number)
| Download (url filename : jsstring) (saveAs : bool)
| RevokeObjectURL (url : jsstring).

Section SidePanel.
Context {host : Engine}.

(** [`0 0 ${width} ${height}`] *)
Definition viewBox_value (width height : number) : jsstring :=
  str "0 0 " ++ Number_toString width ++ str " " ++ Number_toString height.

(** The three [setAttribute] calls of [svgToDataUrl]. *)
Definition set_viewport (svgElement : XMLElement) (width height : number)
  : XMLElement :=
  let e := setAttribute svgElement (str "width") (Number_toString width) in
  let e := setAttribute e (str "height") (Number_toString height) in
  setAttribute e (str "viewBox") (viewBox_value width height).

(** [encodeURIComponent(svgData).replace(/%([0-9A-F]{2})/g, ...)] and
    [btoa]: the data URL, [None] when one of the calls throws. *)
Definition encode_data_url (svgData : jsstring) : option jsstring :=
  match encodeURIComponent svgData with
  | Some escaped =>
      match btoa (percent_decode upper_hex_value O escaped) with
      | Some base64 => Some (str "data:image/svg+xml;base64," ++ base64)
      | None => None
      end
  | None => None
  end.

(** The body of [img.onload] after the context is obtained. *)
Definition draw (img : Image) (width height : number) : list CanvasOp :=
  [SetFillStyle "white";
   FillRect (of_Z 0) (of_Z 0) width height;
   DrawImage img (of_Z 0) (of_Z 0) width height].

(** [svgToDataUrl]: how the promise it returns settles. *)
Definition svgToDataUrl (svgString : jsstring) (width height : number)
  : Result jsstring :=
  let cleanedSvg := cleanSvgString svgString in
  match parseFromString cleanedSvg with
  | None => Reject "SVG 解析失败"
  | Some svgElement =>
      let svgData := serializeToString (set_viewport svgElement width height) in
      match encode_data_url svgData with
      | None => Reject "SVG 处理失败"
      | Some dataUrl =>
          match loadImage dataUrl with
          | None => Reject "SVG 图片加载失败"
          | Some img =>
              if getContext2d then
                Resolve (toDataURL {| canvas_width := width;
                                      canvas_height := height;
                                      canvas_ops := draw img width height |})
              else Reject "无法创建 canvas context"
          end
      end
  end.

(** [`svg_${id}_${width}x${height}.png`] *)
Definition png_filename (id : nat) (width height : number) : jsstring :=
  str "svg_" ++ Number_toString (of_Z (Z.of_nat id)) ++ str "_"
  ++ Number_toString width ++ str "x" ++ Number_toString height ++ str ".png".

(** [`svg_${id}_all_sizes.zip`] *)
Definition zip_filename (id : nat) : jsstring :=
  str "svg_" ++ Number_toString (of_Z (Z.of_nat id)) ++ str "_all_sizes.zip".

(** [PRESET_SIZES.filter(size => size.width >= 0)] *)
Definition archive_sizes : list PresetSize :=
  List.filter (fun size => 0 <=? preset_width size) PRESET_SIZES.

(** The size one callback of [sizes.map] rasterizes at. *)
Definition target_size (svg : SVGItem) (size : PresetSize) : number * number :=
  (or_else (of_Z (preset_width size)) (width (dimensions svg)),
   or_else (of_Z (preset_height size)) (height (dimensions svg))).

(** The names of the entries, in the order of [sizes]. *)
Definition archive_names (svg : SVGItem) : list jsstring :=
  List.map (fun size =>
              let '(w, h) := target_size svg size in
              png_filename (id svg) w h)
           archive_sizes.

(** [dataUrl.split(',')[1]]; JSZip stores an empty file for [undefined]. *)
Definition base64_part (dataUrl : jsstring) : jsstring :=
  match at_index (split 44 dataUrl) 1 with
  | Some d => d
  | None => []
  end.

(** The calls of [svgToDataUrl] that [sizes.map] starts: every callback
    runs up to its [await] before [Promise.all] is reached. *)
Definition archive_calls (svg : SVGItem) : list Effect :=
  List.map (fun size =>
              let '(w, h) := target_size svg size in
              CallSvgToDataUrl (item_outerHTML svg) w h)
           archive_sizes.

(** The callbacks after their [await], taken in the order of [sizes]: the
    archive after the [zip.file] calls (JSZip keeps one entry per name, the
    later call replacing the earlier), or the first rejection. *)
Fixpoint archive_entries (svg : SVGItem) (sizes : list PresetSize)
         (zip : gmap jsstring jsstring) : Result (gmap jsstring jsstring) :=
  match sizes with
  | [] => Resolve zip
  | size :: rest =>
      let '(w, h) := target_size svg size in
      match svgToDataUrl (item_outerHTML svg) w h with
      | Resolve dataUrl =>
          archive_entries svg rest
            (<[ png_filename (id svg) w h := base64_part dataUrl ]> zip)
      | Reject message => Reject message
      end
  end.

Record Outcome : Type := {
  success : bool;
  error : option string
}.

(** [downloadAllSizes]: what it does and what it returns. *)
Definition downloadAllSizes (svg : SVGItem) : list Effect * Outcome :=
  match archive_entries svg archive_sizes ∅ with
  | Resolve zip =>
      let url := createObjectURL zip in
      match downloads_download url (zip_filename (id svg)) with
      | None =>
          (archive_calls svg
           ++ [Download url (zip_filename (id svg)) true; RevokeObjectURL url],
           {| success := true; error := None |})
      | Some message =>
          (archive_calls svg ++ [Download url (zip_filename (id svg)) true],
           {| success := false; error := Some message |})
      end
  | Reject message =>
      (archive_calls svg, {| success := false; error := Some message |})
  end.

(** [response.error || '下载失败'] *)
Definition error_or_default (error : option string) : string :=
  match error with
  | Some EmptyString | None => "下载失败"%string
  | Some message => message
  end.

(** One rasterization followed by its download, as the custom and the
    preset branch of [handleDownload] do it; the status set at the end. *)
Definition download_one (svg : SVGItem) (w h : number) : list Effect :=
  CallSvgToDataUrl (item_outerHTML svg) w h ::
  match svgToDataUrl (item_outerHTML svg) w h with
  | Resolve dataUrl =>
      Download dataUrl (png_filename (id svg) w h) true ::
      match downloads_download dataUrl (png_filename (id svg) w h) with
      | None => [SetDownloadStatus (id svg) false None]
      | Some message => [SetDownloadStatus (id svg) false (Some message)]
      end
  | Reject message => [SetDownloadStatus (id svg) false (Some message)]
  end.

(** [handleDownload] with the two pieces of component state it reads. *)
Definition handleDownload
           (selectedSizes : gmap nat PresetSize)
           (customSizes : gmap nat CustomSize)
           (svg : SVGItem) : list Effect :=
  let selectedSize := default PRESET_0 (selectedSizes !! id svg) in
  SetDownloadStatus (id svg) true None ::
  if preset_width selectedSize =? -1 then
    let '(effects, response) := downloadAllSizes svg in
    effects ++
    (if success response then [SetDownloadStatus (id svg) false None]
     else [SetDownloadStatus (id svg) false
             (Some (error_or_default (error response)))])
  else if preset_width selectedSize =? -2 then
    match customSizes !! id svg with
    | None => [SetDownloadStatus (id svg) false (Some "请输入有效的自定义尺寸"%string)]
    | Some customSize =>
        if le (custom_width customSize) (of_Z 0)
           || le (custom_height customSize) (of_Z 0)
        then [SetDownloadStatus (id svg) false (Some "请输入有效的自定义尺寸"%string)]
        else download_one svg (custom_width customSize) (custom_height customSize)
    end
  else
    let '(w, h) := target_size svg selectedSize in
    download_one svg w h.

End SidePanel.

(** *** Scanning from the panel *)

Record Tab : Type := {
  tab_id : option Z
}.

Record PanelState : Type := {
  svgItems : list SVGItem;
  isScanning : bool;
  scanError : option string;
  currentTabId : option Z
}.

(** What the browser answers during one run of [scanSVGs]:
    [chrome.tabs.query] and, for a tab id, [chrome.tabs.sendMessage], whose
    value is [response?.svgData]. *)
Record ScanAnswers : Type := {
  tabs_query : Result (list Tab);
  tabs_sendMessage : Z -> Result (option (list SVGItem))
}.

(** [activeTab?.id] when it is truthy. *)
Definition active_tab_id (tabs : list Tab) : option Z :=
  match tabs with
  | [] => None
  | activeTab :: _ =>
      match tab_id activeTab with
      | Some 0 | None => None
      | Some i => Some i
      end
  end.

(** [scanSVGs] awaits twice, so a run writes the state in three
    stretches, and stretches of other runs may come between them.  The
    first stretch, up to the await of [chrome.tabs.query]: *)
Definition scan_begins (st : PanelState) : PanelState :=
  {| svgItems := svgItems st; isScanning := true;
     scanError := None; currentTabId := currentTabId st |}.

(** The [catch] block followed by the [finally] block. *)
Definition scan_fails (message : string) (st : PanelState) : PanelState :=
  {| svgItems := []; isScanning := false;
     scanError := Some message; currentTabId := currentTabId st |}.

(** The second stretch, from the answer of [chrome.tabs.query] to the await
    of [chrome.tabs.sendMessage]: the tab the message goes to, if the run
    gets that far, and the state. *)
Definition scan_queried (tabs : Result (list Tab)) (st : PanelState)
  : option Z * PanelState :=
  match tabs with
  | Reject message => (None, scan_fails message st)
  | Resolve tabs =>
      match active_tab_id tabs with
      | None => (None, scan_fails "无法获取当前标签页" st)
      | Some tabId =>
          (Some tabId,
           {| svgItems := svgItems st; isScanning := isScanning st;
              scanError := scanError st; currentTabId := Some tabId |})
      end
  end.

(** The third stretch, from the answer of [chrome.tabs.sendMessage], whose
    value is [response?.svgData], to the end. *)
Definition scan_answered (response : Result (option (list SVGItem)))
           (st : PanelState) : PanelState :=
  match response with
  | Reject message => scan_fails message st
  | Resolve (Some svgData) =>
      {| svgItems := svgData; isScanning := false;
         scanError := scanError st; currentTabId := currentTabId st |}
  | Resolve None =>
      {| svgItems := []; isScanning := false;
         scanError := scanError st; currentTabId := currentTabId st |}
  end.

(** A run of [scanSVGs] with no stretch of another run between its own:
    the state after the run and how the promise settles.  Every exception
    is caught inside. *)
Definition scanSVGs (answers : ScanAnswers) (st : PanelState)
  : Result unit * PanelState :=
  match scan_queried (tabs_query answers) (scan_begins st) with
  | (None, st') => (Resolve tt, st')
  | (Some tabId, st') =>
      (Resolve tt, scan_answered (tabs_sendMessage answers tabId) st')
  end.

(** Several runs at once: the effect that listens to the tabs starts a run
    when the panel mounts and whenever [currentTabId] changes, the effect
    with [retryOnError] starts one when the panel mounts, and the refresh
    button starts one on a click.  A step is one stretch of one run. *)
Inductive ScanStep : Type :=
| Begins (run : nat)
| Queried (run : nat) (tabs : Result (list Tab))
| Answered (run : nat) (response : Result (option (list SVGItem))).

(** What a run that has begun and not ended is waiting for. *)
Inductive Waiting : Type :=
| ForTabs
| ForResponse (tabId : Z).

(** The runs under way and the state of the component. *)
Record Scans : Type := {
  waiting : gmap nat Waiting;
  shown : PanelState
}.

(** One step.  A step that does not fit what its run is waiting for does
    not happen. *)
Definition scan_step (s : Scans) (step : ScanStep) : Scans :=
  match step with
  | Begins run =>
      match waiting s !! run with
      | None => {| waiting := <[run := ForTabs]> (waiting s);
                   shown := scan_begins (shown s) |}
      | Some _ => s
      end
  | Queried run tabs =>
      match waiting s !! run with
      | Some ForTabs =>
          match scan_queried tabs (shown s) with
          | (Some tabId, st) =>
              {| waiting := <[run := ForResponse tabId]> (waiting s); shown := st |}
          | (None, st) => {| waiting := delete run (waiting s); shown := st |}
          end
      | _ => s
      end
  | Answered run response =>
      match waiting s !! run with
      | Some (ForResponse _) =>
          {| waiting := delete run (waiting s);
             shown := scan_answered response (shown s) |}
      | _ => s
      end
  end.

Definition scan_steps (steps : list ScanStep) (s : Scans) : Scans :=
  fold_left scan_step steps s.

(** The panel with no run under way. *)
Definition at_rest (st : PanelState) : Scans :=
  {| waiting := ∅; shown := st |}.

(** *** The channel between the scanner and the panel *)

(** The browser hands the response of the scanner to the panel as JSON,
    in which a number that is not finite is written [null]. *)
Definition JSON_number (n : number) : option number :=
  match n with
  | Num q => Some (Num q)
  | _ => None
  end.

(** An item as it arrives; [None] when a dimension arrives as [null],
    which is no value of the item's type here. *)
Definition delivered (item : SVGItem) : option SVGItem :=
  match JSON_number (width (dimensions item)),
        JSON_number (height (dimensions item)) with
  | Some w, Some h =>
      Some {| id := id item; item_outerHTML := item_outerHTML item;
              dimensions := {| width := w; height := h |} |}
  | _, _ => None
  end.

(** A response as it arrives, when no dimension in it arrives as
    [null]. *)
Fixpoint delivered_all (svgData : list SVGItem) : option (list SVGItem) :=
  match svgData with
  | [] => Some []
  | item :: rest =>
      match delivered item, delivered_all rest with
      | Some item', Some rest' => Some (item' :: rest')
      | _, _ => None
      end
  end.

(** What [retryOnError] does that can be observed. *)
Inductive RetryEvent : Type :=
| Attempt (i : Z)
| Wait (milliseconds : Z).

Section Retry.
Variable World : Type.
(** [fn]: one call, in a world that it may change. *)
Variable fn : World -> Result unit * World.

(** The [for] loop of [retryOnError] from index [i] on; [rounds] bounds the
    iterations that are left. *)
Fixpoint retry_from (maxRetries : Z) (rounds : nat) (i : Z) (w : World)
  : list RetryEvent * Result unit * World :=
  match rounds with
  | O => ([], Resolve tt, w)
  | S rounds' =>
      if i <? maxRetries then
        match fn w with
        | (Resolve _, w') => ([Attempt i], Resolve tt, w')
        | (Reject message, w') =>
            if i =? maxRetries - 1 then ([Attempt i], Reject message, w')
            else
              let '(events, r, w'') := retry_from maxRetries rounds' (i + 1) w' in
              (Attempt i :: Wait (1000 * (i + 1)) :: events, r, w'')
        end
      else ([], Resolve tt, w)
  end.

(** [retryOnError(fn, maxRetries)] *)
Definition retryOnError (maxRetries : Z) (w : World)
  : list RetryEvent * Result unit * World :=
  retry_from maxRetries (Z.to_nat maxRetries) 0 w.

End Retry.

(** The panel and the browser it talks to: the answers to the successive
    runs of [scanSVGs], the number of runs made so far, and the component
    state. *)
Record PanelWorld : Type := {
  browser : nat -> ScanAnswers;
  runs : nat;
  panel : PanelState
}.

Definition run_scanSVGs (w : PanelWorld) : Result unit * PanelWorld :=
  let '(r, st) := scanSVGs (browser w (runs w)) (panel w) in
  (r, {| browser := browser w; runs := S (runs w); panel := st |}).

(** The effect that runs when the panel mounts: [retryOnError(scanSVGs)],
    with the default [maxRetries = 3]. *)
Definition onPanelOpen (w : PanelWorld)
  : list RetryEvent * Result unit * PanelWorld :=
  retryOnError PanelWorld run_scanSVGs 3 w.

(** The calls of [svgToDataUrl] among the effects. *)
Definition is_rasterization (e : Effect) : bool :=
  match e with
  | CallSvgToDataUrl _ _ _ => true
  | _ => false
  end.

Definition rasterizations (effects : list Effect) : list Effect :=
  List.filter is_rasterization effects.

(** *** The custom size inputs *)

(** [Math.round] *)
Definition Math_round (n : number) : number :=
  match n with
  | Num q => Num (inject_Z (Qfloor (q + (1 # 2))%Q))
  | _ => n
  end.

Inductive Dimension : Type := WidthInput | HeightInput.

Section CustomSizeInputs.
Context {host : Engine}.

(** [aspectRatio] *)
Definition aspectRatio (svg : SVGItem) : number :=
  div (width (dimensions svg)) (height (dimensions svg)).

(** The initial [localSize] when [customSizes] has no entry for the item. *)
Definition initial_localSize (svg : SVGItem) : CustomSize :=
  {| custom_width := or_else (width (dimensions svg)) (of_Z 100);
     custom_height := or_else (height (dimensions svg)) (of_Z 100);
     keepRatio := true |}.

(** [handleInputConfirm(type)] with [value] the number in [tempInput]: the
    next [localSize], which the effect stores in [customSizes] 300 ms
    later. *)
Definition handleInputConfirm (svg : SVGItem) (type : Dimension) (value : number)
           (prev : CustomSize) : CustomSize :=
  if negb (truthy value) || lt value (of_Z 1) then prev
  else
    match type with
    | WidthInput =>
        {| custom_width := value;
           custom_height :=
             if keepRatio prev then Math_round (div value (aspectRatio svg))
             else custom_height prev;
           keepRatio := keepRatio prev |}
    | HeightInput =>
        {| custom_width :=
             if keepRatio prev then Math_round (mul value (aspectRatio svg))
             else custom_width prev;
           custom_height := value;
           keepRatio := keepRatio prev |}
    end.

End CustomSizeInputs.

(** *** More of the panel: effects, inputs, selects, views, listeners *)

(** The calls of [chrome.downloads.download] among the effects. *)
Definition is_download (e : Effect) : bool :=
  match e with
  | Download _ _ _ => true
  | _ => false
  end.

(** The updates of [downloadStatus] among the effects. *)
Definition is_status (e : Effect) : bool :=
  match e with
  | SetDownloadStatus _ _ _ => true
  | _ => false
  end.

(** [tempInput] *)
Record TempInput : Type := {
  temp_width : number;
  temp_height : number
}.

(** [handleInputChange(type, value)]; [None] is [undefined]. *)
Definition handleInputChange (type : Dimension) (value : option number)
           (prev : TempInput) : TempInput :=
  match value with
  | None => prev
  | Some value =>
      let newValue := Math_max (of_Z 1) (Math_min (of_Z 9999) value) in
      match type with
      | WidthInput => {| temp_width := newValue; temp_height := temp_height prev |}
      | HeightInput => {| temp_width := temp_width prev; temp_height := newValue |}
      end
  end.

(** The field of [tempInput] that [handleInputConfirm(type)] reads. *)
Definition temp_value (type : Dimension) (tempInput : TempInput) : number :=
  match type with
  | WidthInput => temp_width tempInput
  | HeightInput => temp_height tempInput
  end.

Section CustomSizeInputsMore.
Context {host : Engine}.

(** The [onClick] of the button that locks the ratio. *)
Definition toggleKeepRatio (svg : SVGItem) (prev : CustomSize) : CustomSize :=
  {| custom_width := custom_width prev;
     custom_height :=
       if negb (keepRatio prev)
       then Math_round (div (custom_width prev) (aspectRatio svg))
       else custom_height prev;
     keepRatio := negb (keepRatio prev) |}.

End CustomSizeInputsMore.

(** [updateGlobalSize(size)]: the next [customSizes]. *)
Definition updateGlobalSize (svg : SVGItem) (size : CustomSize)
           (prev : gmap nat CustomSize) : gmap nat CustomSize :=
  <[ id svg := size ]> prev.

(** The [value] of the [select] of an item:
    [selectedSizes[svg.id]?.label || '16x16']. *)
Definition select_value (selectedSizes : gmap nat PresetSize) (svg : SVGItem) : string :=
  match selectedSizes !! id svg with
  | Some size =>
      match label size with
      | EmptyString => "16x16"%string
      | l => l
      end
  | None => "16x16"%string
  end.

(** The [onChange] of the [select] with [e.target.value]: the next
    [selectedSizes]. *)
Definition select_onChange (svg : SVGItem) (value : string)
           (prev : gmap nat PresetSize) : gmap nat PresetSize :=
  match List.find (fun s => String.eqb (label s) value) PRESET_SIZES with
  | Some size => <[ id svg := size ]> prev
  | None => prev
  end.

(** The size that [handleDownload] works with:
    [selectedSizes[svg.id] || PRESET_SIZES[0]]. *)
Definition selected_size (selectedSizes : gmap nat PresetSize) (svg : SVGItem)
  : PresetSize :=
  default PRESET_0 (selectedSizes !! id svg).

(** What the panel renders of the scan: the spinner, the error box, the
    notice of the empty page, the rows. *)
Definition shows_spinner (st : PanelState) : bool := isScanning st.

Definition shows_error (st : PanelState) : bool :=
  match scanError st with
  | Some (String _ _) => true
  | _ => false
  end.

Definition shows_empty (st : PanelState) : bool :=
  negb (isScanning st) && (List.length (svgItems st) =? 0)%nat
  && negb (shows_error st).

Definition shows_rows (st : PanelState) : bool :=
  negb (List.length (svgItems st) =? 0)%nat.

(** [currentTabId !== activeInfo.tabId] *)
Definition tab_differs (currentTabId : option Z) (tabId : Z) : bool :=
  match currentTabId with
  | Some current => negb (current =? tabId)
  | None => true
  end.

(** [handleTabChange(activeInfo)]: whether it scans, and the state
    afterwards. *)
Definition handleTabChange (answers : ScanAnswers) (tabId : Z) (st : PanelState)
  : bool * PanelState :=
  if tab_differs (currentTabId st) tabId
  then (true, snd (scanSVGs answers st))
  else (false, st).

(** [handleTabUpdate(tabId, changeInfo, tab)] with [changeInfo.status]. *)
Definition handleTabUpdate (answers : ScanAnswers) (tabId : Z)
           (status : option jsstring) (st : PanelState) : bool * PanelState :=
  if match status with
     | Some s => str_eqb s (str "complete")
     | None => false
     end
     && negb (tab_differs (currentTabId st) tabId)
  then (true, snd (scanSVGs answers st))
  else (false, st).

(** The events of [k] attempts that reject, from the index [i] on, each
    with the wait that follows it. *)
Fixpoint failed_attempts (i : Z) (k : nat) : list RetryEvent :=
  match k with
  | O => []
  | S k' => Attempt i :: Wait (1000 * (i + 1)) :: failed_attempts (i + 1) k'
  end.

(** The milliseconds waited. *)
Definition waited (events : list RetryEvent) : Z :=
  fold_right (fun e acc => match e with Wait ms => ms + acc | Attempt _ => acc end)
             0 events.

Section RetryWorlds.
Variable World : Type.
Variable fn : World -> Result unit * World.

(** The world after [k] calls of [fn]. *)
Fixpoint world_after (k : nat) (w : World) : World :=
  match k with
  | O => w
  | S k' => world_after k' (snd (fn w))
  end.

(** The first [k] calls of [fn] reject. *)
Fixpoint rejects (k : nat) (w : World) : Prop :=
  match k with
  | O => True
  | S k' => (exists message, fst (fn w) = Reject message) /\ rejects k' (snd (fn w))
  end.

End RetryWorlds.

End SidePanel.

(** ** Timers: [throttle] of content.ts and [debounce] of sidepanel.tsx *)

Module Timers.

(** The pending timeouts in the order they were set, each with its id, the
    time it is due and what its callback carries; ids are positive, so a
    stored id is truthy. *)
Record Queue (A : Type) : Type := {
  pending : list (positive * Z * A);
  next_id : positive
}.

Arguments pending {A} q.
Arguments next_id {A} q.

(** No timeout is pending. *)
Definition no_timers {A : Type} : Queue A :=
  {| pending := []; next_id := 1%positive |}.

(** [setTimeout(callback, delay)] at the time [now]: the id it returns and
    the queue afterwards.  A negative delay counts as zero. *)
Definition setTimeout {A : Type} (now delay : Z) (callback : A) (q : Queue A)
  : positive * Queue A :=
  (next_id q,
   {| pending := pending q ++ [(next_id q, now + Z.max 0 delay, callback)];
      next_id := Pos.succ (next_id q) |}).

(** [clearTimeout(id)] *)
Definition clearTimeout {A : Type} (id : positive) (q : Queue A) : Queue A :=
  {| pending := List.filter (fun x => negb (Pos.eqb (fst (fst x)) id)) (pending q);
     next_id := next_id q |}.

Definition is_due {A : Type} (t : Z) (x : positive * Z * A) : bool :=
  snd (fst x) <=? t.

(** The callbacks that the event loop runs at the time [t]. *)
Definition due {A : Type} (t : Z) (q : Queue A) : list (positive * Z * A) :=
  List.filter (is_due t) (pending q).

(** The queue after they ran. *)
Definition after {A : Type} (t : Z) (q : Queue A) : Queue A :=
  {| pending := List.filter (fun x => negb (is_due t x)) (pending q);
     next_id := next_id q |}.

(** What the event loop does next: a call of the wrapped function with its
    arguments, or the timers that are due. *)
Inductive Task (A : Type) : Type :=
| Call (t : Z) (args : A)
| RunTimers (t : Z).

Arguments Call {A} t args.
Arguments RunTimers {A} t.

Definition task_time {A : Type} (task : Task A) : Z :=
  match task with
  | Call t _ => t
  | RunTimers t => t
  end.

(** The calls among the tasks, each with its time. *)
Definition calls_of {A : Type} (tasks : list (Task A)) : list (Z * A) :=
  flat_map (fun task => match task with
                        | Call t args => [(t, args)]
                        | RunTimers _ => []
                        end) tasks.

(** The times do not go back. *)
Fixpoint in_order (times : list Z) : Prop :=
  match times with
  | [] => True
  | t :: rest => List.Forall (Z.le t) rest /\ in_order rest
  end.

(** A state machine run over a list of inputs, the outputs collected. *)
Fixpoint run {S E O : Type} (step : S -> E -> list O * S) (st : S) (inputs : list E)
  : list O * S :=
  match inputs with
  | [] => ([], st)
  | e :: rest =>
      let '(out, st') := step st e in
      let '(outs, st'') := run step st' rest in
      (out ++ outs, st'')
  end.

End Timers.

(** *** [throttle] *)

Module Throttle.
Import Timers.

(** The variable of the closure and the timeouts it has set. *)
Record State : Type := {
  inThrottle : bool;
  timers : Queue unit
}.

(** [let inThrottle: boolean] is [undefined] at first, which is falsy. *)
Definition initial : State := {| inThrottle := false; timers := Timers.no_timers |}.

Section Throttle.
Variable A : Type.

(** One task on the function that [throttle(func, limit)] returns: the
    calls of [func] it makes, each with the time and the arguments, and the
    state afterwards.  [func] returns without calling the throttled
    function. *)
Definition step (limit : Z) (st : State) (task : Task A) : list (Z * A) * State :=
  match task with
  | Call t args =>
      if inThrottle st then ([], st)
      else ([(t, args)],
            {| inThrottle := true;
               timers := snd (setTimeout t limit tt (timers st)) |})
  | RunTimers t =>
      ([], {| inThrottle := match due t (timers st) with
                            | [] => inThrottle st
                            | _ :: _ => false
                            end;
              timers := after t (timers st) |})
  end.

(** [throttle(func, limit)] over the tasks: the calls of [func]. *)
Definition throttle (limit : Z) (tasks : list (Task A)) : list (Z * A) :=
  fst (run (step limit) initial tasks).

End Throttle.
End Throttle.

(** *** [debounce] *)

Module Debounce.
Import Timers.

Record State (A : Type) : Type := {
  timeout : option positive;
  timers : Queue A
}.

Arguments timeout {A} s.
Arguments timers {A} s.

Definition initial {A : Type} : State A := {| timeout := None; timers := Timers.no_timers |}.

Section Debounce.
Variable A : Type.

(** One task on the function that [debounce(func, wait)] returns: the calls
    of [func] it makes and the state afterwards.  A timer that runs calls
    [func] with the arguments of the call that set it and resets
    [timeout]. *)
Definition step (wait : Z) (st : State A) (task : Task A) : list (Z * A) * State A :=
  match task with
  | Call t args =>
      let q := match timeout st with
               | Some id => clearTimeout id (timers st)
               | None => timers st
               end in
      let '(id, q') := setTimeout t wait args q in
      ([], {| timeout := Some id; timers := q' |})
  | RunTimers t =>
      (List.map (fun x => (t, snd x)) (due t (timers st)),
       {| timeout := match due t (timers st) with
                     | [] => timeout st
                     | _ :: _ => None
                     end;
          timers := after t (timers st) |})
  end.

(** [debounce(func, wait)] over the tasks: the calls of [func]. *)
Definition debounce (wait : Z) (tasks : list (Task A)) : list (Z * A) :=
  fst (run (step wait) initial tasks).

End Debounce.
End Debounce.

(** *** The effect that stores the custom size *)

Module SizeSync.
Import Content SidePanel Timers.

(** [a !== b] on numbers. *)
Definition strict_neq (a b : number) : bool :=
  match a, b with
  | NaN, _ | _, NaN => true
  | Inf s, Inf t => negb (Bool.eqb s t)
  | Num x, Num y => negb (Qeq_bool x y)
  | _, _ => true
  end.

(** [hasChanged] *)
Definition hasChanged (prev localSize : CustomSize) : bool :=
  strict_neq (custom_width prev) (custom_width localSize)
  || strict_neq (custom_height prev) (custom_height localSize)
  || negb (Bool.eqb (keepRatio prev) (keepRatio localSize)).

(** [prevSizeRef.current], the timeouts the effect has set, the timeout
    that the cleanup of its last run clears, and [customSizes]. *)
Record State : Type := {
  prevSizeRef : option CustomSize;
  timers : Queue CustomSize;
  cleanup : option positive;
  customSizes : gmap nat CustomSize
}.

(** A mounted [CustomSizeInputs] before its effect has run. *)
Definition mounted (customSizes : gmap nat CustomSize) : State :=
  {| prevSizeRef := None; timers := no_timers; cleanup := None;
     customSizes := customSizes |}.

(** The [localSize] a [CustomSizeInputs] mounts with. *)
Definition mount_size (customSizes : gmap nat CustomSize) (svg : SVGItem)
  : CustomSize :=
  default (initial_localSize svg) (customSizes !! id svg).

(** What happens to the component: its effect runs for a new [localSize]
    (after the cleanup of the run before), or the timers that are due
    run. *)
Inductive Event : Type :=
| EffectRuns (t : Z) (localSize : CustomSize)
| TimersRun (t : Z).

(** The callback of a timeout: [updateGlobalSize(localSize)] and
    [prevSizeRef.current = localSize]. *)
Definition store (svg : SVGItem) (st : State) (x : positive * Z * CustomSize) : State :=
  {| prevSizeRef := Some (snd x);
     timers := timers st;
     cleanup := cleanup st;
     customSizes := updateGlobalSize svg (snd x) (customSizes st) |}.

Definition step (svg : SVGItem) (st : State) (e : Event) : State :=
  match e with
  | EffectRuns t localSize =>
      let q := match cleanup st with
               | Some id => clearTimeout id (timers st)
               | None => timers st
               end in
      match prevSizeRef st with
      | None =>
          {| prevSizeRef := Some localSize; timers := q; cleanup := None;
             customSizes := customSizes st |}
      | Some prev =>
          if hasChanged prev localSize then
            let '(timeoutId, q') := setTimeout t 300 localSize q in
            {| prevSizeRef := Some prev; timers := q'; cleanup := Some timeoutId;
               customSizes := customSizes st |}
          else
            {| prevSizeRef := Some prev; timers := q; cleanup := None;
               customSizes := customSizes st |}
      end
  | TimersRun t =>
      let st' := fold_left (store svg) (due t (timers st)) st in
      {| prevSizeRef := prevSizeRef st';
         timers := after t (timers st);
         cleanup := cleanup st';
         customSizes := customSizes st' |}
  end.

(** The component over the events, from its mount on. *)
Definition run (svg : SVGItem) (events : list Event) (st : State) : State :=
  fold_left (step svg) events st.

End SizeSync.

(** *** What the proofs about the timers keep track of *)

(** At most one timeout of [debounce] is pending, and [timeout] holds its
    id. *)
Definition debounce_shape {A : Type} (st : Debounce.State A)
           (p : option (positive * Z * A)) : Prop :=
  Debounce.timeout st = option_map (fun x => fst (fst x)) p
  /\ Timers.pending (Debounce.timers st) = match p with Some x => [x] | None => [] end.

Definition is_call {A : Type} (task : Timers.Task A) : bool :=
  match task with Timers.Call _ _ => true | Timers.RunTimers _ => false end.

(** At most one timeout of [throttle] is pending, and it is pending
    exactly while [inThrottle] is set. *)
Definition throttle_shape (st : Throttle.State) (p : option (positive * Z * unit)) : Prop :=
  Throttle.inThrottle st = match p with Some _ => true | None => false end
  /\ Timers.pending (Throttle.timers st) = match p with Some x => [x] | None => [] end.

(** Each call is at least [gap] later than the calls before it. *)
Fixpoint spaced {A : Type} (gap : Z) (calls : list (Z * A)) : Prop :=
  match calls with
  | [] => True
  | x :: rest => List.Forall (fun y => fst x + gap <= fst y) rest /\ spaced gap rest
  end.

(** The timeout of the effect that is pending, if one is; the cleanup
    holds its id. *)
Definition sync_shape (st : SizeSync.State) (p : option (positive * Z * SidePanel.CustomSize)) : Prop :=
  Timers.pending (SizeSync.timers st) = match p with Some x => [x] | None => [] end
  /\ match p with
     | Some x => SizeSync.cleanup st = Some (fst (fst x))
     | None => True
     end.

(** The event is a run of the effect. *)
Definition is_effect (e : SizeSync.Event) : bool :=
  match e with
  | SizeSync.EffectRuns _ _ => true
  | SizeSync.TimersRun _ => false
  end.

(** ** Doubles *)

(** The rounding that a JavaScript engine applies to the exact result of
    an operation: IEEE 754 binary64, to nearest, ties to even. *)

Module Binary64.

(** The whole number nearest to [n / d], the even one of two that are
    equally near. *)
Definition nearest_even (n d : Z) : Z :=
  let f := n / d in
  match 2 * (n mod d) ?= d with
  | Lt => f
  | Gt => f + 1
  | Eq => if Z.even f then f else f + 1
  end.

(** The exponent [k] with [2^k <= n / d < 2^(k+1)]. *)
Definition exponent (n d : Z) : Z :=
  let k := Z.log2 n - Z.log2 d in
  if n * 2 ^ Z.max 0 (- k) <? d * 2 ^ Z.max 0 k then k - 1 else k.

(** The exponent of the last place of the double nearest to [n / d]: 53
    bits, and no place below [2^-1074]. *)
Definition last_place (n d : Z) : Z := Z.max (exponent n d - 52) (-1074).

(** Rounding to the nearest double, ties to even; a result of [2^1024] or
    more is an infinity. *)
Definition round (q : Q) : number :=
  let n := Z.abs (Qnum q) in
  let d := Zpos (Qden q) in
  if n =? 0 then Num 0
  else
    let e := last_place n d in
    let m := nearest_even (n * 2 ^ Z.max 0 (- e)) (d * 2 ^ Z.max 0 e) in
    if 2 ^ 1024 <=? m * 2 ^ Z.max 0 e then Inf (Qnum q <? 0)
    else Num (Qred (Z.sgn (Qnum q) * m * 2 ^ Z.max 0 e # Z.to_pos (2 ^ Z.max 0 (- e)))).

(** Half the distance from 1 to the next double, and half the smallest
    double. *)
Definition unit_roundoff : Q := 1 # Z.to_pos (2 ^ 53).
Definition half_least : Q := 1 # Z.to_pos (2 ^ 1075).

End Binary64.

(** ** An engine to run the definitions on examples *)

Module Example.

(** The decimal digits of a natural number, most significant first;
    [fuel] bounds the number of digits. *)
Fixpoint digits_from (fuel : nat) (n : N) (acc : jsstring) : jsstring :=
  match fuel with
  | O => acc
  | S fuel' =>
      let acc' := (48 + n mod 10)%N :: acc in
      if (n / 10 =? 0)%N then acc' else digits_from fuel' (n / 10)%N acc'
  end.

Definition digits (n : N) : jsstring := digits_from (S (N.to_nat (N.log2 n))) n [].

(** The digits of [num / den] after the point, for [0 <= num < den]. *)
Fixpoint fraction (fuel : nat) (num : Z) (den : positive) : jsstring :=
  match fuel with
  | O => []
  | S fuel' =>
      if num =? 0 then []
      else
        let d := (10 * num) / Zpos den in
        (48 + Z.to_N d)%N :: fraction fuel' (10 * num - d * Zpos den) den
  end.

(** [Number.prototype.toString] for the values the examples print:
    integers, and decimals with at most twenty digits after the point. *)
Definition toString (n : number) : jsstring :=
  match n with
  | NaN => str "NaN"
  | Inf false => str "Infinity"
  | Inf true => str "-Infinity"
  | Num q =>
      let n := Z.abs (Qnum q) in
      let whole := n / Zpos (Qden q) in
      let part := n mod Zpos (Qden q) in
      (if Qnum q <? 0 then str "-" else [])
      ++ digits (Z.to_N whole)
      ++ (if part =? 0 then [] else str "." ++ fraction 20 part (Qden q))
  end.

(** Arithmetic on doubles; a parser that answers with the document element
    [root]; a serializer that writes the attribute values one after the
    other; images that always load, [w] by [h]; downloads that succeed. *)
Definition engine (root : option XMLElement) (w h : Z) : Engine :=
  {| fl := Binary64.round;
     Number_toString := toString;
     parseFromString := fun _ => root;
     serializeToString :=
       fun e => xml_name e ++ flat_map (fun kv => 32%N :: fst kv ++ 61%N :: snd kv)
                                       (xml_attributes e)
                ++ xml_rest e;
     loadImage :=
       fun src => Some {| img_src := src; img_width := of_Z w; img_height := of_Z h |};
     getContext2d := true;
     toDataURL :=
       fun c => str "data:image/png;base64,"
                ++ base64 (toString (canvas_width c) ++ 120%N :: toString (canvas_height c));
     downloads_download := fun _ _ => None;
     createObjectURL := fun _ => str "blob:archive" |}.

(** A document element as a page would have it. *)
Definition icon_root : XMLElement :=
  {| xml_name := str "svg";
     xml_attributes := [(str "viewBox", str "0 0 24 24"); (str "width", str "24");
                        (str "fill", str "none")];
     xml_rest := str "<path/>" |}.

End Example.

(** ** The inputs of the worked instances *)

Module Instances.

Import Content SidePanel.

(** An engine whose parser answers with [Example.icon_root] and whose
    images are 24 by 24. *)
Definition icon_engine : Engine := Example.engine (Some Example.icon_root) 24 24.



(** An engine whose images are 200 by 100. *)
Definition wide_engine : Engine := Example.engine None 200 100.

Definition plain_url : jsstring :=
  Eval vm_compute in
    match Offscreen.svgToBase64 (str "<svg/>") with
    | Some u => u
    | None => []
    end.

Definition wide_image : Image :=
  {| img_src := plain_url; img_width := of_Z 200; img_height := of_Z 100 |}.

(** A discovered item with the given dimensions. *)
Definition item (n : nat) (w h : Z) : SVGItem :=
  {| id := n;
     item_outerHTML := str "<svg/>";
     dimensions := {| width := of_Z w; height := of_Z h |} |}.

(** An [svg] element without children, shadow root or frame. *)
Definition svg_element (n : nat) (attrs : list (jsstring * jsstring))
           (style_w style_h : jsstring) (box : option (number * number))
           (client_w client_h : Z) : Element :=
  Node {| uid := n; localName := str "svg";
          instanceof_Element := true; instanceof_SVGElement := true;
          attributes := attrs;
          style_width := style_w; style_height := style_h;
          bbox := box;
          clientWidth := client_w; clientHeight := client_h;
          outerHTML := str "<svg/>" |}
       [] None None.

(** An element that is no [svg], with the given children, shadow tree and
    framed document. *)
Definition element (n : nat) (name : string)
           (cs : list Element) (sr fr : option (list Element)) : Element :=
  Node {| uid := n; localName := str name;
          instanceof_Element := true; instanceof_SVGElement := false;
          attributes := [];
          style_width := str "auto"; style_height := str "auto";
          bbox := None;
          clientWidth := 0; clientHeight := 0;
          outerHTML := [] |}
       cs sr fr.

Definition plain_svg (n : nat) : Element :=
  svg_element n [] (str "24px") (str "24px") (Some (of_Z 24, of_Z 24)) 24 24.

(** The same [svg] as an element of a frame's document: it belongs to the
    realm of the frame. *)
Definition framed_svg (n : nat) : Element :=
  Node {| uid := n; localName := str "svg";
          instanceof_Element := false; instanceof_SVGElement := false;
          attributes := [];
          style_width := str "24px"; style_height := str "24px";
          bbox := Some (of_Z 24, of_Z 24);
          clientWidth := 24; clientHeight := 24;
          outerHTML := str "<svg/>" |}
       [] None None.

(** A page with an [svg] in the document, one three shadow roots deep, and
    one in the document of a same-origin frame. *)
Definition deep_page : Root :=
  [ plain_svg 0;
    element 1 "div" []
      (Some [ element 2 "div" []
                (Some [ element 3 "div" [] (Some [ plain_svg 4 ]) None ])
                None ])
      None;
    element 5 "iframe" [] None (Some [ framed_svg 6 ]) ].

(** What each node of that page reads as. *)
Definition deep_page_live (u : nat) : ElementData :=
  match List.find (fun e => Nat.eqb (uid (data e)) u) (flat_map page_elements deep_page) with
  | Some e => data e
  | None => data (plain_svg u)
  end.

(** [<svg viewBox="0 0 10 20">], laid out 300 by 150. *)
Definition viewBox_only : Element :=
  svg_element 0 [(str "viewBox", str "0 0 10 20")]
              (str "300px") (str "150px") (Some (of_Z 10, of_Z 20)) 300 150.

(** An element that no source says anything about, with a client box of
    24 by 24. *)
Definition bare : Element := svg_element 0 [] [] [] None 24 24.

(** [<svg width="auto" height="auto" viewBox="0 0 10 20">], laid out 300
    by 150. *)
Definition auto_sized : Element :=
  svg_element 0 [(str "width", str "auto"); (str "height", str "auto");
                 (str "viewBox", str "0 0 10 20")]
              (str "300px") (str "150px") (Some (of_Z 10, of_Z 20)) 300 150.



(** An item whose two dimensions overflowed to [Infinity] in [parseSize]. *)
Definition overflowed_item : SVGItem :=
  {| id := 0;
     item_outerHTML := str "<svg/>";
     dimensions := {| width := Inf false; height := Inf false |} |}.

Definition custom_preset : PresetSize :=
  {| preset_width := -2; preset_height := -2; label := "自定义尺寸" |}.

(** A custom size of 0 by 50. *)
Definition zero_by_fifty : CustomSize :=
  {| custom_width := of_Z 0; custom_height := of_Z 50; keepRatio := false |}.

(** A custom size with the ratio locked. *)
Definition locked (w h : Z) : CustomSize :=
  {| custom_width := of_Z w; custom_height := of_Z h; keepRatio := true |}.

(** The panel before its first scan. *)
Definition initial_panel : PanelState :=
  {| svgItems := []; isScanning := true; scanError := None; currentTabId := None |}.

(** A browser whose active tab has the id [tabId] and answers with
    [svgData]. *)
Definition active_tab (tabId : Z) (svgData : option (list SVGItem)) : ScanAnswers :=
  {| tabs_query := Resolve [ {| tab_id := Some tabId |} ];
     tabs_sendMessage := fun _ => Resolve svgData |}.

(** The preset of the original size. *)
Definition original_preset : PresetSize :=
  {| preset_width := 0; preset_height := 0; label := "原始尺寸" |}.

(** An engine whose images are 49 by 49. *)
Definition square_engine : Engine := Example.engine None 49 49.

Definition square_image : Image :=
  {| img_src := plain_url; img_width := of_Z 49; img_height := of_Z 49 |}.

(** An engine whose images decode with no width and no height. *)
Definition empty_engine : Engine := Example.engine None 0 0.

(** What that engine decodes the plain markup to. *)
Definition empty_image : Image :=
  {| img_src := plain_url; img_width := of_Z 0; img_height := of_Z 0 |}.

(** Markup that declares the namespace. *)
Definition declared : jsstring :=
  str "<svg" ++ xmlns_declaration ++ str " width='1'/>".

End Instances.

(* ================================================================== *)
(** * Part II: properties                                              *)
(* ================================================================== *)

Import Content SidePanel.

(** ** Strings and attribute lists *)

Lemma str_eqb_eq (a b : jsstring) : str_eqb a b = true <-> a = b.
Proof.
  revert b; induction a as [|x a IH]; intros [|y b]; simpl; split;
    try congruence; try reflexivity.
  - intros E. apply andb_prop in E as [E1 E2].
    apply N.eqb_eq in E1. apply IH in E2. congruence.
  - intros E. injection E as -> ->. unfold code_eqb. rewrite N.eqb_refl.
    simpl. now apply IH.
Qed.

Lemma str_eqb_refl (a : jsstring) : str_eqb a a = true.
Proof. now apply str_eqb_eq. Qed.

Lemma str_eqb_neq (a b : jsstring) : a <> b -> str_eqb a b = false.
Proof.
  intros N. destruct (str_eqb a b) eqn:E; [|reflexivity].
  apply str_eqb_eq in E. contradiction.
Qed.

Lemma lookup_set_attribute_same name value l :
  lookup_attribute name (set_attribute name value l) = Some value.
Proof.
  induction l as [|[k v] t IH]; simpl.
  - now rewrite str_eqb_refl.
  - destruct (str_eqb k name) eqn:E; simpl; rewrite E; [reflexivity|exact IH].
Qed.

Lemma lookup_set_attribute_other name other value l :
  name <> other ->
  lookup_attribute other (set_attribute name value l) = lookup_attribute other l.
Proof.
  intros N. induction l as [|[k v] t IH]; simpl.
  - now rewrite (str_eqb_neq _ _ N).
  - destruct (str_eqb k name) eqn:E; simpl.
    + apply str_eqb_eq in E. subst k. now rewrite (str_eqb_neq _ _ N).
    + now rewrite IH.
Qed.

(** Setting an attribute keeps the names, or adds the new one at the end. *)
Lemma set_attribute_names name value l :
  List.map fst (set_attribute name value l) = List.map fst l
  \/ (~ In name (List.map fst l)
      /\ List.map fst (set_attribute name value l) = List.map fst l ++ [name]).
Proof.
  induction l as [|[k v] t IH]; simpl.
  - right. split; [tauto|reflexivity].
  - destruct (str_eqb k name) eqn:E; simpl.
    + now left.
    + destruct IH as [IH|[IH1 IH2]].
      * left. now rewrite IH.
      * right. split; [|now rewrite IH2].
        intros [->|I]; [|tauto]. now rewrite str_eqb_refl in E.
Qed.

Lemma set_attribute_NoDup name value l :
  List.NoDup (List.map fst l) ->
  List.NoDup (List.map fst (set_attribute name value l)).
Proof.
  intros ND. destruct (set_attribute_names name value l) as [E|[NI E]]; rewrite E.
  - exact ND.
  - apply List.NoDup_app; [exact ND|repeat constructor; simpl; tauto|].
    intros x I [<-|[]]. contradiction.
Qed.

(** With distinct names, an entry is the one [getAttribute] returns. *)
Lemma NoDup_lookup_attribute k v l :
  List.NoDup (List.map fst l) -> In (k, v) l -> lookup_attribute k l = Some v.
Proof.
  induction l as [|[k' v'] t IH]; simpl; [tauto|].
  intros ND [E|I].
  - injection E as -> ->. now rewrite str_eqb_refl.
  - inversion ND as [|? ? NI ND']; subst.
    destruct (str_eqb k' k) eqn:E.
    + apply str_eqb_eq in E. subst k'. exfalso. apply NI.
      change k with (fst (k, v)). now apply in_map.
    + now apply IH.
Qed.

(** ** The panel's rasterizer *)

Section Rasterizer.
Context {host : Engine}.

Lemma width_height_distinct :
  str "width" <> str "height" /\ str "width" <> str "viewBox"
  /\ str "height" <> str "viewBox".
Proof. repeat split; discriminate. Qed.

(** What [getAttribute] returns after the three [setAttribute] calls. *)
Lemma set_viewport_lookup (root : XMLElement) (w h : number) :
  xml_getAttribute (set_viewport root w h) (str "width") = Some (Number_toString w)
  /\ xml_getAttribute (set_viewport root w h) (str "height") = Some (Number_toString h)
  /\ xml_getAttribute (set_viewport root w h) (str "viewBox")
     = Some (viewBox_value w h).
Proof.
  destruct width_height_distinct as (WH & WV & HV).
  unfold set_viewport, xml_getAttribute, setAttribute; simpl. repeat split.
  - rewrite lookup_set_attribute_other by congruence.
    rewrite lookup_set_attribute_other by congruence.
    apply lookup_set_attribute_same.
  - rewrite lookup_set_attribute_other by congruence.
    apply lookup_set_attribute_same.
  - apply lookup_set_attribute_same.
Qed.

Lemma set_viewport_other (root : XMLElement) (w h : number) (name : jsstring) :
  name <> str "width" -> name <> str "height" -> name <> str "viewBox" ->
  xml_getAttribute (set_viewport root w h) name = xml_getAttribute root name.
Proof.
  intros N1 N2 N3. unfold set_viewport, xml_getAttribute, setAttribute; simpl.
  now rewrite !lookup_set_attribute_other by congruence.
Qed.

Lemma set_viewport_NoDup (root : XMLElement) (w h : number) :
  List.NoDup (List.map fst (xml_attributes root)) ->
  List.NoDup (List.map fst (xml_attributes (set_viewport root w h))).
Proof.
  intros ND. unfold set_viewport, setAttribute; simpl.
  now repeat apply set_attribute_NoDup.
Qed.

(** [svgToDataUrl] once the markup has parsed. *)
Lemma svgToDataUrl_parsed (svgString : jsstring) (w h : number) (root : XMLElement) :
  parseFromString (cleanSvgString svgString) = Some root ->
  svgToDataUrl svgString w h =
  match encode_data_url (serializeToString (set_viewport root w h)) with
  | None => Reject "SVG 处理失败"
  | Some dataUrl =>
      match loadImage dataUrl with
      | None => Reject "SVG 图片加载失败"
      | Some img =>
          if getContext2d then
            Resolve (toDataURL {| canvas_width := w; canvas_height := h;
                                  canvas_ops := SidePanel.draw img w h |})
          else Reject "无法创建 canvas context"
      end
  end.
Proof. intros P. unfold svgToDataUrl. now rewrite P. Qed.


(** C10.  Once the cleaned markup has parsed, the element that is
    serialized and encoded has [width], [height] and [viewBox] set to the
    target width, the target height and ["0 0 W H"]; its other attributes
    are those of the parsed element; with attribute names distinct, as a
    parsed element has them, no other entry of these three names is left;
    and the data URL handed to the image is the encoding of that element's
    serialization. *)
Theorem C10_viewport_overwritten
        (svgString : jsstring) (w h : number) (root : XMLElement) :
  parseFromString (cleanSvgString svgString) = Some root ->
  let svgElement := set_viewport root w h in
  xml_getAttribute svgElement (str "width") = Some (Number_toString w)
  /\ xml_getAttribute svgElement (str "height") = Some (Number_toString h)
  /\ xml_getAttribute svgElement (str "viewBox")
     = Some (str "0 0 " ++ Number_toString w ++ str " " ++ Number_toString h)
  /\ (forall name,
         name <> str "width" -> name <> str "height" -> name <> str "viewBox" ->
         xml_getAttribute svgElement name = xml_getAttribute root name)
  /\ (List.NoDup (List.map fst (xml_attributes root)) ->
      forall name value,
        In (name, value) (xml_attributes svgElement) ->
        (name = str "width" -> value = Number_toString w)
        /\ (name = str "height" -> value = Number_toString h)
        /\ (name = str "viewBox" -> value = viewBox_value w h))
  /\ svgToDataUrl svgString w h =
     match encode_data_url (serializeToString svgElement) with
     | None => Reject "SVG 处理失败"
     | Some dataUrl =>
         match loadImage dataUrl with
         | None => Reject "SVG 图片加载失败"
         | Some img =>
             if getContext2d then
               Resolve (toDataURL {| canvas_width := w; canvas_height := h;
                                     canvas_ops := SidePanel.draw img w h |})
             else Reject "无法创建 canvas context"
         end
     end.
Proof.
  intros P svgElement.
  destruct (set_viewport_lookup root w h) as (LW & LH & LV).
  split; [exact LW|]. split; [exact LH|]. split; [exact LV|].
  split; [intros; now apply set_viewport_other|].
  split; [|now apply svgToDataUrl_parsed].
  intros ND name value I.
  pose proof (NoDup_lookup_attribute _ _ _ (set_viewport_NoDup root w h ND) I) as L.
  fold (xml_getAttribute (set_viewport root w h) name) in L.
  repeat split; intros ->; congruence.
Qed.

End Rasterizer.

(** ** The scanner's cache *)

(** C8.  After a call that traversed the page at time [t0], a call less
    than [CACHE_DURATION] milliseconds later returns the list of that
    traversal and leaves the cache as it is, whatever the page has become;
    a call at [t0 + CACHE_DURATION] or later traverses the page it is given
    and replaces the list and the time. *)
Theorem C8_scan_cache_window
        (document0 document1 : Root) (t0 t1 : Z) (c0 : Cache) :
  cachedElements c0 = None \/ CACHE_DURATION <= t0 - lastScanTime c0 ->
  let first := fst (scanSVGElements document0 t0 c0) in
  let c1 := snd (scanSVGElements document0 t0 c0) in
  first = traverse document0
  /\ c1 = {| cachedElements := Some (traverse document0); lastScanTime := t0 |}
  /\ (t1 - t0 < CACHE_DURATION ->
      scanSVGElements document1 t1 c1 = (first, c1))
  /\ (CACHE_DURATION <= t1 - t0 ->
      scanSVGElements document1 t1 c1 =
      (traverse document1,
       {| cachedElements := Some (traverse document1); lastScanTime := t1 |})).
Proof.
  intros Miss first c1.
  assert (E : scanSVGElements document0 t0 c0 =
              (traverse document0,
               {| cachedElements := Some (traverse document0);
                  lastScanTime := t0 |})).
  { unfold scanSVGElements. destruct Miss as [N|Old].
    - now rewrite N.
    - destruct (cachedElements c0); [|reflexivity].
      destruct (Z.ltb_spec (t0 - lastScanTime c0) CACHE_DURATION); [lia|reflexivity]. }
  subst first c1. rewrite E. simpl. repeat split.
  - intros Within. unfold scanSVGElements; simpl.
    destruct (Z.ltb_spec (t1 - t0) CACHE_DURATION); [reflexivity|lia].
  - intros Expired. unfold scanSVGElements; simpl.
    destruct (Z.ltb_spec (t1 - t0) CACHE_DURATION); [lia|reflexivity].
Qed.



Lemma C10_witness :
  parseFromString (Engine := Instances.icon_engine) (cleanSvgString (str "<svg/>"))
  = Some Example.icon_root
  /\ xml_getAttribute
       (set_viewport (host := Instances.icon_engine) Example.icon_root (of_Z 16) (of_Z 32))
       (str "viewBox")
     = Some (str "0 0 16 32")
  /\ xml_getAttribute
       (set_viewport (host := Instances.icon_engine) Example.icon_root (of_Z 16) (of_Z 32))
       (str "fill")
     = Some (str "none").
Proof.
  split; [reflexivity|].
  pose proof (C10_viewport_overwritten (host := Instances.icon_engine)
                (str "<svg/>") (of_Z 16) (of_Z 32) Example.icon_root eq_refl) as T.
  cbv zeta in T. destruct T as (_ & _ & V & O & _).
  split.
  - exact V.
  - rewrite O by discriminate. reflexivity.
Defined.

Lemma C8_witness :
  (cachedElements initial_cache = None
   \/ CACHE_DURATION <= 5000 - lastScanTime initial_cache)
  /\ scanSVGElements [] 5400 (snd (scanSVGElements [] 5000 initial_cache))
     = (fst (scanSVGElements [] 5000 initial_cache),
        snd (scanSVGElements [] 5000 initial_cache))
  /\ scanSVGElements [] 6000 (snd (scanSVGElements [] 5000 initial_cache))
     = (traverse [], {| cachedElements := Some (traverse []); lastScanTime := 6000 |}).
Proof.
  split; [left; reflexivity|].
  pose proof (C8_scan_cache_window [] [] 5000 5400 initial_cache
                (or_introl eq_refl)) as T1.
  pose proof (C8_scan_cache_window [] [] 5000 6000 initial_cache
                (or_introl eq_refl)) as T2.
  cbv zeta in T1, T2.
  destruct T1 as (_ & _ & Hit & _). destruct T2 as (_ & _ & _ & Miss).
  split.
  - apply Hit. reflexivity.
  - apply Miss. discriminate.
Defined.

(** ** Retrying the scan *)

Lemma scanSVGs_resolves (answers : ScanAnswers) (st : PanelState) :
  fst (scanSVGs answers st) = Resolve tt.
Proof.
  unfold scanSVGs.
  now destruct (scan_queried (tabs_query answers) (scan_begins st)) as [[tabId|] st'].
Qed.

Lemma run_scanSVGs_resolves (w : PanelWorld) :
  run_scanSVGs w = (Resolve tt, snd (run_scanSVGs w)).
Proof.
  unfold run_scanSVGs.
  pose proof (scanSVGs_resolves (browser w (runs w)) (panel w)) as R.
  destruct (scanSVGs (browser w (runs w)) (panel w)) as [r st].
  simpl in *. now subst r.
Qed.

Section HandleDownload.
Context {host : Engine}.

Lemma rasterizations_download_one (svg : SVGItem) (w h : number) :
  rasterizations (download_one svg w h) = [CallSvgToDataUrl (item_outerHTML svg) w h].
Proof.
  unfold download_one, rasterizations. simpl. f_equal.
  destruct (svgToDataUrl (item_outerHTML svg) w h) as [u|m]; simpl; [|reflexivity].
  destruct (downloads_download u (png_filename (id svg) w h)); reflexivity.
Qed.

Lemma rasterizations_status (i : nat) (loading : bool) (e : option string)
      (effects : list Effect) :
  rasterizations (SetDownloadStatus i loading e :: effects) = rasterizations effects.
Proof. reflexivity. Qed.

(** A rasterization that rejects is not repeated. *)
Lemma download_one_rejected (svg : SVGItem) (w h : number) (message : string) :
  svgToDataUrl (item_outerHTML svg) w h = Reject message ->
  download_one svg w h =
  [CallSvgToDataUrl (item_outerHTML svg) w h;
   SetDownloadStatus (id svg) false (Some message)].
Proof. intros R. unfold download_one. now rewrite R. Qed.

End HandleDownload.

(** [retryOnError] around an operation that never rejects: one attempt. *)
Lemma retryOnError_resolving (World : Type) (fn : World -> Result unit * World)
      (w : World) :
  fst (fn w) = Resolve tt ->
  retryOnError World fn 3 w = ([Attempt 0], Resolve tt, snd (fn w)).
Proof.
  intros R. unfold retryOnError. simpl.
  destruct (fn w) as [r w']. cbn [fst snd] in *. now subst r.
Qed.

(** C9.  On panel open the operation that [retryOnError] wraps is
    [scanSVGs], which catches every error itself, shows it and resolves.
    So also when the scan fails, because [chrome.tabs.query] rejects,
    because there is no active tab, or because [chrome.tabs.sendMessage]
    rejects, the loop makes one attempt, waits for nothing and resolves:
    the failed scan is not attempted again.  With no other run of
    [scanSVGs] writing the state meanwhile, the panel is left with the
    error and no items. *)
Theorem C9_failed_scan_not_retried (w : PanelWorld) :
  onPanelOpen w = ([Attempt 0], Resolve tt, snd (run_scanSVGs w))
  /\ runs (snd (run_scanSVGs w)) = S (runs w)
  /\ (forall message : string,
         tabs_query (browser w (runs w)) = Reject message ->
         scanError (panel (snd (run_scanSVGs w))) = Some message
         /\ svgItems (panel (snd (run_scanSVGs w))) = [])
  /\ (forall tabs : list Tab,
         tabs_query (browser w (runs w)) = Resolve tabs ->
         active_tab_id tabs = None ->
         scanError (panel (snd (run_scanSVGs w))) = Some "无法获取当前标签页"%string
         /\ svgItems (panel (snd (run_scanSVGs w))) = [])
  /\ (forall (tabs : list Tab) (tabId : Z) (message : string),
         tabs_query (browser w (runs w)) = Resolve tabs ->
         active_tab_id tabs = Some tabId ->
         tabs_sendMessage (browser w (runs w)) tabId = Reject message ->
         scanError (panel (snd (run_scanSVGs w))) = Some message
         /\ svgItems (panel (snd (run_scanSVGs w))) = []).
Proof.
  split.
  { unfold onPanelOpen. apply retryOnError_resolving.
    now rewrite run_scanSVGs_resolves. }
  unfold run_scanSVGs, scanSVGs, scan_queried.
  split.
  { now destruct (tabs_query (browser w (runs w))) as [tabs|m];
      [destruct (active_tab_id tabs)|]. }
  split; [|split].
  - intros message Q. rewrite Q. now cbn.
  - intros tabs Q A. rewrite Q, A. now cbn.
  - intros tabs tabId message Q A M. rewrite Q, A. cbn. now rewrite M.
Qed.

(** ** The custom size guard *)

Lemma of_Z_0 : of_Z 0 = Num 0.
Proof. reflexivity. Qed.

(** For a number, [x <= 0] is false exactly when [x] is above zero. *)
Lemma le_zero_false (x : number) :
  x <> NaN -> (le x (of_Z 0) = false <-> gt_zero x).
Proof.
  intros N. destruct x as [|[|]|q]; simpl; try tauto; try (split; congruence).
  unfold Qle_bool, Qlt. simpl. rewrite Z.mul_1_r. split.
  - intros L. apply Z.leb_gt in L. lia.
  - intros P. apply Z.leb_gt. lia.
Qed.

Section Guard.
Context {host : Engine}.

(** The custom branch of [handleDownload]: a missing entry, a width [<= 0]
    or a height [<= 0] ends the request with the error status before any
    call of [svgToDataUrl]; otherwise the stored size is rasterized. *)
Lemma custom_size_guard
      (selectedSizes : gmap nat PresetSize) (customSizes : gmap nat CustomSize)
      (svg : SVGItem) :
  preset_width (default PRESET_0 (selectedSizes !! id svg)) = -2 ->
  handleDownload selectedSizes customSizes svg =
  SetDownloadStatus (id svg) true None ::
  match customSizes !! id svg with
  | None => [SetDownloadStatus (id svg) false (Some "请输入有效的自定义尺寸"%string)]
  | Some customSize =>
      if le (custom_width customSize) (of_Z 0)
         || le (custom_height customSize) (of_Z 0)
      then [SetDownloadStatus (id svg) false (Some "请输入有效的自定义尺寸"%string)]
      else download_one svg (custom_width customSize) (custom_height customSize)
  end.
Proof. intros S. unfold handleDownload. now rewrite S. Qed.

End Guard.


(** C5, at the input where the guard lets a size through that is not
    positive.  For an item whose dimensions are both [Infinity] the aspect
    ratio is NaN; confirming the width 50 with the ratio locked stores the
    height [Math.round(50 / NaN)], which is NaN; the guard's [<= 0] is false
    for NaN, so the download handler calls [svgToDataUrl] with it. *)
Theorem C5_nan_passes_guard (host : Engine) :
  let stored :=
    handleInputConfirm Instances.overflowed_item WidthInput (of_Z 50)
                       (initial_localSize Instances.overflowed_item) in
  stored = {| custom_width := of_Z 50; custom_height := NaN; keepRatio := true |}
  /\ ~ gt_zero (custom_height stored)
  /\ rasterizations
       (handleDownload {[ 0%nat := Instances.custom_preset ]}
                       {[ 0%nat := stored ]} Instances.overflowed_item)
     = [CallSvgToDataUrl (str "<svg/>") (of_Z 50) NaN].
Proof.
  intros stored.
  assert (E : stored = {| custom_width := of_Z 50; custom_height := NaN;
                          keepRatio := true |}) by reflexivity.
  split; [exact E|]. split; [rewrite E; simpl; tauto|].
  rewrite E. rewrite custom_size_guard.
  - change (id Instances.overflowed_item) with 0%nat. rewrite lookup_singleton_eq.
    cbn [custom_width custom_height].
    change (le (of_Z 50) (of_Z 0) || le NaN (of_Z 0)) with false.
    cbv iota. rewrite rasterizations_status.
    apply (rasterizations_download_one Instances.overflowed_item (of_Z 50) NaN).
  - change (id Instances.overflowed_item) with 0%nat. now rewrite lookup_singleton_eq.
Qed.

(** ** The offscreen rasterizer *)

(** ** Rounding to doubles *)

Lemma nearest_even_close (n d : Z) :
  0 < d -> 2 * Z.abs (Binary64.nearest_even n d * d - n) <= d.
Proof.
  intros P. unfold Binary64.nearest_even.
  assert (D0 : d <> 0) by lia. pose proof (Z.div_mod n d D0) as E.
  pose proof (Z.mod_pos_bound n d P) as B.
  set (f := n / d) in *. set (r := n mod d) in *. clearbody f r.
  destruct (2 * r ?= d) eqn:C.
  - apply Z.compare_eq in C. destruct (Z.even f).
    + replace (f * d - n) with (- r) by lia. lia.
    + replace ((f + 1) * d - n) with (d - r) by lia. lia.
  - rewrite Z.compare_lt_iff in C. replace (f * d - n) with (- r) by lia. lia.
  - rewrite Z.compare_gt_iff in C. replace ((f + 1) * d - n) with (d - r) by lia. lia.
Qed.

Lemma nearest_even_ge_zero (n d : Z) :
  0 <= n -> 0 < d -> 0 <= Binary64.nearest_even n d.
Proof.
  intros N P. unfold Binary64.nearest_even.
  pose proof (Z.div_pos n d N P).
  destruct (2 * (n mod d) ?= d); [destruct (Z.even (n / d))| |]; lia.
Qed.

(** The two powers that stand for [2^k]: one of them is 1. *)
Lemma pow2_split (k : Z) : 0 < 2 ^ Z.max 0 k /\ 0 < 2 ^ Z.max 0 (- k).
Proof. split; apply Z.pow_pos_nonneg; lia. Qed.

Lemma pow2_shift (e j : Z) :
  0 <= j ->
  2 ^ j * 2 ^ Z.max 0 e * 2 ^ Z.max 0 (- (e + j))
  = 2 ^ Z.max 0 (- e) * 2 ^ Z.max 0 (e + j).
Proof.
  intros J. rewrite <- !Z.pow_add_r by lia. f_equal. lia.
Qed.

Lemma exponent_le (n d : Z) :
  0 < n -> 0 < d ->
  d * 2 ^ Z.max 0 (Binary64.exponent n d)
  <= n * 2 ^ Z.max 0 (- Binary64.exponent n d).
Proof.
  intros N D. unfold Binary64.exponent.
  destruct (Z.log2_spec n N) as [Ln _]. destruct (Z.log2_spec d D) as [_ Ud].
  pose proof (Z.log2_nonneg n) as An. pose proof (Z.log2_nonneg d) as Ad.
  set (a := Z.log2 n) in *. set (b := Z.log2 d) in *. clearbody a b.
  destruct (n * 2 ^ Z.max 0 (- (a - b)) <? d * 2 ^ Z.max 0 (a - b)) eqn:T.
  - replace (Z.succ b) with (b + 1) in Ud by lia.
    destruct (Z_le_gt_dec (a - b - 1) 0) as [S|S].
    + replace (Z.max 0 (a - b - 1)) with 0 by lia.
      replace (Z.max 0 (- (a - b - 1))) with (b + 1 - a) by lia.
      rewrite Z.pow_0_r, Z.mul_1_r.
      assert (X : 2 ^ (b + 1) = 2 ^ a * 2 ^ (b + 1 - a))
        by (rewrite <- Z.pow_add_r by lia; f_equal; lia).
      assert (0 < 2 ^ (b + 1 - a)) by (apply Z.pow_pos_nonneg; lia). nia.
    + replace (Z.max 0 (a - b - 1)) with (a - b - 1) by lia.
      replace (Z.max 0 (- (a - b - 1))) with 0 by lia.
      rewrite Z.pow_0_r, Z.mul_1_r.
      assert (X : 2 ^ a = 2 ^ (b + 1) * 2 ^ (a - b - 1))
        by (rewrite <- Z.pow_add_r by lia; f_equal; lia).
      assert (0 < 2 ^ (a - b - 1)) by (apply Z.pow_pos_nonneg; lia). nia.
  - apply Z.ltb_ge in T. exact T.
Qed.

(** What the last place is worth against the number rounded: at most
    [2^-52] of it, unless it is the least place there is. *)
Lemma last_place_le (n d : Z) :
  0 < n -> 0 < d ->
  Binary64.last_place n d = -1074
  \/ 2 ^ 52 * 2 ^ Z.max 0 (Binary64.last_place n d) * d
     <= n * 2 ^ Z.max 0 (- Binary64.last_place n d).
Proof.
  intros N D. unfold Binary64.last_place.
  destruct (Z_le_gt_dec (Binary64.exponent n d - 52) (-1074)) as [S|S].
  - left. lia.
  - right. replace (Z.max (Binary64.exponent n d - 52) (-1074))
      with (Binary64.exponent n d - 52) by lia.
    pose proof (exponent_le n d N D) as L.
    set (k := Binary64.exponent n d) in *. clearbody k.
    assert (J : 0 <= 52) by lia. pose proof (pow2_shift (k - 52) 52 J) as X.
    replace (k - 52 + 52) with k in X by lia.
    destruct (pow2_split k) as [P1 P2]. destruct (pow2_split (k - 52)) as [P3 P4].
    set (A := 2 ^ Z.max 0 (k - 52)) in *. set (B := 2 ^ Z.max 0 (- (k - 52))) in *.
    set (C := 2 ^ Z.max 0 k) in *. set (E := 2 ^ Z.max 0 (- k)) in *.
    set (T := 2 ^ 52) in *. clearbody A B C E T.
    apply (Z.mul_le_mono_pos_r _ _ E P2).
    replace (T * A * d * E) with ((T * A * E) * d) by ring. rewrite X. nia.
Qed.

Lemma Qabs_Qmake (a : Z) (b : positive) : (Qabs (a # b) == (Z.abs a # b))%Q.
Proof. reflexivity. Qed.

(** The distance between two fractions with the same sign. *)
Lemma Qabs_signed_difference (s a b : Z) (c d : positive) :
  Z.abs s = 1 ->
  (Qabs ((s * a # c) - (s * b # d)) == (Z.abs (a * Zpos d - b * Zpos c) # (c * d)))%Q.
Proof.
  intros S. unfold Qminus, Qplus, Qopp. cbn [Qnum Qden]. rewrite Qabs_Qmake.
  replace (s * a * Zpos d + - (s * b) * Zpos c) with (s * (a * Zpos d - b * Zpos c)) by ring.
  now rewrite Z.abs_mul, S, Z.mul_1_l.
Qed.

Lemma round_zero (q : Q) : Z.abs (Qnum q) = 0 -> (q == 0)%Q.
Proof. intros Z0. unfold Qeq. cbn. lia. Qed.

(** The error of one rounding: a finite result is within half the last
    place of the number rounded, which is [2^-53] of the number or, below
    the normal range, [2^-1075]. *)
Lemma round_error (q r : Q) :
  Binary64.round q = Num r ->
  (Qabs (r - q) <= Binary64.unit_roundoff * Qabs q + Binary64.half_least)%Q.
Proof.
  unfold Binary64.round.
  destruct (Z.abs (Qnum q) =? 0) eqn:Z0.
  - intros [= <-]. apply Z.eqb_eq in Z0. rewrite (round_zero q Z0).
    discriminate.
  - apply Z.eqb_neq in Z0. destruct q as [a b]. cbn [Qnum Qden] in *.
    set (n := Z.abs a) in *. set (d := Zpos b).
    set (e := Binary64.last_place n d).
    set (A := 2 ^ Z.max 0 e). set (B := 2 ^ Z.max 0 (- e)).
    set (m := Binary64.nearest_even (n * B) (d * A)).
    destruct (2 ^ 1024 <=? m * A); [discriminate|]. intros [= <-].
    assert (N : 0 < n) by (subst n; lia).
    assert (D : 0 < d) by (subst d; lia).
    destruct (pow2_split e) as [PA PB]. fold A B in PA, PB.
    assert (DA : 0 < d * A) by nia.
    pose proof (nearest_even_close (n * B) (d * A) DA) as Close.
    fold m in Close.
    pose proof (last_place_le n d N D) as Place. fold e A B in Place.
    assert (EB : Zpos (Z.to_pos B) = B) by (apply Z2Pos.id; exact PB).
    assert (Dist : (Qabs (Qred (Z.sgn a * m * A # Z.to_pos B) - (a # b))
                    == Z.abs (m * A * d - n * B) # (Z.to_pos B * b))%Q).
    { rewrite Qred_correct.
      replace (Z.sgn a * m * A) with (Z.sgn a * (m * A)) by ring.
      replace (a # b) with (Z.sgn a * n # b)
        by (f_equal; subst n; rewrite Z.mul_comm; apply Z.abs_sgn).
      rewrite Qabs_signed_difference by (subst n; lia).
      now rewrite EB. }
    rewrite Dist, Qabs_Qmake. fold n.
    set (x := Z.abs (m * A * d - n * B)) in *.
    assert (X : 2 * x <= d * A).
    { subst x. replace (m * A * d - n * B) with (m * (d * A) - n * B) by ring. exact Close. }
    assert (X0 : 0 <= x) by (subst x; lia).
    clearbody x m.
    destruct Place as [Least|Normal].
    + (* below the normal range *)
      apply Qle_trans with (y := Binary64.half_least).
      * unfold Qle, Binary64.half_least. cbn [Qnum Qden].
        rewrite Pos2Z.inj_mul, EB, Z.mul_1_l. fold d.
        assert (0 < 2 ^ 1075) by (apply Z.pow_pos_nonneg; lia).
        rewrite Z2Pos.id by assumption.
        subst A B. rewrite Least in *.
        change (Z.max 0 (-1074)) with 0 in X. change (2 ^ 0) with 1 in X.
        change (Z.max 0 (- -1074)) with 1074.
        replace (2 ^ 1075) with (2 * 2 ^ 1074)
          by (change 1075 with (1 + 1074); rewrite Z.pow_add_r by lia; reflexivity).
        assert (0 < 2 ^ 1074) by (apply Z.pow_pos_nonneg; lia).
        set (T := 2 ^ 1074) in *. clearbody T. nia.
      * rewrite <- (Qplus_0_l Binary64.half_least) at 1.
        apply Qplus_le_l. apply Qmult_le_0_compat; [discriminate|].
        unfold Qle. cbn. lia.
    + (* in the normal range *)
      apply Qle_trans with (y := (Binary64.unit_roundoff * (n # b))%Q).
      * unfold Qle, Qmult, Binary64.unit_roundoff. cbn [Qnum Qden].
        rewrite !Pos2Z.inj_mul, EB, Z.mul_1_l. fold d.
        assert (0 < 2 ^ 53) by (apply Z.pow_pos_nonneg; lia).
        rewrite Z2Pos.id by assumption.
        replace (2 ^ 53) with (2 * 2 ^ 52)
          by (change 53 with (1 + 52); rewrite Z.pow_add_r by lia; reflexivity).
        assert (0 < 2 ^ 52) by (apply Z.pow_pos_nonneg; lia).
        set (T := 2 ^ 52) in *. clearbody T A B. nia.
      * rewrite <- (Qplus_0_r (Binary64.unit_roundoff * (n # b))) at 1.
        apply Qplus_le_r. discriminate.
Qed.

Lemma round_ge_zero (q : Q) : (0 <= q)%Q -> ge_zero (Binary64.round q).
Proof.
  intros G. unfold Binary64.round.
  destruct (Z.abs (Qnum q) =? 0) eqn:Z0; [cbn; lra|].
  apply Z.eqb_neq in Z0.
  assert (P : 0 < Qnum q).
  { unfold Qle in G. cbn in G. lia. }
  set (e := Binary64.last_place _ _). set (m := Binary64.nearest_even _ _).
  destruct (2 ^ 1024 <=? m * 2 ^ Z.max 0 e).
  - cbn. apply Z.ltb_ge. lia.
  - cbn. rewrite Qred_correct. unfold Qle. cbn.
    destruct (pow2_split e) as [PA PB].
    assert (0 <= m).
    { subst m. apply nearest_even_ge_zero; [|nia]. nia. }
    rewrite Z.sgn_pos by exact P. nia.
Qed.

Lemma Qeq_bool_false_of_lt (q : Q) : (0 < q)%Q -> Qeq_bool q 0 = false.
Proof.
  intros P. destruct (Qeq_bool q 0) eqn:E; [|reflexivity].
  apply Qeq_bool_eq in E. rewrite E in P. now apply Qlt_irrefl in P.
Qed.

(** A bound on an absolute value, as two bounds. *)
Lemma Qabs_le_bounds (x y : Q) : (Qabs x <= y)%Q <-> (- y <= x /\ x <= y)%Q.
Proof. apply Qabs_Qle_condition. Qed.

Lemma Qabs_facts (x : Q) : (0 <= Qabs x /\ x <= Qabs x /\ - x <= Qabs x)%Q.
Proof.
  split; [apply Qabs_nonneg|]. split; [apply Qle_Qabs|].
  rewrite <- Qabs_opp. apply Qle_Qabs.
Qed.

Lemma Qabs_pos_mult (w s : Q) : (0 < w)%Q -> (Qabs (w * s) == w * Qabs s)%Q.
Proof.
  intros P. rewrite Qabs_Qmult. rewrite (Qabs_pos w); [reflexivity|]. now apply Qlt_le_weak.
Qed.

(** [Math.min] of two numbers is one of them. *)
Lemma Math_min_finite (a b : Q) :
  exists m : Q, Math_min (Num a) (Num b) = Num m /\ (m == Qmin a b)%Q.
Proof.
  unfold Math_min. destruct (Qle_bool a b) eqn:L.
  - exists a. split; [reflexivity|]. apply Qle_bool_iff in L.
    symmetry. now apply Q.min_l.
  - exists b. split; [reflexivity|]. symmetry. apply Q.min_r.
    destruct (Qlt_le_dec b a) as [Lt|Le].
    + now apply Qlt_le_weak.
    + apply Qle_bool_iff in Le. congruence.
Qed.

Section Rounding.
Context {host : Engine}.
(** The unit roundoff of the engine's numbers and half its least number;
    for doubles they are [2^-53] and [2^-1075]. *)
Variables u eta : Q.
Hypothesis u_ge_0 : (0 <= u)%Q.
(** One rounding that gives a number gives one within this distance of
    the exact result. *)
Hypothesis fl_error :
  forall q r : Q, fl q = Num r -> (Qabs (r - q) <= u * Qabs q + eta)%Q.

Lemma div_rounds (a b : Q) : (0 < b)%Q -> div (Num a) (Num b) = fl (a / b).
Proof. intros P. unfold div. now rewrite (Qeq_bool_false_of_lt _ P). Qed.

Lemma mul_finite (a : Q) (s : number) (p : Q) :
  (0 < a)%Q -> mul (Num a) s = Num p -> exists s', s = Num s' /\ fl (a * s') = Num p.
Proof.
  intros P. destruct s as [|neg|s']; cbn.
  - discriminate.
  - rewrite (Qeq_bool_false_of_lt _ P). discriminate.
  - intros E. now exists s'.
Qed.

Lemma halved_finite (W : Q) (p : number) (x : Q) :
  div (sub (Num W) p) (of_Z 2) = Num x ->
  exists p' d, p = Num p' /\ fl (W - p') = Num d /\ fl (d / 2) = Num x.
Proof.
  destruct p as [|neg|p']; cbn; try discriminate.
  destruct (fl (W - p')) as [|neg|d] eqn:D; cbn; try discriminate.
  intros E. now exists p', d.
Qed.

(** The two margins about a span [p] laid out at [x = (W - p) / 2]. *)
Lemma margins_equal (W p' d x : Q) :
  fl (W - p') = Num d -> fl (d / 2) = Num x ->
  (Qabs ((W - (x + p')) - x) <= u * (2 + u) * Qabs (W - p') + (3 + u) * eta)%Q.
Proof.
  intros D X. apply fl_error in D, X.
  assert (H2 : (Qabs (d / 2) == Qabs d / 2)%Q).
  { unfold Qdiv. rewrite Qabs_Qmult. reflexivity. }
  rewrite H2 in X.
  apply Qabs_le_bounds in D, X. apply Qabs_le_bounds.
  destruct (Qabs_facts (W - p')) as (T0 & T1 & T2).
  destruct (Qabs_facts d) as (S0 & S1 & S2).
  assert (Sd : (Qabs d <= Qabs (W - p') + (u * Qabs (W - p') + eta))%Q).
  { apply Qabs_case; intros; lra. }
  set (t := Qabs (W - p')) in *. set (s := Qabs d) in *. clearbody t s.
  assert (P1 : (0 <= u * t)%Q) by now apply Qmult_le_0_compat.
  assert (P2 : (u * s <= u * (t + (u * t + eta)))%Q) by nra.
  clear H2 fl_error. unfold Qdiv in X. change (/ 2)%Q with (1 # 2)%Q in X.
  split; lra.
Qed.


(** The sides of the image as drawn, against the scale as computed. *)
Lemma scaled_sides (w h s' sw' sh' : Q) :
  (0 < w)%Q -> (0 < h)%Q ->
  fl (w * s') = Num sw' -> fl (h * s') = Num sh' ->
  (Qabs (sw' - w * s') <= u * Qabs (w * s') + eta)%Q
  /\ (Qabs (sh' - h * s') <= u * Qabs (h * s') + eta)%Q
  /\ (Qabs (sw' * h - sh' * w) <= 2 * u * (w * h * Qabs s') + (w + h) * eta)%Q.
Proof.
  intros Pw Ph Ew Eh. apply fl_error in Ew, Eh.
  split; [exact Ew|]. split; [exact Eh|].
  rewrite (Qabs_pos_mult w s' Pw) in Ew. rewrite (Qabs_pos_mult h s' Ph) in Eh.
  apply Qabs_le_bounds in Ew, Eh. apply Qabs_le_bounds.
  set (t := Qabs s') in *. clearbody t.
  destruct Ew as [Ew1 Ew2]. destruct Eh as [Eh1 Eh2].
  apply (Qmult_le_l _ _ h Ph) in Ew1, Ew2.
  apply (Qmult_le_l _ _ w Pw) in Eh1, Eh2.
  clear fl_error. split; lra.
Qed.

(** C3.  For a decoded image [w] by [h], both above zero, and a target
    box [W] by [Ht], the offscreen rasterizer resolves with the PNG of a
    [W] by [Ht] canvas on which the only drawing call is [drawImage] of
    the image at [(x, y)] with the size [sw] by [sh], where, in the
    arithmetic of the engine, [s = Math.min(W / w, Ht / h)], [sw = w * s],
    [sh = h * s], [x = (W - sw) / 2] and [y = (Ht - sh) / 2]; nothing is
    filled, so the rest of the canvas stays transparent.  Each operation
    is rounded; where the results are numbers, [s] is the smaller of the
    two rounded quotients, each within one rounding of its exact value,
    [sw : sh] is [w : h] up to the rounding of the two products, and the
    margins on the two sides of the image are equal up to the rounding of
    the difference and of its half. *)
Theorem C3_scale_and_center
        (svgString url : jsstring) (img : Image) (w h W Ht : Q) :
  Offscreen.svgToBase64 svgString = Some url ->
  loadImage url = Some img ->
  getContext2d = true ->
  img_width img = Num w -> img_height img = Num h ->
  (0 < w)%Q -> (0 < h)%Q ->
  let s := Math_min (div (Num W) (Num w)) (div (Num Ht) (Num h)) in
  let sw := mul (Num w) s in
  let sh := mul (Num h) s in
  let x := div (sub (Num W) sw) (of_Z 2) in
  let y := div (sub (Num Ht) sh) (of_Z 2) in
  Offscreen.processImage svgString (Num W) (Num Ht) =
  Resolve (toDataURL
             {| canvas_width := Num W; canvas_height := Num Ht;
                canvas_ops :=
                  [SetImageSmoothingEnabled true;
                   SetImageSmoothingQuality "high";
                   DrawImage img x y sw sh] |})
  /\ (forall a b : Q,
         div (Num W) (Num w) = Num a -> div (Num Ht) (Num h) = Num b ->
         exists s' : Q,
           s = Num s' /\ (s' == Qmin a b)%Q
           /\ (Qabs (a - W / w) <= u * Qabs (W / w) + eta)%Q
           /\ (Qabs (b - Ht / h) <= u * Qabs (Ht / h) + eta)%Q)
  /\ (forall sw' sh' : Q,
         sw = Num sw' -> sh = Num sh' ->
         exists s' : Q,
           s = Num s'
           /\ (Qabs (sw' - w * s') <= u * Qabs (w * s') + eta)%Q
           /\ (Qabs (sh' - h * s') <= u * Qabs (h * s') + eta)%Q
           /\ (Qabs (sw' * h - sh' * w)
               <= 2 * u * (w * h * Qabs s') + (w + h) * eta)%Q)
  /\ (forall x' : Q,
         x = Num x' ->
         exists sw' : Q,
           sw = Num sw'
           /\ (Qabs ((W - (x' + sw')) - x')
               <= u * (2 + u) * Qabs (W - sw') + (3 + u) * eta)%Q)
  /\ (forall y' : Q,
         y = Num y' ->
         exists sh' : Q,
           sh = Num sh'
           /\ (Qabs ((Ht - (y' + sh')) - y')
               <= u * (2 + u) * Qabs (Ht - sh') + (3 + u) * eta)%Q).
Proof.
  intros B L C Ew Eh Pw Ph s sw sh x y.
  split.
  { unfold Offscreen.processImage, Offscreen.draw. rewrite B, L, C, Ew, Eh. reflexivity. }
  split.
  { intros a b Ea Eb. subst s. rewrite Ea, Eb.
    rewrite (div_rounds _ _ Pw) in Ea. rewrite (div_rounds _ _ Ph) in Eb.
    destruct (Math_min_finite a b) as (s' & Es & Hs).
    exists s'. split; [exact Es|]. split; [exact Hs|].
    split; now apply fl_error. }
  split.
  { intros sw' sh' Esw Esh.
    destruct (mul_finite w s sw' Pw Esw) as (s' & Es & Fw).
    destruct (mul_finite h s sh' Ph Esh) as (s'' & Es' & Fh).
    rewrite Es in Es'. injection Es' as <-.
    exists s'. split; [exact Es|]. now apply scaled_sides. }
  split.
  - intros x' Ex. destruct (halved_finite W sw x' Ex) as (sw' & d & Esw & D & X).
    exists sw'. split; [exact Esw|]. exact (margins_equal W sw' d x' D X).
  - intros y' Ey. destruct (halved_finite Ht sh y' Ey) as (sh' & d & Esh & D & Y).
    exists sh'. split; [exact Esh|]. exact (margins_equal Ht sh' d y' D Y).
Qed.

End Rounding.

(** C3 on an image 49 by 49 and a box 1 by 1, on doubles: the quotient
    1/49 is rounded, the image is drawn a last place short of the box and
    that far from its corner. *)
Lemma C3_witness :
  (0 <= Binary64.unit_roundoff)%Q
  /\ (0 < 49)%Q
  /\ Offscreen.processImage (host := Instances.square_engine)
       (str "<svg/>") (Num 1) (Num 1) =
     Resolve (toDataURL (Engine := Instances.square_engine)
                {| canvas_width := Num 1; canvas_height := Num 1;
                   canvas_ops :=
                     [SetImageSmoothingEnabled true;
                      SetImageSmoothingQuality "high";
                      DrawImage Instances.square_image
                        (Num (1 # 18014398509481984)) (Num (1 # 18014398509481984))
                        (Num (9007199254740991 # 9007199254740992))
                        (Num (9007199254740991 # 9007199254740992))] |}).
Proof.
  assert (U : (0 <= Binary64.unit_roundoff)%Q) by discriminate.
  assert (P : (0 < 49)%Q) by reflexivity.
  split; [exact U|]. split; [exact P|].
  destruct (C3_scale_and_center (host := Instances.square_engine)
              Binary64.unit_roundoff Binary64.half_least U round_error
              (str "<svg/>") Instances.plain_url Instances.square_image 49 49 1 1
              eq_refl eq_refl eq_refl eq_refl eq_refl P P) as [R _].
  etransitivity; [exact R|]. vm_compute. reflexivity.
Defined.

(** C3 read with exact quotients and products does not hold on doubles:
    for an image 49 by 49 and a box 1 by 1 the exact scale is 1/49, the
    exact side 1 and the exact offset 0, and the rasterizer draws with the
    side [1 - 2^-53] at the offset [2^-54]. *)
Lemma C3_counterexample :
  Offscreen.draw (host := Instances.square_engine) Instances.square_image
                 (Num 1) (Num 1) =
  [SetImageSmoothingEnabled true;
   SetImageSmoothingQuality "high";
   DrawImage Instances.square_image
     (Num (1 # 18014398509481984)) (Num (1 # 18014398509481984))
     (Num (9007199254740991 # 9007199254740992))
     (Num (9007199254740991 # 9007199254740992))]
  /\ ~ ((9007199254740991 # 9007199254740992) == 49 * Qmin (1 / 49) (1 / 49))%Q
  /\ ~ ((1 # 18014398509481984) == (1 - 49 * Qmin (1 / 49) (1 / 49)) / 2)%Q.
Proof.
  split; [vm_compute; reflexivity|].
  split; intros E; vm_compute in E; discriminate E.
Qed.

(** ** The dimensions of a scanned element *)

Import Chain.

Lemma truthy_ge_zero (n : number) : ge_zero n -> truthy n = true -> gt_zero n.
Proof.
  destruct n as [|b|q]; simpl; try tauto.
  intros G T. apply negb_true_iff in T.
  apply Qle_lt_or_eq in G as [L|E]; [exact L|].
  assert (Qeq_bool q 0 = true) by (apply Qeq_bool_iff; now symmetry).
  congruence.
Qed.

Lemma truthy_of_Z (c : Z) : truthy (of_Z c) = negb (c =? 0).
Proof.
  unfold of_Z, truthy, Qeq_bool, inject_Z. simpl. rewrite Z.mul_1_r.
  reflexivity.
Qed.

Section Dimensions.
Context {host : Engine}.

(** The strings the code ends with are those of the chain. *)
Lemma size_strings_chosen (svg : Element) : size_strings svg = chosen svg.
Proof.
  unfold size_strings, chosen, sources, from_attributes, from_viewBox,
    from_style, from_bbox.
  destruct (getAttribute svg (str "width")) as [[|cw w]|];
    destruct (getAttribute svg (str "height")) as [[|ch h]|];
    destruct (getAttribute svg (str "viewBox")) as [[|cv v]|];
    simpl falsy_str; simpl orb; simpl andb; cbv iota;
    try (destruct (split 32 (cv :: v)) as [|p1 [|p2 [|[|c3 p3] [|[|c4 p4] [|p5 r]]]]];
         simpl);
    destruct (style_width (data svg)) as [|sw1 sw];
    destruct (style_height (data svg)) as [|sh1 sh];
    destruct (bbox (data svg)) as [[bw bh]|];
    simpl; try reflexivity;
    destruct (Number_toString bw), (Number_toString bh); reflexivity.
Qed.

Lemma getSVGDimensions_resolve (svg : Element) :
  getSVGDimensions svg =
  {| width := resolve (fst (chosen svg)) (clientWidth (data svg));
     height := resolve (snd (chosen svg)) (clientHeight (data svg)) |}.
Proof.
  unfold getSVGDimensions. rewrite size_strings_chosen.
  destruct (chosen svg) as [w h]. unfold resolve, or_else. simpl fst; simpl snd.
  rewrite !truthy_of_Z.
  destruct (truthy (parseSize w)), (truthy (parseSize h)),
    (clientWidth (data svg) =? 0), (clientHeight (data svg) =? 0); reflexivity.
Qed.

(** Rounding does not take a value that is not below zero below zero. *)
Hypothesis fl_ge_zero : forall q : Q, (0 <= q)%Q -> ge_zero (fl q).

Lemma parseFloat_range (s : jsstring) : parseFloat s = NaN \/ ge_zero (parseFloat s).
Proof.
  unfold parseFloat. destruct (span is_digit s) as [int_part rest].
  set (frac_part := match rest with 46%N :: t => fst (span is_digit t) | _ => [] end).
  assert (G : ge_zero
                (fl (inject_Z (Z.of_N (digits_value (int_part ++ frac_part)))
                     / inject_Z (10 ^ Z.of_nat (List.length frac_part))))).
  { apply fl_ge_zero. apply Qle_shift_div_l.
    - change 0%Q with (inject_Z 0). rewrite <- Zlt_Qlt. apply Z.pow_pos_nonneg; lia.
    - rewrite Qmult_0_l. change 0%Q with (inject_Z 0). rewrite <- Zle_Qle. lia. }
  destruct int_part, frac_part; auto.
Qed.

Lemma parseSize_range (size : option jsstring) :
  parseSize size = NaN \/ ge_zero (parseSize size).
Proof.
  unfold parseSize. destruct size as [s|]; [|right; simpl; apply Qle_refl].
  destruct (fst (span (fun c => is_digit c || (c =? 46)%N) s)) as [|c m] eqn:E.
  - right. simpl. apply Qle_refl.
  - apply parseFloat_range.
Qed.

Lemma resolve_gt_zero (size : option jsstring) (client : Z) :
  0 <= client -> gt_zero (resolve size client).
Proof.
  intros C. unfold resolve. destruct (truthy (parseSize size)) eqn:T.
  - destruct (parseSize_range size) as [N|G].
    + rewrite N in T. discriminate.
    + now apply truthy_ge_zero.
  - destruct (Z.eqb_spec client 0) as [->|N]; simpl.
    + reflexivity.
    + unfold Qlt. simpl. lia.
Qed.

(** C1, as the code has it.  The strings to parse are those of the first
    source, in the order attributes, four-part [viewBox], computed style,
    bounding box, that supplies two non-empty strings (of the last source
    when none does); on each axis the result is the parsed string when that
    is a number other than zero, else the element's client size when that
    is not zero, else 100; with client sizes that are not negative, the
    width and the height are above zero. *)
Theorem C1_dimension_fallback (svg : Element) :
  0 <= clientWidth (data svg) -> 0 <= clientHeight (data svg) ->
  size_strings svg = chosen svg
  /\ width (getSVGDimensions svg)
     = resolve (fst (chosen svg)) (clientWidth (data svg))
  /\ height (getSVGDimensions svg)
     = resolve (snd (chosen svg)) (clientHeight (data svg))
  /\ gt_zero (width (getSVGDimensions svg))
  /\ gt_zero (height (getSVGDimensions svg)).
Proof.
  intros CW CH. rewrite getSVGDimensions_resolve. simpl.
  split; [apply size_strings_chosen|]. split; [reflexivity|].
  split; [reflexivity|]. split; now apply resolve_gt_zero.
Qed.

End Dimensions.

Lemma C1_witness :
  0 <= clientWidth (data Instances.viewBox_only)
  /\ 0 <= clientHeight (data Instances.viewBox_only)
  /\ getSVGDimensions (host := Instances.wide_engine) Instances.viewBox_only
     = {| width := Num 10; height := Num 20 |}
  /\ gt_zero (width (getSVGDimensions (host := Instances.wide_engine)
                                      Instances.viewBox_only))
  /\ gt_zero (height (getSVGDimensions (host := Instances.wide_engine)
                                       Instances.viewBox_only)).
Proof.
  split; [discriminate|]. split; [discriminate|]. split; [reflexivity|].
  apply (C1_dimension_fallback (host := Instances.wide_engine) round_ge_zero
           Instances.viewBox_only); discriminate.
Defined.

(** C1 as the specification words it does not hold: an element about which
    none of the four sources says anything resolves to its client box, not
    to 100 by 100; and attributes that are present but hold no number keep
    the [viewBox] from being read. *)
Lemma C1_counterexample :
  ~ (forall svg : Element,
        nothing_to_read svg ->
        0 <= clientWidth (data svg) -> 0 <= clientHeight (data svg) ->
        getSVGDimensions (host := Instances.wide_engine) svg
        = {| width := of_Z 100; height := of_Z 100 |})
  /\ from_viewBox Instances.auto_sized = Some (Some (str "10"), Some (str "20"))
  /\ getSVGDimensions (host := Instances.wide_engine) Instances.auto_sized
     = {| width := of_Z 300; height := of_Z 150 |}.
Proof.
  split; [|split; reflexivity].
  intros Claim.
  specialize (Claim Instances.bare).
  assert (R : getSVGDimensions (host := Instances.wide_engine) Instances.bare
              = {| width := of_Z 24; height := of_Z 24 |}) by reflexivity.
  rewrite R in Claim.
  assert (A : {| width := of_Z 24; height := of_Z 24 |}
              = {| width := of_Z 100; height := of_Z 100 |}).
  { apply Claim; [repeat split| |]; discriminate. }
  discriminate A.
Qed.

(** ** The archive export *)

Lemma size_list_to_set_le (l : list jsstring) :
  (size (list_to_set l : gset jsstring) <= List.length l)%nat.
Proof.
  induction l as [|x l IH].
  - rewrite list_to_set_nil, size_empty. reflexivity.
  - rewrite list_to_set_cons, size_union_alt, size_singleton. cbn [List.length].
    assert (S : (list_to_set l ∖ {[x]} : gset jsstring) ⊆ list_to_set l)
      by set_solver.
    apply subseteq_size in S. lia.
Qed.

Section Archive.
Context {host : Engine}.

Lemma archive_sizes_eq :
  archive_sizes =
  [ {| preset_width := 16; preset_height := 16; label := "16x16" |};
    {| preset_width := 32; preset_height := 32; label := "32x32" |};
    {| preset_width := 48; preset_height := 48; label := "48x48" |};
    {| preset_width := 128; preset_height := 128; label := "128x128" |};
    {| preset_width := 0; preset_height := 0; label := "原始尺寸" |} ].
Proof. reflexivity. Qed.

Lemma archive_calls_eq (svg : SVGItem) :
  archive_calls svg =
  [CallSvgToDataUrl (item_outerHTML svg) (of_Z 16) (of_Z 16);
   CallSvgToDataUrl (item_outerHTML svg) (of_Z 32) (of_Z 32);
   CallSvgToDataUrl (item_outerHTML svg) (of_Z 48) (of_Z 48);
   CallSvgToDataUrl (item_outerHTML svg) (of_Z 128) (of_Z 128);
   CallSvgToDataUrl (item_outerHTML svg)
                    (width (dimensions svg)) (height (dimensions svg))].
Proof. reflexivity. Qed.

Lemma archive_names_eq (svg : SVGItem) :
  archive_names svg =
  [png_filename (id svg) (of_Z 16) (of_Z 16);
   png_filename (id svg) (of_Z 32) (of_Z 32);
   png_filename (id svg) (of_Z 48) (of_Z 48);
   png_filename (id svg) (of_Z 128) (of_Z 128);
   png_filename (id svg) (width (dimensions svg)) (height (dimensions svg))].
Proof. reflexivity. Qed.

Lemma archive_names_map (svg : SVGItem) :
  archive_names svg =
  List.map (fun size => png_filename (id svg) (fst (target_size svg size))
                                     (snd (target_size svg size)))
           archive_sizes.
Proof. reflexivity. Qed.

(** The names in the archive are the names written, on top of those that
    were there. *)
Lemma archive_entries_dom (svg : SVGItem) (sizes : list PresetSize) :
  forall zip zip' : gmap jsstring jsstring,
    archive_entries svg sizes zip = Resolve zip' ->
    dom zip' =
    list_to_set
      (List.map (fun size => png_filename (id svg) (fst (target_size svg size))
                                          (snd (target_size svg size)))
                sizes)
    ∪ dom zip.
Proof.
  induction sizes as [|size rest IH]; intros zip zip' E.
  - simpl in E. inversion E; subst. simpl. set_solver.
  - cbn [archive_entries] in E. cbn [List.map].
    destruct (target_size svg size) as [w h]. cbn [fst snd].
    destruct (svgToDataUrl (item_outerHTML svg) w h) as [u|m]; [|discriminate E].
    apply IH in E. rewrite E, dom_insert_L. set_solver.
Qed.

(** When every rasterization resolves, the archive is built. *)
Lemma archive_entries_resolve (svg : SVGItem) (sizes : list PresetSize) :
  (forall size, In size sizes ->
     exists dataUrl,
       svgToDataUrl (item_outerHTML svg) (fst (target_size svg size))
                    (snd (target_size svg size)) = Resolve dataUrl) ->
  forall zip, exists zip', archive_entries svg sizes zip = Resolve zip'.
Proof.
  induction sizes as [|size rest IH]; intros All zip.
  - simpl. eauto.
  - destruct (All size (or_introl eq_refl)) as [u U].
    cbn [archive_entries].
    destruct (target_size svg size) as [w h]. cbn [fst snd] in U. rewrite U.
    apply IH. intros s I. apply All. now right.
Qed.

(** C4, as the code has it.  When the five rasterizations resolve and the
    browser takes the download, the export calls [svgToDataUrl] once for
    each of 16, 32, 48 and 128 square and once at the item's own
    dimensions, and saves with one download, named [svg_<id>_all_sizes.zip],
    an archive whose entry names are the five names
    [svg_<id>_<width>x<height>.png]: five entries when these names are
    distinct, fewer when the item's own dimensions give the name of a fixed
    preset. *)
Theorem C4_archive_export (svg : SVGItem) :
  (forall size, In size archive_sizes ->
     exists dataUrl,
       svgToDataUrl (item_outerHTML svg) (fst (target_size svg size))
                    (snd (target_size svg size)) = Resolve dataUrl) ->
  (forall url, downloads_download url (zip_filename (id svg)) = None) ->
  exists zip : gmap jsstring jsstring,
    archive_entries svg archive_sizes ∅ = Resolve zip
    /\ downloadAllSizes svg =
       ([CallSvgToDataUrl (item_outerHTML svg) (of_Z 16) (of_Z 16);
         CallSvgToDataUrl (item_outerHTML svg) (of_Z 32) (of_Z 32);
         CallSvgToDataUrl (item_outerHTML svg) (of_Z 48) (of_Z 48);
         CallSvgToDataUrl (item_outerHTML svg) (of_Z 128) (of_Z 128);
         CallSvgToDataUrl (item_outerHTML svg)
                          (width (dimensions svg)) (height (dimensions svg));
         Download (createObjectURL zip)
                  (str "svg_" ++ Number_toString (of_Z (Z.of_nat (id svg)))
                   ++ str "_all_sizes.zip")
                  true;
         RevokeObjectURL (createObjectURL zip)],
        {| success := true; error := None |})
    /\ (dom zip : gset jsstring) =
       list_to_set
         [png_filename (id svg) (of_Z 16) (of_Z 16);
          png_filename (id svg) (of_Z 32) (of_Z 32);
          png_filename (id svg) (of_Z 48) (of_Z 48);
          png_filename (id svg) (of_Z 128) (of_Z 128);
          png_filename (id svg) (width (dimensions svg)) (height (dimensions svg))]
    /\ (size zip <= 5)%nat
    /\ (NoDup (archive_names svg) -> size zip = 5%nat)
    /\ (In (png_filename (id svg) (width (dimensions svg)) (height (dimensions svg)))
           [png_filename (id svg) (of_Z 16) (of_Z 16);
            png_filename (id svg) (of_Z 32) (of_Z 32);
            png_filename (id svg) (of_Z 48) (of_Z 48);
            png_filename (id svg) (of_Z 128) (of_Z 128)] ->
        (size zip <= 4)%nat).
Proof.
  intros All Dl.
  destruct (archive_entries_resolve svg archive_sizes All ∅) as [zip Z].
  exists zip. split; [exact Z|].
  pose proof (archive_entries_dom svg archive_sizes ∅ zip Z) as D.
  rewrite <- archive_names_map, dom_empty_L, (right_id_L ∅ (∪)) in D.
  split.
  { unfold downloadAllSizes. rewrite Z, Dl. reflexivity. }
  split; [rewrite D; reflexivity|].
  rewrite <- size_dom, D.
  split; [|split].
  - change 5%nat with (List.length (archive_names svg)).
    apply size_list_to_set_le.
  - intros ND. now rewrite size_list_to_set.
  - intros I. rewrite archive_names_eq.
    set (own := png_filename (id svg) (width (dimensions svg))
                             (height (dimensions svg))) in *.
    set (fixed := [png_filename (id svg) (of_Z 16) (of_Z 16);
                   png_filename (id svg) (of_Z 32) (of_Z 32);
                   png_filename (id svg) (of_Z 48) (of_Z 48);
                   png_filename (id svg) (of_Z 128) (of_Z 128)]) in *.
    assert (E : (list_to_set (fixed ++ [own]) : gset jsstring) = list_to_set fixed).
    { apply list_elem_of_In in I. rewrite list_to_set_app_L. set_solver. }
    change (size (list_to_set (fixed ++ [own]) : gset jsstring) <= 4)%nat.
    rewrite E. change 4%nat with (List.length fixed). apply size_list_to_set_le.
Qed.

End Archive.

Lemma C4_witness :
  (forall url,
      downloads_download (Engine := Instances.icon_engine) url
        (zip_filename (host := Instances.icon_engine) (id (Instances.item 0 24 24)))
      = None)
  /\ exists zip : gmap jsstring jsstring,
      archive_entries (host := Instances.icon_engine) (Instances.item 0 24 24)
                      archive_sizes ∅ = Resolve zip
      /\ size zip = 5%nat.
Proof.
  split; [reflexivity|].
  destruct (C4_archive_export (host := Instances.icon_engine) (Instances.item 0 24 24))
    as (zip & Z & _ & _ & _ & Five & _).
  - intros size I. rewrite archive_sizes_eq in I.
    repeat (destruct I as [<-|I]; [eexists; vm_compute; reflexivity|]).
    destruct I.
  - reflexivity.
  - exists zip. split; [exact Z|]. apply Five.
    apply (bool_decide_unpack _). vm_compute. exact I.
Defined.

(** C4 as the specification words it does not hold: for an item that is
    itself 16 by 16 the "original" entry has the name of the 16 by 16
    entry, and the archive that is downloaded holds four entries. *)
Lemma C4_counterexample :
  success (snd (downloadAllSizes (host := Instances.icon_engine)
                                 (Instances.item 0 16 16))) = true
  /\ List.length (rasterizations
                    (fst (downloadAllSizes (host := Instances.icon_engine)
                                           (Instances.item 0 16 16)))) = 5%nat
  /\ match archive_entries (host := Instances.icon_engine) (Instances.item 0 16 16)
                           archive_sizes ∅ with
     | Resolve zip => size zip = 4%nat
     | Reject _ => False
     end.
Proof. split; [|split]; vm_compute; reflexivity. Qed.

(** ** Replacing in strings *)

Lemma Forall_skipn {A} (P : A -> Prop) (l : list A) (n : nat) :
  List.Forall P l -> List.Forall P (skipn n l).
Proof.
  revert l; induction n as [|n IH]; intros [|x l] F; simpl; auto.
  inversion F; subst. now apply IH.
Qed.

Lemma replace_from_Forall_keep (P : N -> Prop) (m : matcher) (rep : jsstring) :
  List.Forall P rep ->
  forall s skip, List.Forall P s -> List.Forall P (replace_from m rep skip s).
Proof.
  intros R s. induction s as [|c t IH]; intros skip F; simpl; [constructor|].
  inversion F as [|? ? Pc Pt]; subst.
  destruct skip as [|k]; [|now apply IH].
  destruct (m (c :: t)) as [[|n]|].
  - constructor; auto.
  - apply Forall_app. split; auto.
  - constructor; auto.
Qed.

Lemma replace_from_Forall_made (P : N -> Prop) (m : matcher) (rep : jsstring) :
  List.Forall P rep ->
  (forall c t, (forall n, m (c :: t) <> Some (S n)) -> P c) ->
  forall s skip, List.Forall P (replace_from m rep skip s).
Proof.
  intros R U s. induction s as [|c t IH]; intros skip; simpl; [constructor|].
  destruct skip as [|k]; [|apply IH].
  destruct (m (c :: t)) as [[|n]|] eqn:M.
  - constructor; [|apply IH]. apply (U c t). intros n. rewrite M. discriminate.
  - apply Forall_app. split; auto.
  - constructor; [|apply IH]. apply (U c t). intros n. rewrite M. discriminate.
Qed.

Lemma replace_first_Forall_keep (P : N -> Prop) (m : matcher) (rep : jsstring) :
  List.Forall P rep ->
  forall s, List.Forall P s -> List.Forall P (replace_first m rep s).
Proof.
  intros R s. induction s as [|c t IH]; intros F; simpl; [constructor|].
  inversion F as [|? ? Pc Pt]; subst.
  destruct (m (c :: t)) as [[|n]|].
  - constructor; auto.
  - apply Forall_app. split; [exact R|]. now apply Forall_skipn.
  - constructor; auto.
Qed.

(** Dropping the rest of a match. *)
Lemma replace_from_skip (m : matcher) (rep a b : jsstring) :
  replace_from m rep (List.length a) (a ++ b) = replace_from m rep O b.
Proof. induction a as [|x a IH]; simpl; [reflexivity|exact IH]. Qed.

Lemma span_app (p : N -> bool) (s : jsstring) :
  s = fst (span p s) ++ snd (span p s).
Proof.
  induction s as [|c t IH]; simpl; [reflexivity|].
  destruct (p c); [|reflexivity].
  destruct (span p t) as [a b]. simpl in *. now rewrite IH at 1.
Qed.

Lemma span_rest_head (p : N -> bool) (s : jsstring) :
  match snd (span p s) with
  | [] => True
  | c :: _ => p c = false
  end.
Proof.
  induction s as [|c t IH]; simpl; [exact I|].
  destruct (p c) eqn:E; [|simpl; exact E].
  destruct (span p t) as [a b]. simpl in *. exact IH.
Qed.

Lemma span_length_le (p : N -> bool) (s : jsstring) :
  (List.length (snd (span p s)) <= List.length s)%nat.
Proof.
  induction s as [|c t IH]; simpl; [lia|].
  destruct (p c); [|simpl; lia].
  destruct (span p t) as [a b]. simpl in *. lia.
Qed.

Lemma no_double_weaken (b : bool) (s : jsstring) :
  no_double_space b s = true -> no_double_space false s = true.
Proof. destruct s as [|c t]; simpl; [auto|]. destruct b, (is_space c); simpl; auto. discriminate. Qed.

Lemma no_double_head (b : bool) (s : jsstring) :
  head_not_space s = true -> no_double_space false s = true -> no_double_space b s = true.
Proof. destruct s as [|c t]; simpl; [auto|]. intros H. apply negb_true_iff in H. rewrite H. now rewrite andb_false_r. Qed.

Lemma replace_from_cons (m : matcher) (rep : jsstring) (c : N) (t : jsstring) :
  replace_from m rep O (c :: t) =
  match m (c :: t) with
  | Some (S n) => rep ++ replace_from m rep n t
  | _ => c :: replace_from m rep O t
  end.
Proof. reflexivity. Qed.

Lemma spaces_cons (c : N) (t : jsstring) :
  spaces (c :: t) =
  if is_space c then Some (S (List.length (fst (span is_space t)))) else None.
Proof.
  unfold spaces. simpl span. destruct (is_space c); [|reflexivity].
  now destruct (span is_space t).
Qed.

Lemma str_space : str " " = [32%N].
Proof. reflexivity. Qed.

Lemma collapse_spaces (s : jsstring) :
  no_double_space false (replace_all spaces (str " ") s) = true
  /\ (head_not_space s = true ->
      head_not_space (replace_all spaces (str " ") s) = true).
Proof.
  unfold replace_all. rewrite str_space.
  remember (List.length s) as n eqn:L. revert s L.
  induction n as [n IH] using lt_wf_ind. intros s L.
  destruct s as [|c t]; [split; reflexivity|].
  rewrite replace_from_cons, spaces_cons.
  destruct (is_space c) eqn:C.
  - pose proof (span_app is_space t) as A.
    pose proof (span_rest_head is_space t) as Hd.
    pose proof (span_length_le is_space t) as Le.
    destruct (span is_space t) as [ws rest]. cbn [fst snd] in *.
    cbv iota beta.
    assert (Sk : replace_from spaces [32%N] (List.length ws) t
                 = replace_from spaces [32%N] 0 rest)
      by (rewrite A; apply replace_from_skip).
    rewrite Sk.
    destruct (IH (List.length rest)) with (s := rest) as [ND HN];
      [simpl in L; lia|reflexivity|].
    split.
    + cbn [app no_double_space]. change (is_space 32) with true. cbn [andb negb].
      apply no_double_head; [|exact ND]. apply HN.
      destruct rest as [|r rest]; [reflexivity|]. simpl. now rewrite Hd.
    + cbn [head_not_space]. rewrite C. discriminate.
  - destruct (IH (List.length t)) with (s := t) as [ND HN];
      [simpl in L; lia|reflexivity|].
    split.
    + cbn [no_double_space]. rewrite C. exact ND.
    + intros _. cbn [head_not_space]. now rewrite C.
Qed.

Lemma no_double_app (b : bool) (a c : jsstring) :
  last_not_space a = true ->
  no_double_space b a = true -> no_double_space false c = true ->
  no_double_space b (a ++ c) = true.
Proof.
  revert b. induction a as [|x a IH]; intros b La Na Nc.
  - discriminate La.
  - cbn [app no_double_space] in *. apply andb_prop in Na as [N1 N2].
    rewrite N1. cbn [andb].
    destruct a as [|y a].
    + cbn [app]. cbn [last_not_space] in La.
      apply negb_true_iff in La. rewrite La.
      destruct c as [|z c]; [reflexivity|exact Nc].
    + apply IH; [exact La|exact N2|exact Nc].
Qed.

Lemma no_double_skipn (b : bool) (s : jsstring) (n : nat) :
  no_double_space b s = true -> no_double_space false (skipn n s) = true.
Proof.
  revert b s. induction n as [|n IH]; intros b [|c t] ND; simpl; try reflexivity.
  - now apply no_double_weaken in ND.
  - cbn [no_double_space] in ND. apply andb_prop in ND as [_ ND]. now apply IH in ND.
Qed.

Lemma replace_from_no_double (m : matcher) (rep : jsstring) :
  head_not_space rep = true -> last_not_space rep = true ->
  no_double_space false rep = true ->
  forall s skip b,
    no_double_space b s = true ->
    no_double_space (match skip with O => b | S _ => false end)
                    (replace_from m rep skip s) = true.
Proof.
  intros Hr Lr Nr s. induction s as [|c t IH]; intros skip b ND.
  - now destruct skip.
  - cbn [no_double_space] in ND. apply andb_prop in ND as [N1 N2].
    destruct skip as [|k].
    + rewrite replace_from_cons.
      assert (Keep : no_double_space b (c :: replace_from m rep 0 t) = true).
      { cbn [no_double_space]. rewrite N1. apply (IH O _ N2). }
      destruct (m (c :: t)) as [[|n]|]; try exact Keep.
      apply no_double_app; [exact Lr|now apply no_double_head|].
      specialize (IH n _ N2). destruct n; [|exact IH].
      now apply no_double_weaken in IH.
    + cbn [replace_from]. specialize (IH k _ N2). destruct k; [|exact IH].
      now apply no_double_weaken in IH.
Qed.

Lemma replace_first_no_double (m : matcher) (rep : jsstring) :
  head_not_space rep = true -> last_not_space rep = true ->
  no_double_space false rep = true ->
  forall s b,
    no_double_space b s = true ->
    no_double_space b (replace_first m rep s) = true.
Proof.
  intros Hr Lr Nr s. induction s as [|c t IH]; intros b ND; [exact ND|].
  cbn [no_double_space] in ND. apply andb_prop in ND as [N1 N2].
  cbn [replace_first].
  assert (Keep : no_double_space b (c :: replace_first m rep t) = true).
  { cbn [no_double_space]. rewrite N1. apply (IH _ N2). }
  destruct (m (c :: t)) as [[|n]|]; try exact Keep.
  apply no_double_app; [exact Lr|now apply no_double_head|].
  exact (no_double_skipn _ _ n N2).
Qed.

Lemma starts_with_app (p s : jsstring) :
  starts_with p s = true -> s = p ++ skipn (List.length p) s.
Proof.
  revert s. induction p as [|x p IH]; intros [|y s] E; simpl in *; try discriminate;
    try reflexivity.
  apply andb_prop in E as [E1 E2]. apply N.eqb_eq in E1. subst y.
  f_equal. now apply IH.
Qed.

Lemma cut_at_app (p s pre post : jsstring) :
  cut_at p s = Some (pre, post) -> s = pre ++ p ++ post.
Proof.
  revert pre. induction s as [|c t IH]; intros pre E; simpl in E; [discriminate|].
  destruct (starts_with p (c :: t)) eqn:S.
  - injection E as <- <-. now apply starts_with_app.
  - destruct (cut_at p t) as [[a b]|]; [|discriminate].
    injection E as <- <-. simpl. f_equal. now apply IH.
Qed.

Lemma replace_first_lit (p rep s : jsstring) :
  p <> [] ->
  replace_first (lit p) rep s =
  match cut_at p s with
  | Some (pre, post) => pre ++ rep ++ post
  | None => s
  end.
Proof.
  intros NE. induction s as [|c t IH]; [reflexivity|].
  cbn [replace_first cut_at]. unfold lit at 1.
  destruct (starts_with p (c :: t)) eqn:S.
  - destruct p as [|x p]; [contradiction|]. reflexivity.
  - rewrite IH. destruct (cut_at p t) as [[a b]|]; reflexivity.
Qed.

(** ** White space between tags *)

Lemma gap_free_cons (st : Gap) (c : N) (t : jsstring) :
  gap_free st (c :: t) =
  match gap_step st c with Some st' => gap_free st' t | None => false end.
Proof. unfold gap_free. cbn [gap_run]. now destruct (gap_step st c). Qed.

Lemma gap_step_weaken (st : Gap) (c : N) (st' : Gap) :
  gap_step st c = Some st' ->
  exists st'', gap_step Outside c = Some st''
               /\ (st'' = st' \/ st'' = Outside).
Proof.
  unfold gap_step. destruct (c =? 62)%N; [intros [= <-]; eauto|].
  destruct (is_space c); [destruct st; intros [= <-]; eauto|].
  destruct (c =? 60)%N; [destruct st; intros [= <-] || discriminate; eauto|].
  intros [= <-]; eauto.
Qed.

Lemma gap_free_weaken (s : jsstring) :
  forall st, gap_free st s = true -> gap_free Outside s = true.
Proof.
  induction s as [|c t IH]; intros st F; [reflexivity|].
  rewrite gap_free_cons in *.
  destruct (gap_step st c) as [st'|] eqn:E; [|discriminate].
  destruct (gap_step_weaken st c st' E) as (st'' & E' & [->| ->]); rewrite E'.
  - exact F.
  - now apply (IH st').
Qed.

Lemma gap_free_tail (st : Gap) (c : N) (t : jsstring) :
  gap_free st (c :: t) = true -> gap_free Outside t = true.
Proof.
  rewrite gap_free_cons. destruct (gap_step st c) as [st'|]; [|discriminate].
  apply gap_free_weaken.
Qed.

Lemma gap_free_skipn (n : nat) :
  forall st s, gap_free st s = true -> gap_free Outside (skipn n s) = true.
Proof.
  induction n as [|n IH]; intros st s F.
  - now apply gap_free_weaken in F.
  - destruct s as [|c t]; [reflexivity|]. cbn [skipn].
    apply gap_free_tail in F. now apply (IH Outside).
Qed.

Lemma gap_free_app (st : Gap) (a b : jsstring) :
  gap_free st (a ++ b) =
  match gap_run st a with Some st' => gap_free st' b | None => false end.
Proof.
  revert st. induction a as [|c a IH]; intros st; [reflexivity|].
  cbn [app gap_run]. rewrite gap_free_cons.
  destruct (gap_step st c) as [st'|]; [apply IH|reflexivity].
Qed.

Lemma neutral_step (st : Gap) (c : N) : neutral c = true -> gap_step st c = Some Outside.
Proof.
  unfold neutral, gap_step. intros N. apply negb_true_iff in N.
  apply orb_false_elim in N as [N N3]. apply orb_false_elim in N as [N1 N2].
  now rewrite N1, N2, N3.
Qed.

Lemma neutral_run (rep : jsstring) :
  rep <> [] -> forallb neutral rep = true ->
  forall st, gap_run st rep = Some Outside.
Proof.
  induction rep as [|c rep IH]; intros NE F st; [contradiction|].
  cbn [forallb] in F. apply andb_prop in F as [Fc Fr].
  cbn [gap_run]. rewrite (neutral_step st c Fc).
  destruct rep as [|c' rep]; [reflexivity|]. now apply IH.
Qed.

(** Replacing by a text without [>], [<] and white space completes no
    occurrence. *)
Lemma replace_from_gap_free (m : matcher) (rep : jsstring) :
  rep <> [] -> forallb neutral rep = true ->
  forall s skip st,
    gap_free st s = true ->
    gap_free (match skip with O => st | S _ => Outside end)
             (replace_from m rep skip s) = true.
Proof.
  intros NE Nr s. induction s as [|c t IH]; intros skip st F.
  - now destruct skip.
  - destruct skip as [|k].
    + rewrite replace_from_cons.
      assert (Keep : gap_free st (c :: replace_from m rep 0 t) = true).
      { rewrite gap_free_cons in *. destruct (gap_step st c) as [st'|]; [|discriminate].
        apply (IH O st' F). }
      destruct (m (c :: t)) as [[|n]|]; try exact Keep.
      rewrite gap_free_app, (neutral_run rep NE Nr).
      apply gap_free_tail in F. specialize (IH n Outside F). now destruct n.
    + cbn [replace_from]. apply gap_free_tail in F.
      specialize (IH k Outside F). now destruct k.
Qed.

Lemma gt_spaces_lt_cons (c : N) (t : jsstring) :
  gt_spaces_lt (c :: t) =
  if (c =? 62)%N then
    match fst (span is_space t) with
    | _ :: _ =>
        if gap_ahead t then Some (S (S (List.length (fst (span is_space t)))))
        else None
    | [] => None
    end
  else None.
Proof.
  unfold gt_spaces_lt, gap_ahead. destruct (c =? 62)%N; [|reflexivity].
  destruct (span is_space t) as [[|w ws] [|r rest]]; reflexivity.
Qed.

Lemma span_space_cons (c : N) (t : jsstring) :
  is_space c = true ->
  fst (span is_space (c :: t)) = c :: fst (span is_space t)
  /\ snd (span is_space (c :: t)) = snd (span is_space t).
Proof. intros S. cbn [span]. rewrite S. now destruct (span is_space t). Qed.

Lemma span_other_cons (c : N) (t : jsstring) :
  is_space c = false ->
  fst (span is_space (c :: t)) = [] /\ snd (span is_space (c :: t)) = c :: t.
Proof. intros S. cbn [span]. now rewrite S. Qed.

Lemma space_not_angle (c : N) :
  is_space c = true -> (c =? 62)%N = false /\ (c =? 60)%N = false.
Proof.
  intros S. split.
  - destruct (N.eqb_spec c 62) as [->|]; [discriminate S|reflexivity].
  - destruct (N.eqb_spec c 60) as [->|]; [discriminate S|reflexivity].
Qed.

(** The third replacement leaves no white space between [>] and [<]. *)
Lemma remove_gaps (n : nat) :
  forall s st,
    (List.length s <= n)%nat ->
    ahead_ok st s = true ->
    gap_free st (replace_from gt_spaces_lt (str "><") O s) = true.
Proof.
  induction n as [|n IH]; intros s st L A.
  - destruct s; [reflexivity|simpl in L; lia].
  - destruct s as [|c t]; [reflexivity|].
    cbn [List.length] in L.
    rewrite replace_from_cons, gt_spaces_lt_cons.
    destruct (N.eqb_spec c 62) as [->|NE].
    + (* a [>] *)
      destruct (fst (span is_space t)) as [|w ws] eqn:Ews.
      * rewrite gap_free_cons. cbn [gap_step]. change (62 =? 62)%N with true. cbv iota.
        apply IH; [lia|]. cbn [ahead_ok]. now rewrite Ews.
      * destruct (gap_ahead t) eqn:Ah.
        -- (* the occurrence is replaced *)
           pose proof (span_app is_space t) as Et. rewrite Ews in Et.
           unfold gap_ahead in Ah.
           destruct (snd (span is_space t)) as [|r rest] eqn:Er; [discriminate|].
           apply N.eqb_eq in Ah. subst r.
           assert (Sk : replace_from gt_spaces_lt (str "><")
                          (S (List.length (w :: ws))) t
                        = replace_from gt_spaces_lt (str "><") O rest).
           { rewrite Et at 1.
             change ((w :: ws) ++ 60%N :: rest) with ((w :: ws) ++ [60%N] ++ rest).
             rewrite app_assoc.
             replace (S (List.length (w :: ws)))
               with (List.length ((w :: ws) ++ [60%N]))
               by (rewrite List.length_app; simpl; lia).
             apply replace_from_skip. }
           rewrite Sk.
           change (str "><" ++ ?x) with (62%N :: 60%N :: x).
           rewrite !gap_free_cons.
           change (gap_step st 62) with (Some AfterGt).
           change (gap_step AfterGt 60) with (Some Outside). cbv iota.
           apply IH; [|reflexivity].
           assert (List.length t = List.length ((w :: ws) ++ 60%N :: rest)) by now rewrite <- Et.
           rewrite List.length_app in *. simpl in *. lia.
        -- rewrite gap_free_cons. cbn [gap_step]. change (62 =? 62)%N with true. cbv iota.
           apply IH; [lia|]. cbn [ahead_ok]. now rewrite Ews, Ah.
    + (* any other code unit is copied *)
      rewrite gap_free_cons. unfold gap_step.
      destruct (N.eqb_spec c 62) as [|_]; [contradiction|].
      destruct (is_space c) eqn:Sp.
      * destruct (span_space_cons c t Sp) as [Ef Es].
        destruct st.
        -- apply IH; [lia|reflexivity].
        -- apply IH; [lia|]. cbn [ahead_ok] in *. rewrite Ef in A.
           unfold gap_ahead in *. now rewrite Es in A.
        -- apply IH; [lia|]. cbn [ahead_ok] in *.
           unfold gap_ahead in *. now rewrite Es in A.
      * destruct (span_other_cons c t Sp) as [Ef Es].
        destruct (N.eqb_spec c 60) as [->|N60].
        -- destruct st; try (apply IH; [lia|reflexivity]).
           cbn [ahead_ok] in A. unfold gap_ahead in A. rewrite Es in A. discriminate A.
        -- apply IH; [lia|reflexivity].
Qed.

(** A text in which no occurrence is completed has none at any position. *)
Lemma gap_free_no_match_here (s : jsstring) :
  gap_free Outside s = true -> gt_spaces_lt s = None.
Proof.
  destruct s as [|c t]; [reflexivity|]. rewrite gt_spaces_lt_cons, gap_free_cons.
  unfold gap_step. destruct (c =? 62)%N; [|reflexivity]. intros F.
  assert (G : forall t st, st <> Outside -> gap_free st t = true ->
                           match fst (span is_space t) with
                           | [] => True
                           | _ :: _ => gap_ahead t = false
                           end
                           /\ (st = InSpaces -> gap_ahead t = false)).
  { clear. induction t as [|c t IH]; intros st NO F.
    - split; [exact I|reflexivity].
    - rewrite gap_free_cons in F. unfold gap_step in F.
      destruct (is_space c) eqn:Sp.
      + destruct (space_not_angle c Sp) as [E62 _]. rewrite E62 in F.
        destruct (span_space_cons c t Sp) as [Ef Es].
        assert (F' : gap_free InSpaces t = true) by (destruct st; [contradiction|exact F|exact F]).
        destruct (IH InSpaces ltac:(discriminate) F') as [_ A].
        rewrite Ef. unfold gap_ahead in *. rewrite Es. split; intros; now apply A.
      + destruct (span_other_cons c t Sp) as [Ef Es]. rewrite Ef.
        split; [exact I|]. intros ->. unfold gap_ahead. rewrite Es.
        destruct (c =? 62)%N eqn:E62.
        * apply N.eqb_eq in E62. subst c. reflexivity.
        * destruct (c =? 60)%N; [discriminate F|reflexivity]. }
  destruct (G t AfterGt ltac:(discriminate) F) as [A _].
  destruct (fst (span is_space t)); [reflexivity|]. now rewrite A.
Qed.

Lemma gap_free_no_match (s : jsstring) (i : nat) :
  gap_free Outside s = true -> gt_spaces_lt (skipn i s) = None.
Proof.
  intros F. apply gap_free_no_match_here. now apply (gap_free_skipn i Outside).
Qed.

(** ** Encoding as a data URL *)

Lemma below_16 (d : N) (P : N -> Prop) :
  (d < 16)%N ->
  P 0%N -> P 1%N -> P 2%N -> P 3%N -> P 4%N -> P 5%N -> P 6%N -> P 7%N ->
  P 8%N -> P 9%N -> P 10%N -> P 11%N -> P 12%N -> P 13%N -> P 14%N -> P 15%N ->
  P d.
Proof.
  intros L. intros.
  assert (C : (d = 0 \/ d = 1 \/ d = 2 \/ d = 3 \/ d = 4 \/ d = 5 \/ d = 6 \/ d = 7
               \/ d = 8 \/ d = 9 \/ d = 10 \/ d = 11 \/ d = 12 \/ d = 13
               \/ d = 14 \/ d = 15)%N) by lia.
  repeat (destruct C as [->|C]; [assumption|]). now subst d.
Qed.

Lemma hex_value_digit (d : N) : (d < 16)%N -> hex_value (hex_digit d) = Some d.
Proof. intros L. apply (below_16 d (fun d => hex_value (hex_digit d) = Some d) L); reflexivity. Qed.

Lemma upper_hex_value_digit (d : N) :
  (d < 16)%N -> upper_hex_value (hex_digit d) = Some d.
Proof. intros L. apply (below_16 d (fun d => upper_hex_value (hex_digit d) = Some d) L); reflexivity. Qed.

Lemma percent_decode_plain (hex : N -> option N) (c : N) (t : jsstring) :
  (c =? 37)%N = false ->
  percent_decode hex O (c :: t) = c :: percent_decode hex O t.
Proof.
  intros E. cbn [percent_decode]. destruct t as [|h [|l t]]; try reflexivity.
  now rewrite E.
Qed.

Lemma percent_decode_escape (hex : N -> option N) (x y : N) (h l : N) (t : jsstring) :
  hex h = Some x -> hex l = Some y ->
  percent_decode hex O (37%N :: h :: l :: t) = (16 * x + y)%N :: percent_decode hex O t.
Proof. intros Hh Hl. cbn [percent_decode]. rewrite Hh, Hl. reflexivity. Qed.

Lemma unreserved_not_percent (b : N) : is_unreserved b = true -> (b =? 37)%N = false.
Proof.
  intros U. destruct (N.eqb_spec b 37) as [->|]; [discriminate U|reflexivity].
Qed.

(** Escaping octets and decoding the escapes gives the octets back. *)
Lemma percent_roundtrip (hex : N -> option N) (bytes : list N) :
  (forall d, (d < 16)%N -> hex (hex_digit d) = Some d) ->
  octets bytes ->
  percent_decode hex O (flat_map percent_escape bytes) = bytes.
Proof.
  intros Hex O. induction O as [|b bytes Lb _ IH]; [reflexivity|].
  cbn [flat_map]. unfold percent_escape at 1.
  destruct (is_unreserved b) eqn:U.
  - cbn [app]. rewrite percent_decode_plain by now apply unreserved_not_percent.
    now rewrite IH.
  - cbn [app].
    rewrite (percent_decode_escape hex (b / 16) (b mod 16)).
    + rewrite IH. f_equal. symmetry. apply N.div_mod. discriminate.
    + apply Hex. apply N.Div0.div_lt_upper_bound; exact Lb.
    + apply Hex. apply N.mod_lt. discriminate.
Qed.

Lemma utf8_of_code_point_octets (cp : N) :
  (cp < 1114112)%N -> octets (utf8_of_code_point cp).
Proof.
  intros L. unfold utf8_of_code_point, octets.
  assert (M : forall a, (a mod 64 < 64)%N) by (intros a; apply N.mod_lt; discriminate).
  destruct (N.ltb_spec cp 128); [repeat constructor; lia|].
  destruct (N.ltb_spec cp 2048).
  { assert (cp / 64 < 32)%N by (apply N.Div0.div_lt_upper_bound; lia).
    pose proof (M cp). repeat constructor; lia. }
  destruct (N.ltb_spec cp 65536).
  { assert (cp / 4096 < 16)%N by (apply N.Div0.div_lt_upper_bound; lia).
    pose proof (M cp). pose proof (M (cp / 64)%N). repeat constructor; lia. }
  assert (cp / 262144 < 5)%N by (apply N.Div0.div_lt_upper_bound; lia).
  pose proof (M cp). pose proof (M (cp / 64)%N). pose proof (M (cp / 4096)%N).
  repeat constructor; lia.
Qed.

Lemma utf8_from_octets (s : jsstring) :
  well_formed s ->
  forall pending bytes,
    match pending with Some hi => is_high_surrogate hi = true | None => True end ->
    utf8_from pending s = Some bytes -> octets bytes.
Proof.
  intros W. induction W as [|c t Lc _ IH]; intros pending bytes P E.
  - destruct pending; [discriminate|]. injection E as <-. constructor.
  - cbn [utf8_from] in E. destruct pending as [hi|].
    + destruct (is_low_surrogate c) eqn:Lo; [|discriminate].
      destruct (utf8_from None t) as [rest|] eqn:R; [|discriminate].
      injection E as <-. apply Forall_app. split; [|now apply (IH None)].
      apply utf8_of_code_point_octets.
      unfold is_high_surrogate in P. unfold is_low_surrogate in Lo.
      apply andb_prop in P as [P1 P2]. apply andb_prop in Lo as [L1 L2].
      apply N.leb_le in P1, P2, L1, L2. lia.
    + destruct (is_high_surrogate c) eqn:Hi; [now apply (IH (Some c))|].
      destruct (is_low_surrogate c); [discriminate|].
      destruct (utf8_from None t) as [rest|] eqn:R; [|discriminate].
      injection E as <-. apply Forall_app. split; [|now apply (IH None)].
      apply utf8_of_code_point_octets. lia.
Qed.

Lemma btoa_octets (bytes : list N) : octets bytes -> btoa bytes = Some (base64 bytes).
Proof.
  intros O. unfold btoa.
  assert (F : forallb (fun c => (c <? 256)%N) bytes = true).
  { apply forallb_forall. intros b I. apply N.ltb_lt.
    unfold octets in O. rewrite List.Forall_forall in O. now apply O. }
  now rewrite F.
Qed.

Lemma svgToBase64_utf8 (s : jsstring) :
  well_formed s -> Offscreen.svgToBase64 s = data_url_of s.
Proof.
  intros W. unfold Offscreen.svgToBase64, data_url_of, encodeURIComponent.
  destruct (utf8 s) as [bytes|] eqn:U; [|reflexivity].
  pose proof (utf8_from_octets s W None bytes I U) as O.
  cbn [option_map]. unfold unescape.
  rewrite (percent_roundtrip hex_value bytes hex_value_digit O).
  now rewrite (btoa_octets bytes O).
Qed.

Lemma encode_data_url_utf8 (s : jsstring) :
  well_formed s -> encode_data_url s = data_url_of s.
Proof.
  intros W. unfold encode_data_url, data_url_of, encodeURIComponent.
  destruct (utf8 s) as [bytes|] eqn:U; [|reflexivity].
  pose proof (utf8_from_octets s W None bytes I U) as O.
  cbn [option_map].
  rewrite (percent_roundtrip upper_hex_value bytes upper_hex_value_digit O).
  now rewrite (btoa_octets bytes O).
Qed.

(** ** The traversal of the scanner *)

Lemma shadow_round_eq (g : bool) (e : Element) :
  shadow_round g e =
  (if guard g e then scanShadowDOM e else [])
  ++ flat_map (shadow_round g) (children e).
Proof. destruct e as [d cs sr fr]. reflexivity. Qed.

Lemma flat_map_subtree {A} (f : Element -> list A) (g : Element -> list A) (root : Root) :
  (forall e, g e = f e ++ flat_map g (children e)) ->
  flat_map g root = flat_map f (all_elements root).
Proof.
  intros G. unfold all_elements.
  induction root as [|e root IH]; [reflexivity|].
  cbn [flat_map]. rewrite flat_map_app, <- IH. f_equal.
  clear IH root. induction e as [d cs sr fr IHc _ _] using Element_induction.
  rewrite G. cbn [subtree flat_map children]. f_equal.
  induction IHc as [|c cs Pc _ IH]; [reflexivity|].
  cbn [flat_map]. rewrite flat_map_app, <- IH, <- Pc. reflexivity.
Qed.

Lemma shadow_loop (g : bool) (root : Root) :
  flat_map (shadow_round g) root =
  flat_map (fun el => if guard g el then scanShadowDOM el else []) (all_elements root).
Proof. apply flat_map_subtree. intros e. apply shadow_round_eq. Qed.

Lemma flat_map_if {A B} (p : A -> bool) (f : A -> list B) (l : list A) :
  flat_map (fun x => if p x then f x else []) l = flat_map f (List.filter p l).
Proof.
  induction l as [|x l IH]; [reflexivity|].
  cbn [flat_map List.filter]. destruct (p x); cbn [flat_map]; now rewrite IH.
Qed.

Lemma flat_map_filter_nil {A B} (q : A -> bool) (f : A -> list B) (l : list A) :
  (forall x, q x = false -> f x = []) ->
  flat_map f (List.filter q l) = flat_map f l.
Proof.
  intros Z. induction l as [|x l IH]; [reflexivity|].
  cbn [flat_map List.filter]. destruct (q x) eqn:Q; cbn [flat_map]; rewrite IH;
    [reflexivity|]. now rewrite (Z x Q).
Qed.

(** [scanShadowDOM] as the code writes it. *)
Lemma scanShadowDOM_eq (e : Element) :
  scanShadowDOM e =
  match shadowRoot e with
  | Some root =>
      scanRegularDOM root
      ++ flat_map scanShadowDOM
           (List.filter (fun el => instanceof_Element (data el) && has_shadowRoot el)
                        (all_elements root))
  | None => []
  end.
Proof.
  unfold scanShadowDOM at 1. destruct (shadowRoot e) as [root|]; [|reflexivity].
  f_equal. rewrite shadow_loop, flat_map_if.
  assert (E : List.filter (fun el => instanceof_Element (data el) && has_shadowRoot el)
                          (all_elements root)
              = List.filter has_shadowRoot (List.filter (guard true) (all_elements root))).
  { induction (all_elements root) as [|x l IH]; [reflexivity|].
    cbn [List.filter]. unfold guard at 1. cbn [negb orb].
    destruct (instanceof_Element (data x)); cbn [andb List.filter];
      [destruct (has_shadowRoot x)|]; now rewrite IH. }
  rewrite E. symmetry. apply flat_map_filter_nil.
  intros x Q. unfold scanShadowDOM, has_shadowRoot in *.
  now destruct (shadowRoot x).
Qed.

Lemma guard_of (g : bool) (el : Element) :
  (g = true -> instanceof_Element (data el) = true) -> guard g el = true.
Proof. unfold guard. destruct g; simpl; auto. Qed.

Lemma guard_inv (g : bool) (el : Element) :
  guard g el = true -> g = true -> instanceof_Element (data el) = true.
Proof. unfold guard. intros G ->. exact G. Qed.

Lemma in_shadow_loop (g : bool) (outer : Root) (x : Element) :
  In x (flat_map (shadow_round g) outer) <->
  exists host, In host (all_elements outer) /\ guard g host = true
               /\ In x (scanShadowDOM host).
Proof.
  rewrite shadow_loop, in_flat_map. split.
  - intros (host & I & X). exists host. destruct (guard g host); [auto|destruct X].
  - intros (host & I & G & X). exists host. rewrite G. auto.
Qed.

Lemma in_scanShadowDOM (host : Element) (x : Element) :
  In x (scanShadowDOM host) <->
  exists root, shadowRoot host = Some root
               /\ (In x (scanRegularDOM root) \/ In x (flat_map (shadow_round true) root)).
Proof.
  unfold scanShadowDOM. destruct (shadowRoot host) as [root|].
  - rewrite in_app_iff. split; [intros X; now exists root|].
    intros (r & E & X). now injection E as <-.
  - split; [intros []|]. intros (r & E & _). discriminate.
Qed.

Lemma shadow_scope_complete (g : bool) (outer root : Root) (x : Element) :
  shadow_scope g outer root -> In x (scanRegularDOM root) ->
  In x (flat_map (shadow_round g) outer).
Proof.
  intros S X. induction S as [g outer host root I G E|g outer host mid root I G E S IH].
  - apply in_shadow_loop. exists host. split; [exact I|]. split; [now apply guard_of|].
    apply in_scanShadowDOM. exists root. auto.
  - apply in_shadow_loop. exists host. split; [exact I|]. split; [now apply guard_of|].
    apply in_scanShadowDOM. exists mid. auto.
Qed.

Lemma shadow_scope_sound_element :
  forall e, forall g x,
    In x (shadow_round g e) ->
    exists root, shadow_scope g [e] root /\ In x (scanRegularDOM root).
Proof.
  (* by the size of the tree below [e], shadow trees included *)
  intros e. induction e as [d cs sr fr IHc IHs _] using Element_induction.
  intros g x X. rewrite shadow_round_eq in X. apply in_app_iff in X as [X|X].
  - destruct (guard g (Node d cs sr fr)) eqn:G; [|destruct X].
    apply in_scanShadowDOM in X as (root & E & X). cbn [shadowRoot] in E. subst sr.
    assert (Self : In (Node d cs (Some root) fr) (all_elements [Node d cs (Some root) fr]))
      by (left; reflexivity).
    destruct X as [X|X].
    + exists root. split; [|exact X].
      apply (scope_host g _ (Node d cs (Some root) fr) root Self);
        [now apply guard_inv|reflexivity].
    + apply in_flat_map in X as (r & Ir & X).
      rewrite List.Forall_forall in IHs.
      destruct (IHs r Ir true x X) as (root' & S & X').
      exists root'. split; [|exact X'].
      apply (scope_deeper g _ (Node d cs (Some root) fr) root root' Self);
        [now apply guard_inv|reflexivity|].
      (* from [r] to the whole root *)
      clear - S Ir. 
      assert (Sub : forall h, In h (all_elements [r]) -> In h (all_elements root)).
      { intros h Ih. unfold all_elements in *. apply in_flat_map.
        exists r. split; [exact Ir|]. cbn [flat_map] in Ih. now rewrite app_nil_r in Ih. }
      inversion S; subst; [eapply scope_host|eapply scope_deeper]; eauto.
  - cbn [children] in X. apply in_flat_map in X as (c & Ic & X).
    rewrite List.Forall_forall in IHc.
    destruct (IHc c Ic g x X) as (root' & S & X').
    exists root'. split; [|exact X'].
    assert (Sub : forall h, In h (all_elements [c]) ->
                            In h (all_elements [Node d cs sr fr])).
    { intros h Ih. unfold all_elements in *. cbn [flat_map subtree] in *.
      rewrite app_nil_r in *. right. apply in_flat_map. now exists c. }
    inversion S; subst; [eapply scope_host|eapply scope_deeper]; eauto.
Qed.

Lemma shadow_scope_sound (g : bool) (outer : Root) (x : Element) :
  In x (flat_map (shadow_round g) outer) ->
  exists root, shadow_scope g outer root /\ In x (scanRegularDOM root).
Proof.
  intros X. apply in_flat_map in X as (e & Ie & X).
  destruct (shadow_scope_sound_element e g x X) as (root & S & X').
  exists root. split; [|exact X'].
  assert (Sub : forall h, In h (all_elements [e]) -> In h (all_elements outer)).
  { intros h Ih. unfold all_elements in *. apply in_flat_map.
    exists e. split; [exact Ie|]. cbn [flat_map] in Ih. now rewrite app_nil_r in Ih. }
  inversion S; subst; [eapply scope_host|eapply scope_deeper]; eauto.
Qed.

Lemma in_scanRegularDOM (root : Root) (x : Element) :
  In x (scanRegularDOM root) <->
  In x (all_elements root) /\ localName (data x) = str "svg"
  /\ instanceof_SVGElement (data x) = true.
Proof.
  unfold scanRegularDOM, querySelectorAll. rewrite !filter_In, str_eqb_eq. tauto.
Qed.

(** What a traversal returns: the [svg] elements of the trees it looks
    into. *)
Lemma in_traverse (document : Root) (x : Element) :
  In x (traverse document) <->
  exists root, scanned document root /\ In x (scanRegularDOM root).
Proof.
  unfold traverse, scanIframes. rewrite !in_app_iff. split.
  - intros [X|[X|X]].
    + exists document. split; [constructor|exact X].
    + apply shadow_scope_sound in X as (root & S & X).
      exists root. split; [now apply scanned_shadow|exact X].
    + apply in_flat_map in X as (iframe & I & X).
      destruct (contentDocument iframe) as [iframeDoc|] eqn:E; [|destruct X].
      apply in_app_iff in X as [X|X].
      * exists iframeDoc. split; [now apply (scanned_frame _ iframe)|exact X].
      * apply shadow_scope_sound in X as (root & S & X).
        exists root. split; [now apply (scanned_frame_shadow _ iframe iframeDoc)|exact X].
  - intros (root & S & X). destruct S as [|root S|iframe iframeDoc I E|iframe iframeDoc root I E S].
    + now left.
    + right; left. now apply (shadow_scope_complete false document root).
    + right; right. apply in_flat_map. exists iframe. split; [exact I|].
      rewrite E. apply in_app_iff. now left.
    + right; right. apply in_flat_map. exists iframe. split; [exact I|].
      rewrite E. apply in_app_iff. right.
      now apply (shadow_scope_complete true iframeDoc root).
Qed.

(** *** One record per element *)

Section Counting.
Variable u : nat.
#[local] Abbreviation occurrences := (Content.occurrences u).

Lemma occurrences_app (a b : list Element) :
  occurrences (a ++ b) = (occurrences a + occurrences b)%nat.
Proof. unfold occurrences. now rewrite List.map_app, count_occ_app. Qed.

Lemma occurrences_filter (p : Element -> bool) (l : list Element) :
  (occurrences (List.filter p l) <= occurrences l)%nat.
Proof.
  unfold occurrences. induction l as [|x l IH]; [reflexivity|].
  cbn [List.filter]. destruct (p x); cbn [List.map count_occ];
    destruct (Nat.eq_dec (uid (data x)) u); lia.
Qed.

Lemma occurrences_scanRegularDOM (root : Root) :
  (occurrences (scanRegularDOM root) <= occurrences (all_elements root))%nat.
Proof.
  unfold scanRegularDOM, querySelectorAll.
  etransitivity; apply occurrences_filter.
Qed.

Lemma occurrences_flat_map (f g : Element -> list Element) (l : list Element) :
  List.Forall (fun e => (occurrences (f e) <= occurrences (g e))%nat) l ->
  (occurrences (flat_map f l) <= occurrences (flat_map g l))%nat.
Proof.
  induction 1 as [|e l Le _ IH]; [reflexivity|].
  cbn [flat_map]. rewrite !occurrences_app. lia.
Qed.

Lemma scanIframes_rounds (document : Root) :
  scanIframes document = flat_map frame_round document.
Proof.
  unfold scanIframes, querySelectorAll. fold scan_frame.
  rewrite <- flat_map_if. symmetry.
  apply (flat_map_subtree
           (fun e => if str_eqb (localName (data e)) (str "iframe")
                     then scan_frame e else [])).
  now intros [d cs sr fr].
Qed.

(** What the three scans find at [e] and below is part of the page below
    [e]. *)
Lemma occurrences_bound (e : Element) :
  forall g,
    (occurrences (subtree e) + occurrences (shadow_round g e)
     + occurrences (frame_round e)
     <= occurrences (page_elements e))%nat.
Proof.
  induction e as [d cs sr fr IHc IHs IHf] using Element_induction. intros g.
  assert (Forest : forall (l : list Element) g',
             List.Forall (fun e => forall g,
                              (occurrences (subtree e) + occurrences (shadow_round g e)
                               + occurrences (frame_round e)
                               <= occurrences (page_elements e))%nat) l ->
             (occurrences (all_elements l) + occurrences (flat_map (shadow_round g') l)
              + occurrences (flat_map frame_round l)
              <= occurrences (flat_map page_elements l))%nat).
  { intros l g' F. unfold all_elements. induction F as [|x l Px _ IH]; [reflexivity|].
    cbn [flat_map]. rewrite !occurrences_app. specialize (Px g'). lia. }
  cbn [subtree shadow_round frame_round page_elements].
  fold (all_elements cs).
  change (occurrences (Node d cs sr fr :: ?l))
    with (occurrences ([Node d cs sr fr] ++ l)).
  rewrite !occurrences_app.
  pose proof (Forest cs g IHc) as Bc.
  assert (Bs : (occurrences
                  (if negb g || instanceof_Element d
                   then match sr with
                        | Some root => scanRegularDOM root ++ flat_map (shadow_round true) root
                        | None => []
                        end
                   else [])
                <= occurrences match sr with
                               | Some root => flat_map page_elements root
                               | None => []
                               end)%nat).
  { destruct sr as [root|]; [|destruct (negb g || instanceof_Element d); reflexivity].
    pose proof (Forest root true IHs) as B.
    pose proof (occurrences_scanRegularDOM root) as R.
    destruct (negb g || instanceof_Element d); [|unfold occurrences at 1; simpl; lia].
    rewrite occurrences_app. lia. }
  assert (Bf : (occurrences
                  (if str_eqb (localName d) (str "iframe")
                   then scan_frame (Node d cs sr fr) else [])
                <= occurrences match fr with
                               | Some doc => flat_map page_elements doc
                               | None => []
                               end)%nat).
  { unfold scan_frame. cbn [contentDocument].
    destruct fr as [doc|];
      [|destruct (str_eqb (localName d) (str "iframe")); reflexivity].
    pose proof (Forest doc true IHf) as B.
    pose proof (occurrences_scanRegularDOM doc) as R.
    destruct (str_eqb (localName d) (str "iframe"));
      [|unfold occurrences at 1; simpl; lia].
    rewrite occurrences_app. lia. }
  lia.
Qed.

Lemma occurrences_traverse (document : Root) :
  (occurrences (traverse document)
   <= occurrences (flat_map page_elements document))%nat.
Proof.
  unfold traverse. rewrite scanIframes_rounds, !occurrences_app.
  pose proof (occurrences_scanRegularDOM document) as R.
  assert (B : (occurrences (all_elements document)
               + occurrences (flat_map (shadow_round false) document)
               + occurrences (flat_map frame_round document)
               <= occurrences (flat_map page_elements document))%nat).
  { unfold all_elements. induction document as [|x l IH]; [reflexivity|].
    cbn [flat_map]. rewrite !occurrences_app.
    pose proof (occurrences_bound x false).
    pose proof (occurrences_scanRegularDOM l). lia. }
  lia.
Qed.

End Counting.

(** With identities that are distinct over the page, no element is returned
    twice. *)
Lemma traverse_NoDup (document : Root) :
  List.NoDup (List.map (fun e => uid (data e)) (flat_map page_elements document)) ->
  List.NoDup (List.map (fun e => uid (data e)) (traverse document)).
Proof.
  intros ND. apply (NoDup_count_occ Nat.eq_dec). intros u.
  rewrite (NoDup_count_occ Nat.eq_dec) in ND. specialize (ND u).
  pose proof (occurrences_traverse u document) as B. unfold occurrences in B. lia.
Qed.

(** *** The records of the response *)

Section Records.
Context {host : Engine}.

Lemma svgData_from_length (svgElements : list Element) (start : nat) :
  List.length (svgData_from start svgElements) = List.length svgElements.
Proof.
  revert start. induction svgElements as [|svg rest IH]; intros start;
    [reflexivity|]. cbn [svgData_from List.length]. now rewrite IH.
Qed.

Lemma svgData_from_nth (svgElements : list Element) :
  forall (start i : nat) (item : SVGItem),
    nth_error (svgData_from start svgElements) i = Some item ->
    id item = (start + i)%nat
    /\ exists svg,
        nth_error svgElements i = Some svg
        /\ item_outerHTML item = outerHTML (data svg)
        /\ dimensions item = getSVGDimensions svg.
Proof.
  induction svgElements as [|svg rest IH]; intros start i item E.
  - destruct i; discriminate E.
  - destruct i as [|i]; cbn [svgData_from nth_error] in E.
    + injection E as <-. split; [cbn [id]; lia|]. exists svg. repeat split.
    + destruct (IH (S start) i item E) as (Id & svg' & N & O & D).
      split; [lia|]. exists svg'. repeat split; assumption.
Qed.

Lemma traverse_code_shape (document : Root) :
  traverse document =
  scanRegularDOM document
  ++ flat_map scanShadowDOM (all_elements document)
  ++ flat_map
       (fun iframe =>
          match contentDocument iframe with
          | Some iframeDoc =>
              scanRegularDOM iframeDoc
              ++ flat_map (fun el => if instanceof_Element (data el)
                                     then scanShadowDOM el else [])
                          (all_elements iframeDoc)
          | None => []
          end)
       (querySelectorAll (str "iframe") document).
Proof.
  unfold traverse, scanIframes. rewrite shadow_loop. do 2 f_equal.
  apply flat_map_ext. intros iframe.
  destruct (contentDocument iframe) as [iframeDoc|]; [|reflexivity].
  now rewrite shadow_loop.
Qed.

End Records.

(** *** Frames *)

Lemma filter_nil {A : Type} (f : A -> bool) (l : list A) :
  (forall x, In x l -> f x = false) -> List.filter f l = [].
Proof.
  induction l as [|a l IH]; intros F; [reflexivity|].
  cbn. rewrite (F a) by now left. apply IH. intros x I. apply F. now right.
Qed.

Lemma flat_map_nil {A B : Type} (f : A -> list B) (l : list A) :
  (forall x, In x l -> f x = []) -> flat_map f l = [].
Proof.
  induction l as [|a l IH]; intros F; [reflexivity|].
  cbn. rewrite (F a) by now left. cbn. apply IH. intros x I. apply F. now right.
Qed.

Lemma subtree_page_elements (e : Element) :
  forall x, In x (subtree e) -> In x (page_elements e).
Proof.
  induction e as [d cs sr fr IHc _ _] using Element_induction.
  intros x I. cbn [subtree] in I. cbn [page_elements].
  destruct I as [<-|I]; [now left|]. right.
  apply in_app_iff. left.
  apply in_flat_map in I as (c & Ic & I). apply in_flat_map. exists c.
  split; [exact Ic|]. rewrite List.Forall_forall in IHc. now apply IHc.
Qed.

Lemma all_elements_page_elements (root : Root) (x : Element) :
  In x (all_elements root) -> In x (flat_map page_elements root).
Proof.
  unfold all_elements. intros I. apply in_flat_map in I as (e & Ie & I).
  apply in_flat_map. exists e. split; [exact Ie|]. now apply subtree_page_elements.
Qed.

(** A loop of [scanShadowDOM] over elements that fail its
    [instanceof Element] test enters no shadow root. *)
Lemma shadow_round_foreign (e : Element) :
  (forall x, In x (subtree e) -> instanceof_Element (data x) = false) ->
  shadow_round true e = [].
Proof.
  induction e as [d cs sr fr IHc _ _] using Element_induction.
  intros F. cbn [shadow_round].
  assert (Fd : instanceof_Element d = false) by (apply (F (Node d cs sr fr)); now left).
  rewrite Fd. cbn [negb orb app].
  apply flat_map_nil. intros c Ic. rewrite List.Forall_forall in IHc.
  apply (IHc c Ic). intros x Ix. apply F. right.
  apply in_flat_map. now exists c.
Qed.

(** What [scanIframes] pushes for a frame whose document is of another
    realm: nothing. *)
Lemma scan_frame_foreign (iframe : Element) (iframeDoc : Root) :
  contentDocument iframe = Some iframeDoc ->
  forallb of_another_realm (flat_map page_elements iframeDoc) = true ->
  scanRegularDOM iframeDoc = [] /\ flat_map (shadow_round true) iframeDoc = [].
Proof.
  intros E F. rewrite forallb_forall in F.
  assert (G : forall x, In x (all_elements iframeDoc) ->
                        instanceof_Element (data x) = false
                        /\ instanceof_SVGElement (data x) = false).
  { intros x I. apply all_elements_page_elements, F in I.
    unfold of_another_realm in I. apply andb_true_iff in I as [I1 I2].
    now rewrite negb_true_iff in I1, I2. }
  split.
  - unfold scanRegularDOM. apply filter_nil. intros x I.
    unfold querySelectorAll in I. apply filter_In in I as [I _]. now apply G.
  - apply flat_map_nil. intros e Ie. apply shadow_round_foreign.
    intros x Ix. apply G. unfold all_elements. apply in_flat_map. now exists e.
Qed.

Lemma scanIframes_foreign (document : Root) :
  frames_foreign document = true -> scanIframes document = [].
Proof.
  intros F. unfold frames_foreign in F. rewrite forallb_forall in F.
  unfold scanIframes. apply flat_map_nil. intros iframe I.
  unfold querySelectorAll in I. apply filter_In in I as [I _].
  apply all_elements_page_elements in I. specialize (F iframe I).
  destruct (contentDocument iframe) as [iframeDoc|] eqn:E; [|reflexivity].
  destruct (scan_frame_foreign iframe iframeDoc E F) as [-> ->]. reflexivity.
Qed.

Lemma scanSVGElements_miss (document : Root) (now : Z) (c : Cache) :
  cachedElements c = None \/ CACHE_DURATION <= now - lastScanTime c ->
  fst (scanSVGElements document now c) = traverse document.
Proof.
  intros Miss. unfold scanSVGElements. destruct Miss as [N|Old].
  - now rewrite N.
  - destruct (cachedElements c); [|reflexivity].
    destruct (Z.ltb_spec (now - lastScanTime c) CACHE_DURATION); [lia|reflexivity].
Qed.

(** Nodes that read as the page has them are recorded as the page has
    them. *)
Lemma read_now_page (live : nat -> ElementData) (svgElements : list Element) :
  (forall e, In e svgElements -> live (uid (data e)) = data e) ->
  List.map (read_now live) svgElements = svgElements.
Proof.
  induction svgElements as [|e l IH]; intros F; [reflexivity|].
  cbn [List.map]. rewrite IH by (intros x I; apply F; now right).
  f_equal. specialize (F e (or_introl eq_refl)). destruct e as [d cs sr fr].
  cbn in *. now rewrite F.
Qed.

Lemma svgData_from_ids (svgElements : list Element) {host : Engine} :
  forall start : nat,
    List.map id (svgData_from start svgElements)
    = List.seq start (List.length svgElements).
Proof.
  induction svgElements as [|svg rest IH]; intros start; [reflexivity|].
  cbn [svgData_from List.map List.length List.seq id]. now rewrite IH.
Qed.

Section FrameRecords.
Context {host : Engine}.

(** C7, what the code does with a frame.  On a page as a browser builds
    it, where the elements of a frame's document belong to the realm of
    the frame, [scanIframes] walks the documents of the same-origin frames
    and pushes nothing: every [svg] there fails [instanceof SVGElement],
    and every shadow host there fails [instanceof Element].  A request
    that is not answered from the cache is therefore answered with one
    record for each [svg] of the scanner's realm in the document and in
    the open shadow trees at any depth below it, in the order of the
    traversal and numbered from 0, and with no record for an [svg] in a
    frame. *)
Theorem C7_frame_svg_unrecorded
        (document : Root) (live : nat -> ElementData) (now : Z) (c : Cache) :
  frames_foreign document = true ->
  cachedElements c = None \/ CACHE_DURATION <= now - lastScanTime c ->
  (forall e, In e (traverse document) -> live (uid (data e)) = data e) ->
  List.NoDup (List.map (fun e => uid (data e)) (flat_map page_elements document)) ->
  scanIframes document = []
  /\ traverse document
     = scanRegularDOM document ++ flat_map (shadow_round false) document
  /\ fst (onMessage (str "scanSVG") document live now c)
     = Some (svgData_from 0 (traverse document))
  /\ List.map id (svgData_from 0 (traverse document))
     = List.seq 0 (List.length (traverse document))
  /\ List.NoDup (List.map (fun e => uid (data e)) (traverse document))
  /\ (forall x : Element,
         In x (traverse document) <->
         exists root,
           (root = document \/ shadow_scope false document root)
           /\ In x (all_elements root)
           /\ localName (data x) = str "svg"
           /\ instanceof_SVGElement (data x) = true)
  /\ (forall (iframe : Element) (iframeDoc : Root),
         In iframe (querySelectorAll (str "iframe") document) ->
         contentDocument iframe = Some iframeDoc ->
         scanRegularDOM iframeDoc = []
         /\ flat_map (shadow_round true) iframeDoc = []).
Proof.
  intros F Miss Live ND.
  pose proof (scanIframes_foreign document F) as NoFrames.
  assert (T : traverse document
              = scanRegularDOM document ++ flat_map (shadow_round false) document).
  { unfold traverse. rewrite NoFrames. f_equal. apply List.app_nil_r. }
  split; [exact NoFrames|]. split; [exact T|].
  split.
  { unfold onMessage. rewrite str_eqb_refl.
    pose proof (scanSVGElements_miss document now c Miss) as S.
    destruct (scanSVGElements document now c) as [l c'].
    cbn [fst] in *. subst l. now rewrite (read_now_page live _ Live). }
  split.
  { apply svgData_from_ids. }
  split; [now apply traverse_NoDup|].
  split.
  { intros x. split.
    - intros I. rewrite T in I. apply in_app_iff in I as [I|I].
      + exists document. split; [now left|]. now apply in_scanRegularDOM.
      + apply shadow_scope_sound in I as (root & S & X).
        exists root. split; [now right|]. now apply in_scanRegularDOM.
    - intros (root & [->|S] & X). 
      + apply in_traverse. exists document. split; [constructor|].
        now apply in_scanRegularDOM.
      + apply in_traverse. exists root. split; [now apply scanned_shadow|].
        now apply in_scanRegularDOM. }
  intros iframe iframeDoc I E.
  apply (scan_frame_foreign iframe iframeDoc E).
  unfold frames_foreign in F. rewrite forallb_forall in F.
  unfold querySelectorAll in I. apply filter_In in I as [I _].
  apply all_elements_page_elements in I. specialize (F iframe I).
  now rewrite E in F.
Qed.

End FrameRecords.

(** C7 on a page with an [svg] in the document, one three shadow roots
    deep and one in a frame: two records, none for the [svg] in the
    frame. *)
Lemma C7_witness :
  frames_foreign Instances.deep_page = true
  /\ In (Instances.framed_svg 6) (flat_map page_elements Instances.deep_page)
  /\ traverse Instances.deep_page = [Instances.plain_svg 0; Instances.plain_svg 4]
  /\ option_map (List.map id)
       (fst (onMessage (host := Instances.wide_engine) (str "scanSVG")
                       Instances.deep_page Instances.deep_page_live 5000 initial_cache))
     = Some [0; 1]%nat.
Proof.
  assert (F : frames_foreign Instances.deep_page = true) by reflexivity.
  assert (ND : List.NoDup (List.map (fun e => uid (data e))
                                    (flat_map page_elements Instances.deep_page))).
  { apply NoDup_ListNoDup, (bool_decide_unpack _). vm_compute. exact I. }
  assert (Live : forall e, In e (traverse Instances.deep_page) ->
                           Instances.deep_page_live (uid (data e)) = data e).
  { intros e [<-|[<-|[]]]; reflexivity. }
  split; [exact F|]. split; [do 6 right; now left|]. split; [reflexivity|].
  destruct (C7_frame_svg_unrecorded (host := Instances.wide_engine)
              Instances.deep_page Instances.deep_page_live 5000 initial_cache
              F (or_introl eq_refl) Live ND) as (_ & _ & R & Ids & _).
  rewrite R. cbn [option_map]. now rewrite Ids.
Defined.

(** ** Normalizing and encoding the markup *)

Lemma cleanSvgString_eq (svgString : jsstring) :
  cleanSvgString svgString =
  replace_first (lit (str "<svg")) (str "<svg" ++ xmlns_declaration)
                (before_xmlns svgString).
Proof. reflexivity. Qed.

Lemma cleanSvgString_no_newline (svgString : jsstring) :
  List.Forall (fun c => c <> 10%N) (cleanSvgString svgString).
Proof.
  rewrite cleanSvgString_eq. unfold before_xmlns, replace_all.
  apply replace_first_Forall_keep; [repeat constructor; discriminate|].
  do 4 (apply replace_from_Forall_keep; [repeat constructor; discriminate|]).
  apply replace_from_Forall_made; [repeat constructor; discriminate|].
  intros c t NoMatch ->. apply (NoMatch O). reflexivity.
Qed.

Lemma cleanSvgString_plain_spaces (svgString : jsstring) :
  List.Forall (fun c => is_space c = true -> c = 32%N) (cleanSvgString svgString).
Proof.
  rewrite cleanSvgString_eq. unfold before_xmlns, replace_all.
  apply replace_first_Forall_keep;
    [repeat constructor; vm_compute; congruence|].
  do 3 (apply replace_from_Forall_keep;
        [repeat constructor; vm_compute; congruence|]).
  apply replace_from_Forall_made; [repeat constructor; reflexivity|].
  intros c t NoMatch Sp. exfalso. rewrite spaces_cons, Sp in NoMatch.
  now apply (NoMatch (List.length (fst (span is_space t)))).
Qed.

Lemma cleanSvgString_no_double_space (svgString : jsstring) :
  no_double_space false (cleanSvgString svgString) = true.
Proof.
  rewrite cleanSvgString_eq. unfold before_xmlns.
  apply replace_first_no_double; try reflexivity.
  apply (replace_from_no_double _ (str "xmlns") eq_refl eq_refl eq_refl _ O false).
  apply (replace_from_no_double _ (str "href") eq_refl eq_refl eq_refl _ O false).
  apply (replace_from_no_double _ (str "><") eq_refl eq_refl eq_refl _ O false).
  apply collapse_spaces.
Qed.

Lemma cleanSvgString_xmlns (svgString : jsstring) :
  cleanSvgString svgString =
  match cut_at (str "<svg") (before_xmlns svgString) with
  | Some (pre, post) => pre ++ str "<svg" ++ xmlns_declaration ++ post
  | None => before_xmlns svgString
  end.
Proof.
  rewrite cleanSvgString_eq, replace_first_lit by discriminate.
  destruct (cut_at (str "<svg") (before_xmlns svgString)) as [[pre post]|];
    [|reflexivity].
  now rewrite <- app_assoc.
Qed.

Lemma gap_free_declaration (pre post : jsstring) :
  gap_free Outside (pre ++ str "<svg" ++ post) = true ->
  gap_free Outside (pre ++ str "<svg" ++ xmlns_declaration ++ post) = true.
Proof.
  intros F. rewrite gap_free_app in F |- *.
  destruct (gap_run Outside pre) as [st|]; [|discriminate F].
  rewrite gap_free_app in F |- *.
  assert (R : gap_run st (str "<svg") = Some Outside \/ gap_run st (str "<svg") = None)
    by (destruct st; [left|left|right]; reflexivity).
  destruct R as [R|R]; rewrite R in F |- *; [|discriminate F].
  rewrite gap_free_app.
  now change (gap_run Outside xmlns_declaration) with (Some Outside).
Qed.

Lemma cleanSvgString_gap_free (svgString : jsstring) :
  gap_free Outside (cleanSvgString svgString) = true.
Proof.
  assert (B : gap_free Outside (before_xmlns svgString) = true).
  { unfold before_xmlns, replace_all.
    apply (replace_from_gap_free _ (str "xmlns") ltac:(discriminate) eq_refl _ O Outside).
    apply (replace_from_gap_free _ (str "href") ltac:(discriminate) eq_refl _ O Outside).
    apply (remove_gaps _ _ Outside (Nat.le_refl _)). reflexivity. }
  rewrite cleanSvgString_xmlns.
  destruct (cut_at (str "<svg") (before_xmlns svgString)) as [[pre post]|] eqn:E;
    [|exact B].
  apply gap_free_declaration. now rewrite <- (cut_at_app _ _ _ _ E).
Qed.

Lemma cleanSvgString_no_gap (svgString : jsstring) (i : nat) :
  gt_spaces_lt (skipn i (cleanSvgString svgString)) = None.
Proof. apply gap_free_no_match, cleanSvgString_gap_free. Qed.

Section Encoding.
Context {host : Engine}.

(** C2, as the code has it.  [cleanSvgString] replaces every newline by a
    space, every run of white space by one space, white space between [>]
    and [<] by nothing, [xlink:href] by [href] and [xmlns:xlink] by
    [xmlns], and puts the default [xmlns] declaration after the first
    ["<svg"]: its result has no newline, no white space other than single
    spaces, no white space between a [>] and a [<], and the declaration
    right after the first ["<svg"] of the text so far.  The panel parses this text, overwrites the viewport attributes
    and loads the image from the base64 data URL of the serialized element;
    the offscreen document loads the image from the base64 data URL of the
    markup as it was received. *)
Theorem C2_normalize_and_encode (svgString : jsstring) (w h : number) :
  well_formed svgString ->
  (List.Forall (fun c => c <> 10%N) (cleanSvgString svgString)
   /\ List.Forall (fun c => is_space c = true -> c = 32%N) (cleanSvgString svgString)
   /\ no_double_space false (cleanSvgString svgString) = true
   /\ (forall i : nat, gt_spaces_lt (skipn i (cleanSvgString svgString)) = None)
   /\ cleanSvgString svgString =
      match cut_at (str "<svg") (before_xmlns svgString) with
      | Some (pre, post) => pre ++ str "<svg" ++ xmlns_declaration ++ post
      | None => before_xmlns svgString
      end)
  /\ cleanSvgString
       (str "<svg width='1'>" ++ [10%N]
        ++ str "   <g  xlink:href='#a' xmlns:xlink='u'>  </g>" ++ [10%N]
        ++ str "</svg>")
     = str "<svg xmlns=" ++ quote ++ str "http://www.w3.org/2000/svg" ++ quote
       ++ str " width='1'><g href='#a' xmlns='u'></g></svg>"
  /\ (forall root : XMLElement,
         parseFromString (cleanSvgString svgString) = Some root ->
         well_formed (serializeToString (set_viewport root w h)) ->
         svgToDataUrl svgString w h =
         match data_url_of (serializeToString (set_viewport root w h)) with
         | None => Reject "SVG 处理失败"
         | Some dataUrl =>
             match loadImage dataUrl with
             | None => Reject "SVG 图片加载失败"
             | Some img =>
                 if getContext2d then
                   Resolve (toDataURL {| canvas_width := w; canvas_height := h;
                                         canvas_ops := SidePanel.draw img w h |})
                 else Reject "无法创建 canvas context"
             end
         end)
  /\ Offscreen.svgToBase64 svgString = data_url_of svgString
  /\ Offscreen.processImage svgString w h =
     match data_url_of svgString with
     | None => Reject "URI malformed"
     | Some svgBase64 =>
         match loadImage svgBase64 with
         | None => Reject "SVG 加载失败"
         | Some img =>
             if getContext2d then
               Resolve (toDataURL {| canvas_width := w; canvas_height := h;
                                     canvas_ops := Offscreen.draw img w h |})
             else Reject "无法创建 canvas context"
         end
     end.
Proof.
  intros W.
  split.
  { split; [apply cleanSvgString_no_newline|].
    split; [apply cleanSvgString_plain_spaces|].
    split; [apply cleanSvgString_no_double_space|].
    split; [intros i; apply cleanSvgString_no_gap|apply cleanSvgString_xmlns]. }
  split; [vm_compute; reflexivity|].
  split.
  { intros root P Ws. rewrite (svgToDataUrl_parsed _ _ _ _ P).
    now rewrite (encode_data_url_utf8 _ Ws). }
  split; [now apply svgToBase64_utf8|].
  unfold Offscreen.processImage. now rewrite (svgToBase64_utf8 _ W).
Qed.

End Encoding.

Lemma C2_witness :
  well_formed (str "<svg/>")
  /\ Offscreen.svgToBase64 (str "<svg/>") = data_url_of (str "<svg/>")
  /\ no_double_space false (cleanSvgString (str "<svg/>")) = true.
Proof.
  assert (W : well_formed (str "<svg/>")) by (repeat constructor).
  split; [exact W|].
  destruct (C2_normalize_and_encode (host := Instances.wide_engine)
              (str "<svg/>") (of_Z 16) (of_Z 16) W)
    as ((_ & _ & ND & _ & _) & _ & _ & B & _).
  split; [exact B|exact ND].
Defined.

(** C2 as the specification words it does not hold: the offscreen
    rasterizer encodes the markup with its newline; what it encodes is not
    the normalized markup. *)
Lemma C2_counterexample :
  Offscreen.svgToBase64 (str "<svg>" ++ [10%N] ++ str "</svg>")
  = Some (str "data:image/svg+xml;base64,PHN2Zz4KPC9zdmc+")
  /\ data_url_of (cleanSvgString (str "<svg>" ++ [10%N] ++ str "</svg>"))
     = Some (str "data:image/svg+xml;base64,PHN2ZyB4bWxucz0iaHR0cDovL3d3dy53My5vcmcvMjAwMC9zdmciPjwvc3ZnPg==")
  /\ Offscreen.svgToBase64 (str "<svg>" ++ [10%N] ++ str "</svg>")
     <> data_url_of (cleanSvgString (str "<svg>" ++ [10%N] ++ str "</svg>")).
Proof.
  split; [vm_compute; reflexivity|].
  split; [vm_compute; reflexivity|].
  vm_compute. discriminate.
Qed.

(* ================================================================== *)
(** * Part II, continued: the functions beside those above              *)
(* ================================================================== *)

(** ** Splitting *)

Lemma split_free_of (sep : N) (s : jsstring) :
  free_of sep s -> split sep s = [s].
Proof.
  induction s as [|c t IH]; intros F; [reflexivity|].
  inversion F as [|? ? Nc Ft]; subst. cbn [split]. unfold code_eqb.
  destruct (N.eqb_spec c sep) as [->|_]; [contradiction|].
  now rewrite (IH Ft).
Qed.

Lemma split_first (sep : N) (p q : jsstring) :
  free_of sep p -> split sep (p ++ sep :: q) = p :: split sep q.
Proof.
  induction p as [|c t IH]; intros F.
  - cbn [app split]. unfold code_eqb. now rewrite N.eqb_refl.
  - inversion F as [|? ? Nc Ft]; subst. cbn [app split]. unfold code_eqb.
    destruct (N.eqb_spec c sep) as [->|_]; [contradiction|].
    now rewrite (IH Ft).
Qed.


(** ** The download handler, branch by branch *)

Section HandleDownloadMore.
Context {host : Engine}.

Lemma download_one_shape (svg : SVGItem) (w h : number) :
  exists middle e,
    download_one svg w h = middle ++ [SetDownloadStatus (id svg) false e]
    /\ List.filter is_status middle = []
    /\ (List.length (List.filter is_download middle) <= 1)%nat
    /\ (forall url name saveAs, In (Download url name saveAs) middle -> saveAs = true)
    /\ (e = None <->
        exists url name, In (Download url name true) middle
                         /\ downloads_download url name = None).
Proof.
  unfold download_one.
  destruct (svgToDataUrl (item_outerHTML svg) w h) as [u|m].
  - destruct (downloads_download u (png_filename (id svg) w h)) as [m|] eqn:D.
    + exists [CallSvgToDataUrl (item_outerHTML svg) w h;
              Download u (png_filename (id svg) w h) true], (Some m).
      split; [reflexivity|]. split; [reflexivity|]. split; [simpl; lia|].
      split.
      * intros url name saveAs [E|[E|[]]]; [discriminate E|]. now injection E.
      * split; [discriminate|].
        intros (url & name & [E|[E|[]]] & R); [discriminate E|].
        injection E as <- <-. congruence.
    + exists [CallSvgToDataUrl (item_outerHTML svg) w h;
              Download u (png_filename (id svg) w h) true], None.
      split; [reflexivity|]. split; [reflexivity|]. split; [simpl; lia|].
      split.
      * intros url name saveAs [E|[E|[]]]; [discriminate E|]. now injection E.
      * split; [|reflexivity]. intros _. exists u, (png_filename (id svg) w h).
        split; [right; now left|exact D].
  - exists [CallSvgToDataUrl (item_outerHTML svg) w h], (Some m).
    split; [reflexivity|]. split; [reflexivity|]. split; [simpl; lia|].
    split.
    + intros url name saveAs [E|[]]. discriminate E.
    + split; [discriminate|]. intros (url & name & [E|[]] & _). discriminate E.
Qed.

Lemma archive_calls_no_status (svg : SVGItem) :
  List.filter is_status (archive_calls svg) = []
  /\ List.filter is_download (archive_calls svg) = []
  /\ (forall url name saveAs, ~ In (Download url name saveAs) (archive_calls svg)).
Proof.
  rewrite archive_calls_eq. split; [reflexivity|]. split; [reflexivity|].
  intros url name saveAs I. simpl in I.
  repeat (destruct I as [I|I]; [discriminate I|]). exact I.
Qed.

Lemma filter_app_nil {A : Type} (f : A -> bool) (a b : list A) :
  List.filter f a = [] -> List.filter f (a ++ b) = List.filter f b.
Proof. intros E. now rewrite List.filter_app, E. Qed.

(** X1.  Whatever is selected and whatever happens, the effects of
    [handleDownload] start with the status that sets [loading] and end
    with the status that clears it, with no other status update in
    between; at most one download is started, always with [saveAs]; and
    the last status carries no error exactly when a download was started
    and the browser took it. *)
Theorem X1_download_clears_loading
        (selectedSizes : gmap nat PresetSize) (customSizes : gmap nat CustomSize)
        (svg : SVGItem) :
  exists middle e,
    handleDownload selectedSizes customSizes svg
    = SetDownloadStatus (id svg) true None
        :: middle ++ [SetDownloadStatus (id svg) false e]
    /\ List.filter is_status middle = []
    /\ (List.length (List.filter is_download middle) <= 1)%nat
    /\ (forall url name saveAs, In (Download url name saveAs) middle -> saveAs = true)
    /\ (e = None <->
        exists url name, In (Download url name true) middle
                         /\ downloads_download url name = None).
Proof.
  unfold handleDownload.
  set (selectedSize := default PRESET_0 (selectedSizes !! id svg)).
  destruct (preset_width selectedSize =? -1).
  - (* all sizes *)
    pose proof (archive_calls_no_status svg) as (NS & ND & NI).
    unfold downloadAllSizes.
    destruct (archive_entries svg archive_sizes ∅) as [zip|m].
    + destruct (downloads_download (createObjectURL zip) (zip_filename (id svg)))
        as [m|] eqn:D.
      * exists (archive_calls svg
                ++ [Download (createObjectURL zip) (zip_filename (id svg)) true]),
               (Some (error_or_default (Some m))).
        split; [reflexivity|].
        split; [now rewrite (filter_app_nil _ _ _ NS)|].
        split; [rewrite (filter_app_nil _ _ _ ND); simpl; lia|].
        split.
        -- intros url name saveAs I. apply in_app_or in I as [I|[E|[]]].
           ++ now apply NI in I.
           ++ now injection E.
        -- split; [discriminate|].
           intros (url & name & I & R). apply in_app_or in I as [I|[E|[]]].
           ++ now apply NI in I.
           ++ injection E as <- <-. congruence.
      * exists (archive_calls svg
                ++ [Download (createObjectURL zip) (zip_filename (id svg)) true;
                    RevokeObjectURL (createObjectURL zip)]), None.
        split; [cbn [success]; now rewrite <- app_assoc|].
        split; [now rewrite (filter_app_nil _ _ _ NS)|].
        split; [rewrite (filter_app_nil _ _ _ ND); simpl; lia|].
        split.
        -- intros url name saveAs I. apply in_app_or in I as [I|[E|[E|[]]]].
           ++ now apply NI in I.
           ++ now injection E.
           ++ discriminate E.
        -- split; [|reflexivity]. intros _.
           exists (createObjectURL zip), (zip_filename (id svg)).
           split; [|exact D]. apply in_or_app. right. now left.
    + exists (archive_calls svg), (Some (error_or_default (Some m))).
      split; [reflexivity|]. split; [exact NS|].
      split; [rewrite ND; simpl; lia|].
      split; [intros url name saveAs I; now apply NI in I|].
      split; [discriminate|]. intros (url & name & I & _). now apply NI in I.
  - destruct (preset_width selectedSize =? -2).
    + destruct (customSizes !! id svg) as [customSize|].
      * destruct (le (custom_width customSize) (of_Z 0)
                  || le (custom_height customSize) (of_Z 0)).
        -- exists [], (Some "请输入有效的自定义尺寸"%string).
           split; [reflexivity|]. split; [reflexivity|]. split; [simpl; lia|].
           split; [intros ? ? ? []|]. split; [discriminate|].
           intros (? & ? & [] & _).
        -- destruct (download_one_shape svg (custom_width customSize)
                                        (custom_height customSize))
             as (middle & e & E & R). exists middle, e. now rewrite E.
      * exists [], (Some "请输入有效的自定义尺寸"%string).
        split; [reflexivity|]. split; [reflexivity|]. split; [simpl; lia|].
        split; [intros ? ? ? []|]. split; [discriminate|].
        intros (? & ? & [] & _).
    + destruct (target_size svg selectedSize) as [w h].
      destruct (download_one_shape svg w h) as (middle & e & E & R).
      exists middle, e. now rewrite E.
Qed.


(** X2.  The custom branch of [handleDownload], for a stored width and
    height that are numbers (not NaN): the size is rasterized when both
    are above zero and refused before any rasterization otherwise; a
    missing entry is refused as well. *)
Theorem X2_custom_size_numbers
        (selectedSizes : gmap nat PresetSize) (customSizes : gmap nat CustomSize)
        (svg : SVGItem) :
  preset_width (default PRESET_0 (selectedSizes !! id svg)) = -2 ->
  (customSizes !! id svg = None ->
   handleDownload selectedSizes customSizes svg =
   [SetDownloadStatus (id svg) true None;
    SetDownloadStatus (id svg) false (Some "请输入有效的自定义尺寸"%string)])
  /\ (forall customSize,
         customSizes !! id svg = Some customSize ->
         custom_width customSize <> NaN -> custom_height customSize <> NaN ->
         (gt_zero (custom_width customSize) /\ gt_zero (custom_height customSize) ->
          handleDownload selectedSizes customSizes svg =
          SetDownloadStatus (id svg) true None
            :: download_one svg (custom_width customSize) (custom_height customSize))
         /\ (~ (gt_zero (custom_width customSize)
                /\ gt_zero (custom_height customSize)) ->
             handleDownload selectedSizes customSizes svg =
             [SetDownloadStatus (id svg) true None;
              SetDownloadStatus (id svg) false (Some "请输入有效的自定义尺寸"%string)])).
Proof.
  intros Sel. rewrite (custom_size_guard _ _ _ Sel). split.
  - now intros ->.
  - intros customSize -> Nw Nh.
    pose proof (le_zero_false _ Nw) as Lw. pose proof (le_zero_false _ Nh) as Lh.
    destruct (le (custom_width customSize) (of_Z 0)) eqn:Ew;
      destruct (le (custom_height customSize) (of_Z 0)) eqn:Eh; cbn [orb];
      split; try reflexivity; intros G.
    + destruct G as [G _]. apply Lw in G. discriminate G.
    + destruct G as [G _]. apply Lw in G. discriminate G.
    + destruct G as [_ G]. apply Lh in G. discriminate G.
    + exfalso. apply G. split; [now apply Lw|now apply Lh].
Qed.

Lemma svgToDataUrl_parse_failure (svgString : jsstring) (w h : number) :
  parseFromString (cleanSvgString svgString) = None ->
  svgToDataUrl svgString w h = Reject "SVG 解析失败".
Proof. intros P. unfold svgToDataUrl. now rewrite P. Qed.

(** X3.  Markup that the parser refuses after cleaning: [handleDownload]
    starts no download, and outside the custom branch it calls
    [svgToDataUrl] and ends with the parse error as the message of the
    item. *)
Theorem X3_parse_failure_message
        (selectedSizes : gmap nat PresetSize) (customSizes : gmap nat CustomSize)
        (svg : SVGItem) :
  parseFromString (cleanSvgString (item_outerHTML svg)) = None ->
  List.filter is_download (handleDownload selectedSizes customSizes svg) = []
  /\ (preset_width (default PRESET_0 (selectedSizes !! id svg)) <> -2 ->
      exists calls,
        handleDownload selectedSizes customSizes svg
        = SetDownloadStatus (id svg) true None
            :: calls ++ [SetDownloadStatus (id svg) false (Some "SVG 解析失败"%string)]
        /\ calls <> []
        /\ List.forallb is_rasterization calls = true).
Proof.
  intros P.
  assert (R : forall w h, svgToDataUrl (item_outerHTML svg) w h = Reject "SVG 解析失败")
    by (intros; now apply svgToDataUrl_parse_failure).
  assert (One : forall w h,
             download_one svg w h =
             [CallSvgToDataUrl (item_outerHTML svg) w h;
              SetDownloadStatus (id svg) false (Some "SVG 解析失败"%string)])
    by (intros; unfold download_one; now rewrite R).
  unfold handleDownload.
  set (selectedSize := default PRESET_0 (selectedSizes !! id svg)).
  destruct (preset_width selectedSize =? -1) eqn:E1.
  - unfold downloadAllSizes. rewrite archive_sizes_eq.
    cbn [archive_entries target_size preset_width preset_height].
    change (or_else (of_Z 16) _) with (of_Z 16). cbn [or_else].
    rewrite R. cbn [success error error_or_default]. rewrite archive_calls_eq.
    split; [reflexivity|]. intros _.
    eexists. split; [reflexivity|]. split; [discriminate|reflexivity].
  - destruct (preset_width selectedSize =? -2) eqn:E2.
    + split; [|intros N; apply Z.eqb_eq in E2; contradiction].
      destruct (customSizes !! id svg) as [customSize|]; [|reflexivity].
      destruct (le (custom_width customSize) (of_Z 0)
                || le (custom_height customSize) (of_Z 0)); [reflexivity|].
      now rewrite One.
    + destruct (target_size svg selectedSize) as [w h]. rewrite One.
      split; [reflexivity|]. intros _.
      exists [CallSvgToDataUrl (item_outerHTML svg) w h].
      split; [reflexivity|]. split; [discriminate|reflexivity].
Qed.

(** The first rejection among the rasterizations ends the building of the
    archive. *)
Lemma archive_entries_reject (svg : SVGItem) (sizes : list PresetSize) :
  (exists size message,
      In size sizes
      /\ svgToDataUrl (item_outerHTML svg) (fst (target_size svg size))
                      (snd (target_size svg size)) = Reject message) ->
  forall zip,
  exists size message,
    In size sizes
    /\ svgToDataUrl (item_outerHTML svg) (fst (target_size svg size))
                    (snd (target_size svg size)) = Reject message
    /\ archive_entries svg sizes zip = Reject message.
Proof.
  induction sizes as [|size rest IH]; intros (s & m & I & R) zip; [destruct I|].
  cbn [archive_entries].
  destruct (target_size svg size) as [w h] eqn:T.
  destruct (svgToDataUrl (item_outerHTML svg) w h) as [u|m'] eqn:U.
  - destruct I as [<-|I]; [rewrite T in R; cbn [fst snd] in R; congruence|].
    destruct (IH (ex_intro _ s (ex_intro _ m (conj I R)))
                 (<[png_filename (id svg) w h := base64_part u]> zip))
      as (s' & m'' & I' & R' & E').
    exists s', m''. split; [now right|]. split; [exact R'|exact E'].
  - exists size, m'. split; [now left|]. rewrite T. cbn [fst snd]. now split.
Qed.

(** X4.  When one of the five rasterizations rejects, [downloadAllSizes]
    has started all five, starts no download, revokes nothing, and
    returns [success: false] with the message of a rasterization that
    rejected. *)
Theorem X4_archive_fails_fast (svg : SVGItem) (size : PresetSize) (message : string) :
  In size archive_sizes ->
  svgToDataUrl (item_outerHTML svg) (fst (target_size svg size))
               (snd (target_size svg size)) = Reject message ->
  exists size' message',
    In size' archive_sizes
    /\ svgToDataUrl (item_outerHTML svg) (fst (target_size svg size'))
                    (snd (target_size svg size')) = Reject message'
    /\ downloadAllSizes svg =
       ([CallSvgToDataUrl (item_outerHTML svg) (of_Z 16) (of_Z 16);
         CallSvgToDataUrl (item_outerHTML svg) (of_Z 32) (of_Z 32);
         CallSvgToDataUrl (item_outerHTML svg) (of_Z 48) (of_Z 48);
         CallSvgToDataUrl (item_outerHTML svg) (of_Z 128) (of_Z 128);
         CallSvgToDataUrl (item_outerHTML svg)
                          (width (dimensions svg)) (height (dimensions svg))],
        {| success := false; error := Some message' |}).
Proof.
  intros I R.
  destruct (archive_entries_reject svg archive_sizes
              (ex_intro _ size (ex_intro _ message (conj I R))) ∅)
    as (s' & m' & I' & R' & E').
  exists s', m'. split; [exact I'|]. split; [exact R'|].
  unfold downloadAllSizes. rewrite E'. now rewrite archive_calls_eq.
Qed.

(** [dataUrl.split(',')[1]] is what follows the first comma, up to the
    next one. *)
Lemma base64_part_payload (p q : jsstring) :
  free_of 44 p -> free_of 44 q -> base64_part (p ++ 44%N :: q) = q.
Proof.
  intros Fp Fq. unfold base64_part.
  now rewrite (split_first 44 p q Fp), (split_free_of 44 q Fq).
Qed.

(** What the archive holds under the names written last. *)
Lemma archive_entries_lookup (svg : SVGItem) (sizes : list PresetSize) :
  forall zip zip' : gmap jsstring jsstring,
    archive_entries svg sizes zip = Resolve zip' ->
    List.NoDup (List.map (fun size => png_filename (id svg) (fst (target_size svg size))
                                                   (snd (target_size svg size)))
                         sizes) ->
    forall size dataUrl,
      In size sizes ->
      svgToDataUrl (item_outerHTML svg) (fst (target_size svg size))
                   (snd (target_size svg size)) = Resolve dataUrl ->
      zip' !! png_filename (id svg) (fst (target_size svg size))
                           (snd (target_size svg size))
      = Some (base64_part dataUrl).
Proof.
  induction sizes as [|s rest IH]; intros zip zip' E ND size dataUrl I R; [destruct I|].
  cbn [archive_entries] in E. cbn [List.map] in ND.
  apply List.NoDup_cons_iff in ND as [NI ND'].
  destruct (target_size svg s) as [w h] eqn:T. cbn [fst snd] in NI.
  destruct (svgToDataUrl (item_outerHTML svg) w h) as [u|m] eqn:U; [|discriminate E].
  destruct I as [->|I].
  - rewrite T in R |- *. cbn [fst snd] in R |- *.
    assert (u = dataUrl) by congruence. subst u.
    assert (Keep : forall sizes' z z',
               archive_entries svg sizes' z = Resolve z' ->
               ~ In (png_filename (id svg) w h)
                    (List.map (fun size => png_filename (id svg)
                                             (fst (target_size svg size))
                                             (snd (target_size svg size))) sizes') ->
               z' !! png_filename (id svg) w h = z !! png_filename (id svg) w h).
    { clear. induction sizes' as [|s' r IH']; intros z z' E NI.
      - cbn in E. now injection E as <-.
      - cbn [archive_entries] in E. cbn [List.map] in NI.
        destruct (target_size svg s') as [w' h'] eqn:T'. cbn [fst snd] in NI.
        destruct (svgToDataUrl (item_outerHTML svg) w' h') as [u'|m']; [|discriminate E].
        rewrite (IH' _ _ E); [|intros I; apply NI; now right].
        apply lookup_insert_ne. intros Eq. apply NI. now left. }
    rewrite (Keep _ _ _ E NI). apply lookup_insert_eq.
  - exact (IH _ _ E ND' size dataUrl I R).
Qed.

(** X5.  When the five rasterizations resolve and the five names differ,
    every entry of the archive holds what follows the first comma of the
    data URL of its size: for a URL [data:image/png;base64,<payload>], the
    payload. *)
Theorem X5_archive_payloads (svg : SVGItem) :
  (forall size, In size archive_sizes ->
     exists dataUrl,
       svgToDataUrl (item_outerHTML svg) (fst (target_size svg size))
                    (snd (target_size svg size)) = Resolve dataUrl) ->
  List.NoDup (archive_names svg) ->
  exists zip : gmap jsstring jsstring,
    archive_entries svg archive_sizes ∅ = Resolve zip
    /\ (forall size dataUrl,
           In size archive_sizes ->
           svgToDataUrl (item_outerHTML svg) (fst (target_size svg size))
                        (snd (target_size svg size)) = Resolve dataUrl ->
           zip !! png_filename (id svg) (fst (target_size svg size))
                               (snd (target_size svg size))
           = Some (base64_part dataUrl)
           /\ (forall payload,
                  dataUrl = str "data:image/png;base64," ++ payload ->
                  free_of 44 payload ->
                  zip !! png_filename (id svg) (fst (target_size svg size))
                                      (snd (target_size svg size))
                  = Some payload)).
Proof.
  intros All ND. rewrite archive_names_map in ND.
  destruct (archive_entries_resolve svg archive_sizes All ∅) as [zip E].
  exists zip. split; [exact E|].
  intros size dataUrl I R.
  pose proof (archive_entries_lookup svg archive_sizes ∅ zip E ND size dataUrl I R) as L.
  split; [exact L|].
  intros payload -> F. etransitivity; [exact L|]. f_equal.
  change (str "data:image/png;base64," ++ payload)
    with (str "data:image/png;base64" ++ 44%N :: payload).
  apply base64_part_payload; [|exact F].
  unfold free_of. apply List.Forall_forall. intros c Ic.
  vm_compute in Ic. repeat (destruct Ic as [<-|Ic]; [discriminate|]). destruct Ic.
Qed.

End HandleDownloadMore.

(** X2 on a stored size of 0 by 50. *)
Lemma X2_witness :
  preset_width
    (default PRESET_0
       (({[ 0%nat := Instances.custom_preset ]} : gmap nat PresetSize)
          !! id (Instances.item 0 24 24))) = -2
  /\ handleDownload (host := Instances.icon_engine)
       {[ 0%nat := Instances.custom_preset ]} {[ 0%nat := Instances.zero_by_fifty ]}
       (Instances.item 0 24 24)
     = [SetDownloadStatus 0 true None;
        SetDownloadStatus 0 false (Some "请输入有效的自定义尺寸"%string)].
Proof.
  assert (Sel : preset_width
                  (default PRESET_0
                     (({[ 0%nat := Instances.custom_preset ]} : gmap nat PresetSize)
                        !! id (Instances.item 0 24 24))) = -2) by reflexivity.
  split; [exact Sel|].
  destruct (X2_custom_size_numbers (host := Instances.icon_engine)
              {[ 0%nat := Instances.custom_preset ]} {[ 0%nat := Instances.zero_by_fifty ]}
              (Instances.item 0 24 24) Sel) as [_ G].
  apply (G Instances.zero_by_fifty); [reflexivity|discriminate|discriminate|].
  intros [G0 _]. discriminate G0.
Defined.

(** X3 with a parser that refuses every text. *)
Lemma X3_witness :
  parseFromString (Engine := Instances.wide_engine)
    (cleanSvgString (item_outerHTML (Instances.item 0 24 24))) = None
  /\ List.filter is_download
       (handleDownload (host := Instances.wide_engine) ∅ ∅ (Instances.item 0 24 24))
     = [].
Proof.
  split; [reflexivity|].
  apply (X3_parse_failure_message (host := Instances.wide_engine) ∅ ∅
           (Instances.item 0 24 24) eq_refl).
Defined.

(** X4 with a parser that refuses every text. *)
Lemma X4_witness :
  In PRESET_0 (archive_sizes)
  /\ svgToDataUrl (host := Instances.wide_engine)
       (item_outerHTML (Instances.item 0 24 24))
       (fst (target_size (Instances.item 0 24 24) PRESET_0))
       (snd (target_size (Instances.item 0 24 24) PRESET_0))
     = Reject "SVG 解析失败"
  /\ fst (downloadAllSizes (host := Instances.wide_engine) (Instances.item 0 24 24))
     = archive_calls (Instances.item 0 24 24).
Proof.
  split; [now left|]. split; [reflexivity|].
  destruct (X4_archive_fails_fast (host := Instances.wide_engine)
              (Instances.item 0 24 24) PRESET_0 "SVG 解析失败"
              (or_introl eq_refl) eq_refl) as (s & m & _ & _ & E).
  now rewrite E.
Defined.

(** X5 on an item 24 by 24: the entry of the 16 by 16 preset. *)
Lemma X5_witness :
  List.NoDup (archive_names (host := Instances.icon_engine) (Instances.item 0 24 24))
  /\ exists zip : gmap jsstring jsstring,
      archive_entries (host := Instances.icon_engine) (Instances.item 0 24 24)
                      archive_sizes ∅ = Resolve zip
      /\ zip !! str "svg_0_16x16.png" = Some (base64 (str "16x16")).
Proof.
  assert (ND : List.NoDup (archive_names (host := Instances.icon_engine)
                                         (Instances.item 0 24 24)))
    by (apply NoDup_ListNoDup, (bool_decide_unpack _); vm_compute; exact I).
  split; [exact ND|].
  destruct (X5_archive_payloads (host := Instances.icon_engine) (Instances.item 0 24 24))
    as (zip & E & L).
  - intros size I. rewrite archive_sizes_eq in I.
    repeat (destruct I as [<-|I]; [eexists; vm_compute; reflexivity|]).
    destruct I.
  - exact ND.
  - exists zip. split; [exact E|].
    destruct (L PRESET_0 (str "data:image/png;base64," ++ base64 (str "16x16"))
                (or_introl eq_refl) eq_refl) as [_ P].
    apply (P (base64 (str "16x16")) eq_refl).
    vm_compute. repeat constructor; discriminate.
Defined.

(** ** The custom size inputs *)

Lemma Qle_bool_false (a b : Q) : Qle_bool a b = false -> (b < a)%Q.
Proof.
  intros F. destruct (Qlt_le_dec b a) as [L|L]; [exact L|].
  apply Qle_bool_iff in L. congruence.
Qed.

(** X6.  [handleInputChange] with a number: the field it stores is between
    1 and 9999, it is the value itself for a value from 1 up to (not
    including) 9999, and the other field is untouched; with [undefined]
    nothing changes. *)
Theorem X6_input_change_clamps (type : Dimension) (value : number) (prev : TempInput) :
  value <> NaN ->
  let next := handleInputChange type (Some value) prev in
  le (of_Z 1) (temp_value type next) = true
  /\ le (temp_value type next) (of_Z 9999) = true
  /\ (le (of_Z 1) value = true -> lt value (of_Z 9999) = true ->
      temp_value type next = value)
  /\ match type with
     | WidthInput => temp_height next = temp_height prev
     | HeightInput => temp_width next = temp_width prev
     end
  /\ handleInputChange type None prev = prev.
Proof.
  intros N next.
  assert (V : temp_value type next = Math_max (of_Z 1) (Math_min (of_Z 9999) value))
    by (destruct type; reflexivity).
  rewrite V.
  split; [|split; [|split; [|split]]];
    [| | |destruct type; reflexivity|reflexivity].
  - destruct value as [|[|]|q]; try reflexivity; [contradiction|].
    cbn. destruct (Qle_bool (inject_Z 9999) q) eqn:A; cbn; [reflexivity|].
    destruct (Qle_bool (inject_Z 1) q) eqn:B; cbn; [exact B|reflexivity].
  - destruct value as [|[|]|q]; try reflexivity; [contradiction|].
    cbn. destruct (Qle_bool (inject_Z 9999) q) eqn:A; cbn; [reflexivity|].
    destruct (Qle_bool (inject_Z 1) q) eqn:B; cbn; [|reflexivity].
    apply Qle_bool_iff. apply Qlt_le_weak. now apply Qle_bool_false.
  - intros L1 L2. destruct value as [|[|]|q]; try discriminate.
    cbn in L1, L2 |- *. apply negb_true_iff in L2. rewrite L2. cbn. now rewrite L1.
Qed.

(** X6 on the input 20000. *)
Lemma X6_witness :
  of_Z 20000 <> NaN
  /\ le (temp_width (handleInputChange WidthInput (Some (of_Z 20000))
                       {| temp_width := of_Z 24; temp_height := of_Z 24 |}))
        (of_Z 9999) = true.
Proof.
  assert (N : of_Z 20000 <> NaN) by discriminate.
  split; [exact N|].
  destruct (X6_input_change_clamps WidthInput (of_Z 20000)
              {| temp_width := of_Z 24; temp_height := of_Z 24 |} N) as (_ & U & _).
  exact U.
Defined.

Lemma accepted_value (v : Q) :
  (1 <= v)%Q -> negb (truthy (Num v)) || lt (Num v) (of_Z 1) = false.
Proof.
  intros L. cbn.
  assert (P : (0 < v)%Q) by (eapply Qlt_le_trans; [|exact L]; reflexivity).
  rewrite (Qeq_bool_false_of_lt v P). cbn.
  apply Qle_bool_iff in L. change (inject_Z 1) with 1%Q. now rewrite L.
Qed.

Lemma round_within_half (x : Q) :
  (inject_Z (Qfloor (x + (1 # 2))) - (1 # 2) <= x)%Q
  /\ (x < inject_Z (Qfloor (x + (1 # 2))) + (1 # 2))%Q.
Proof.
  pose proof (Qfloor_le (x + (1 # 2))) as L.
  pose proof (Qlt_floor (x + (1 # 2))) as U.
  rewrite inject_Z_plus in U. change (inject_Z 1) with 1%Q in U.
  split; lra.
Qed.

Section RoundedRatio.
Context {host : Engine}.
Variables u eta : Q.
Hypothesis u_ge_0 : (0 <= u)%Q.
Hypothesis u_le_1 : (u <= 1)%Q.
Hypothesis fl_error :
  forall q r : Q, fl q = Num r -> (Qabs (r - q) <= u * Qabs q + eta)%Q.

(** The whole number nearest to a rounded result, against the exact
    result. *)
Lemma nearest_to_rounded (q t : Q) :
  (0 <= q)%Q -> fl q = Num t ->
  (Qabs (inject_Z (Qfloor (t + (1 # 2))) - q) <= (1 # 2) + (u * q + eta))%Q.
Proof.
  intros P E. apply fl_error in E. rewrite (Qabs_pos q P) in E.
  apply Qabs_le_bounds in E. apply Qabs_le_bounds.
  destruct (round_within_half t) as [L U].
  set (k := inject_Z (Qfloor (t + (1 # 2)))) in *. clearbody k.
  clear fl_error. split; lra.
Qed.

(** X7.  With the ratio locked, the other side follows the confirmed one.
    For an item whose [aspectRatio] is the number [r] above zero and a
    confirmed value [v] of 1 or more, [handleInputConfirm] stores [v] on
    the confirmed side; on the other side it stores the whole number
    nearest to the rounded quotient [v / r] after a width, to the rounded
    product [v * r] after a height, which is within half a unit and one
    rounding of the exact quotient or product.  [r] itself is within one
    rounding of the ratio of the item's width to its height. *)
Theorem X7_locked_ratio_follows
        (svg : SVGItem) (prev : CustomSize) (r v : Q) :
  aspectRatio svg = Num r -> (0 < r)%Q -> (1 <= v)%Q ->
  keepRatio prev = true ->
  (forall t : Q,
      fl (v / r) = Num t ->
      exists k : Z,
        handleInputConfirm svg WidthInput (Num v) prev
        = {| custom_width := Num v; custom_height := Num (inject_Z k);
             keepRatio := true |}
        /\ (Qabs (inject_Z k - v / r) <= (1 # 2) + (u * (v / r) + eta))%Q)
  /\ (forall t : Q,
         fl (v * r) = Num t ->
         exists k : Z,
           handleInputConfirm svg HeightInput (Num v) prev
           = {| custom_width := Num (inject_Z k); custom_height := Num v;
                keepRatio := true |}
           /\ (Qabs (inject_Z k - v * r) <= (1 # 2) + (u * (v * r) + eta))%Q)
  /\ (forall W0 H0 : Q,
         width (dimensions svg) = Num W0 -> height (dimensions svg) = Num H0 ->
         (0 < H0)%Q ->
         (Qabs (r - W0 / H0) <= u * Qabs (W0 / H0) + eta)%Q).
Proof.
  intros R Pr Lv K.
  assert (Pv : (0 < v)%Q) by lra.
  split; [|split].
  - intros t T. exists (Qfloor (t + (1 # 2))). split.
    + unfold handleInputConfirm. rewrite (accepted_value v Lv), K, R.
      unfold div. rewrite (Qeq_bool_false_of_lt r Pr), T. reflexivity.
    + apply nearest_to_rounded; [|exact T].
      apply Qlt_le_weak, Qlt_shift_div_l; [exact Pr|lra].
  - intros t T. exists (Qfloor (t + (1 # 2))). split.
    + unfold handleInputConfirm. rewrite (accepted_value v Lv), K, R.
      unfold mul. rewrite T. reflexivity.
    + apply nearest_to_rounded; [|exact T]. nra.
  - intros W0 H0 Ew Eh PH. unfold aspectRatio in R. rewrite Ew, Eh in R.
    unfold div in R. rewrite (Qeq_bool_false_of_lt H0 PH) in R.
    now apply fl_error.
Qed.

(** X8.  For an item so flat that the rounded quotient of the confirmed
    width [v] by the [aspectRatio] is below one half, confirming the width
    with the ratio locked stores the height 0; once [updateGlobalSize] has
    stored that size, [handleDownload] refuses it before any
    rasterization. *)
Theorem X8_locked_ratio_zero_height
        (selectedSizes : gmap nat PresetSize) (customSizes : gmap nat CustomSize)
        (svg : SVGItem) (prev : CustomSize) (r v t : Q) :
  aspectRatio svg = Num r -> (0 < r)%Q -> (1 <= v)%Q ->
  fl (v / r) = Num t ->
  ((1 + u) * (v / r) + eta < 1 # 2)%Q ->
  keepRatio prev = true ->
  preset_width (default PRESET_0 (selectedSizes !! id svg)) = -2 ->
  handleInputConfirm svg WidthInput (Num v) prev
  = {| custom_width := Num v; custom_height := Num (inject_Z 0); keepRatio := true |}
  /\ handleDownload selectedSizes
       (updateGlobalSize svg (handleInputConfirm svg WidthInput (Num v) prev)
                         customSizes)
       svg
     = [SetDownloadStatus (id svg) true None;
        SetDownloadStatus (id svg) false (Some "请输入有效的自定义尺寸"%string)].
Proof.
  intros R Pr Lv T Flat K Sel.
  assert (Pq : (0 < v / r)%Q) by (apply Qlt_shift_div_l; [exact Pr|lra]).
  assert (E : handleInputConfirm svg WidthInput (Num v) prev
              = {| custom_width := Num v; custom_height := Num (inject_Z 0);
                   keepRatio := true |}).
  { unfold handleInputConfirm. rewrite (accepted_value v Lv), K, R.
    unfold div. rewrite (Qeq_bool_false_of_lt r Pr), T. cbn [Math_round].
    do 3 f_equal.
    pose proof (fl_error _ _ T) as B. rewrite (Qabs_pos (v / r)) in B by lra.
    apply Qabs_le_bounds in B.
    destruct (round_within_half t) as [L U].
    set (q := (v / r)%Q) in *. clearbody q.
    assert (P1 : (0 <= u * q)%Q) by (apply Qmult_le_0_compat; lra).
    assert (P2 : (u * q <= q)%Q) by nra.
    set (k := Qfloor (t + (1 # 2))) in *. clearbody k.
    assert (A : (inject_Z k < inject_Z 1)%Q)
      by (change (inject_Z 1) with 1%Q; clear fl_error; lra).
    assert (C : (inject_Z (-1) < inject_Z k)%Q)
      by (change (inject_Z (-1)) with (-1 # 1)%Q; clear fl_error; lra).
    rewrite <- Zlt_Qlt in A, C. lia. }
  split; [exact E|].
  rewrite (custom_size_guard _ _ _ Sel). unfold updateGlobalSize.
  rewrite lookup_insert_eq, E. cbn [custom_width custom_height].
  change (le (Num (inject_Z 0)) (of_Z 0)) with true. now rewrite orb_true_r.
Qed.

End RoundedRatio.

(** X7 on doubles: an item 3 by 7, whose ratio is rounded, and the width
    50. *)
Lemma X7_witness :
  (0 < 7720456504063707 # 18014398509481984)%Q /\ (1 <= 50)%Q
  /\ exists k : Z,
      handleInputConfirm (host := Instances.icon_engine) (Instances.item 0 3 7)
                         WidthInput (Num 50) (Instances.locked 3 7)
      = {| custom_width := Num 50; custom_height := Num (inject_Z k);
           keepRatio := true |}
      /\ (Qabs (inject_Z k - 50 / (7720456504063707 # 18014398509481984))
          <= (1 # 2)
             + (Binary64.unit_roundoff * (50 / (7720456504063707 # 18014398509481984))
                + Binary64.half_least))%Q.
Proof.
  assert (Pr : (0 < 7720456504063707 # 18014398509481984)%Q) by reflexivity.
  assert (Lv : (1 <= 50)%Q) by discriminate.
  split; [exact Pr|]. split; [exact Lv|].
  assert (R : aspectRatio (host := Instances.icon_engine) (Instances.item 0 3 7)
              = Num (7720456504063707 # 18014398509481984))
    by (vm_compute; reflexivity).
  destruct (X7_locked_ratio_follows (host := Instances.icon_engine)
              Binary64.unit_roundoff Binary64.half_least round_error
              (Instances.item 0 3 7) (Instances.locked 3 7)
              (7720456504063707 # 18014398509481984) 50 R Pr Lv eq_refl)
    as (Wd & _).
  apply (Wd (8209686820727467 # 70368744177664)). vm_compute. reflexivity.
Defined.

(** X8 on doubles: an item 1000 by 10 and the width 40. *)
Lemma X8_witness :
  (0 <= Binary64.unit_roundoff)%Q /\ (Binary64.unit_roundoff <= 1)%Q
  /\ (0 < 100)%Q /\ (1 <= 40)%Q
  /\ ((1 + Binary64.unit_roundoff) * (40 / 100) + Binary64.half_least < 1 # 2)%Q
  /\ handleDownload (host := Instances.icon_engine)
       {[ 0%nat := Instances.custom_preset ]}
       (updateGlobalSize (Instances.item 0 1000 10)
          (handleInputConfirm (host := Instances.icon_engine)
             (Instances.item 0 1000 10) WidthInput (Num 40) (Instances.locked 1000 10))
          ∅)
       (Instances.item 0 1000 10)
     = [SetDownloadStatus 0 true None;
        SetDownloadStatus 0 false (Some "请输入有效的自定义尺寸"%string)].
Proof.
  assert (U0 : (0 <= Binary64.unit_roundoff)%Q) by discriminate.
  assert (U1 : (Binary64.unit_roundoff <= 1)%Q) by (vm_compute; discriminate).
  assert (Pr : (0 < 100)%Q) by reflexivity.
  assert (Lv : (1 <= 40)%Q) by discriminate.
  assert (Flat : ((1 + Binary64.unit_roundoff) * (40 / 100) + Binary64.half_least
                  < 1 # 2)%Q) by (vm_compute; reflexivity).
  split; [exact U0|]. split; [exact U1|]. split; [exact Pr|]. split; [exact Lv|].
  split; [exact Flat|].
  assert (R : aspectRatio (host := Instances.icon_engine) (Instances.item 0 1000 10)
              = Num 100) by (vm_compute; reflexivity).
  assert (T : fl (Engine := Instances.icon_engine) (40 / 100)
              = Num (3602879701896397 # 9007199254740992)) by (vm_compute; reflexivity).
  assert (Sel : preset_width
                  (default PRESET_0
                     (({[ 0%nat := Instances.custom_preset ]} : gmap nat PresetSize)
                        !! id (Instances.item 0 1000 10))) = -2) by reflexivity.
  exact (proj2 (X8_locked_ratio_zero_height (host := Instances.icon_engine)
                  Binary64.unit_roundoff Binary64.half_least U0 U1 round_error
                  {[ 0%nat := Instances.custom_preset ]} ∅
                  (Instances.item 0 1000 10) (Instances.locked 1000 10)
                  100 40 (3602879701896397 # 9007199254740992)
                  R Pr Lv T Flat eq_refl Sel)).
Defined.

Section Toggle.
Context {host : Engine}.

(** X9.  The button that locks the ratio never changes the width, and
    pressing it twice restores the flag.  Unlocking changes nothing but
    the flag; locking sets the height that [handleInputConfirm] sets when
    the same width is confirmed with the ratio locked. *)
Theorem X9_lock_agrees_with_confirm (svg : SVGItem) (prev : CustomSize) :
  custom_width (toggleKeepRatio svg prev) = custom_width prev
  /\ keepRatio (toggleKeepRatio svg (toggleKeepRatio svg prev)) = keepRatio prev
  /\ (keepRatio prev = true ->
      toggleKeepRatio svg prev
      = {| custom_width := custom_width prev; custom_height := custom_height prev;
           keepRatio := false |})
  /\ (keepRatio prev = false ->
      negb (truthy (custom_width prev)) || lt (custom_width prev) (of_Z 1) = false ->
      handleInputConfirm svg WidthInput (custom_width prev) (toggleKeepRatio svg prev)
      = toggleKeepRatio svg prev
      /\ handleInputConfirm svg WidthInput (custom_width prev)
           {| custom_width := custom_width prev; custom_height := custom_height prev;
              keepRatio := true |}
         = toggleKeepRatio svg prev).
Proof.
  split; [reflexivity|]. split; [cbn; apply negb_involutive|]. split.
  - intros K. unfold toggleKeepRatio. now rewrite K.
  - intros K Ok. unfold handleInputConfirm, toggleKeepRatio. rewrite Ok, K. now cbn.
Qed.

End Toggle.

(** ** Choosing a size *)

(** X10.  Choosing the option with the label of a preset makes that preset
    the size of this item, shows that label, and leaves the other items
    as they were; a value that is the label of no preset changes
    nothing. *)
Theorem X10_select_round_trip (svg : SVGItem) (size : PresetSize)
        (prev : gmap nat PresetSize) :
  In size PRESET_SIZES ->
  selected_size (select_onChange svg (label size) prev) svg = size
  /\ select_value (select_onChange svg (label size) prev) svg = label size
  /\ (forall other : SVGItem,
         id other <> id svg ->
         select_onChange svg (label size) prev !! id other = prev !! id other)
  /\ (forall value : string,
         ~ In value (List.map label PRESET_SIZES) ->
         select_onChange svg value prev = prev).
Proof.
  intros I.
  assert (F : List.find (fun s => String.eqb (label s) (label size)) PRESET_SIZES
              = Some size).
  { simpl in I.
    repeat (destruct I as [<-|I]; [reflexivity|]). destruct I. }
  unfold selected_size, select_value, select_onChange. rewrite F.
  split; [now rewrite lookup_insert_eq|].
  split.
  - rewrite lookup_insert_eq. simpl in I.
    repeat (destruct I as [<-|I]; [reflexivity|]). destruct I.
  - split.
    + intros other N. apply lookup_insert_ne. congruence.
    + intros value NI.
      destruct (List.find (fun s => String.eqb (label s) value) PRESET_SIZES)
        as [s|] eqn:Fv; [|reflexivity].
      apply List.find_some in Fv as [Is Es]. apply String.eqb_eq in Es.
      exfalso. apply NI. rewrite <- Es. now apply List.in_map.
Qed.

(** X10 on the first preset. *)
Lemma X10_witness :
  In PRESET_0 PRESET_SIZES
  /\ selected_size (select_onChange (Instances.item 3 24 24) "16x16" ∅)
                   (Instances.item 3 24 24) = PRESET_0.
Proof.
  assert (I : In PRESET_0 PRESET_SIZES) by now left.
  split; [exact I|].
  apply (X10_select_round_trip (Instances.item 3 24 24) PRESET_0 ∅ I).
Defined.

(** X11.  After any sequence of changes of the selects, starting with
    nothing selected, the option an item shows is the label of the size
    [handleDownload] works with for it, and that size is one of the
    presets. *)
Theorem X11_select_shows_size_used (changes : list (SVGItem * string)) (svg : SVGItem) :
  let selectedSizes :=
    fold_left (fun st change => select_onChange (fst change) (snd change) st)
              changes ∅ in
  select_value selectedSizes svg = label (selected_size selectedSizes svg)
  /\ In (selected_size selectedSizes svg) PRESET_SIZES.
Proof.
  intros selectedSizes.
  assert (Inv : forall i s, selectedSizes !! i = Some s -> In s PRESET_SIZES).
  { subst selectedSizes.
    assert (G : forall st : gmap nat PresetSize,
               (forall i s, st !! i = Some s -> In s PRESET_SIZES) ->
               forall i s,
                 fold_left (fun st change => select_onChange (fst change) (snd change) st)
                           changes st !! i = Some s ->
                 In s PRESET_SIZES).
    { induction changes as [|[item value] rest IH]; intros st H i s E; [now apply (H i)|].
      cbn [fold_left fst snd] in E. refine (IH _ _ i s E).
      intros i' s' E'. unfold select_onChange in E'.
      destruct (List.find (fun s => String.eqb (label s) value) PRESET_SIZES)
        as [p|] eqn:F; [|now apply (H i')].
      destruct (decide (id item = i')) as [<-|N].
      - rewrite lookup_insert_eq in E'. injection E' as <-.
        now apply List.find_some in F as [Ip _].
      - rewrite lookup_insert_ne in E' by exact N. now apply (H i'). }
    apply G. intros i s E. rewrite lookup_empty in E. discriminate E. }
  unfold select_value, selected_size.
  destruct (selectedSizes !! id svg) as [s|] eqn:E; cbn [default].
  - pose proof (Inv _ _ E) as I. split; [|exact I].
    simpl in I. repeat (destruct I as [<-|I]; [reflexivity|]). destruct I.
  - split; [reflexivity|now left].
Qed.

(** ** The panel after a scan *)

(** A step leaves the spinner off when it leaves no run under way. *)
Lemma scan_step_settled (s : Scans) (step : ScanStep) :
  (waiting s = ∅ -> isScanning (shown s) = false) ->
  waiting (scan_step s step) = ∅ -> isScanning (shown (scan_step s step)) = false.
Proof.
  intros Inv. destruct step as [run|run tabs|run response]; cbn [scan_step].
  - destruct (waiting s !! run) eqn:L; [exact Inv|].
    cbn [waiting]. intros E. apply (f_equal (fun m => m !! run)) in E.
    rewrite lookup_insert_eq, lookup_empty in E. discriminate E.
  - destruct (waiting s !! run) as [[|tabId]|] eqn:L; try exact Inv.
    unfold scan_queried.
    destruct tabs as [tabs|message]; [destruct (active_tab_id tabs) as [tabId|]|].
    + cbn [waiting]. intros E. apply (f_equal (fun m => m !! run)) in E.
      rewrite lookup_insert_eq, lookup_empty in E. discriminate E.
    + reflexivity.
    + reflexivity.
  - destruct (waiting s !! run) as [[|tabId]|] eqn:L; try exact Inv.
    intros _. cbn [shown]. now destruct response as [[svgData|]|message].
Qed.

Lemma scan_steps_settled (steps : list ScanStep) :
  forall s : Scans,
    (waiting s = ∅ -> isScanning (shown s) = false) ->
    waiting (scan_steps steps s) = ∅ ->
    isScanning (shown (scan_steps steps s)) = false.
Proof.
  induction steps as [|step steps IH]; intros s Inv; [exact Inv|].
  cbn [scan_steps fold_left]. apply IH. now apply scan_step_settled.
Qed.

(** A run of [scanSVGs] with no stretch of another run inside it is three
    steps in a row. *)
Lemma scan_steps_isolated (st : PanelState) (run : nat)
      (tabs : Result (list Tab)) (response : Result (option (list SVGItem))) :
  scan_steps [Begins run; Queried run tabs; Answered run response] (at_rest st)
  = at_rest (snd (scanSVGs {| tabs_query := tabs;
                              tabs_sendMessage := fun _ => response |} st)).
Proof.
  unfold scan_steps, at_rest, scanSVGs. cbn [fold_left tabs_query tabs_sendMessage].
  unfold scan_step at 3. cbn [waiting shown]. rewrite lookup_empty.
  unfold scan_step at 2. cbn [waiting shown]. rewrite lookup_insert_eq.
  destruct (scan_queried tabs (scan_begins st)) as [[tabId|] st'] eqn:Q.
  - unfold scan_step. cbn [waiting shown]. rewrite lookup_insert_eq.
    cbn [snd]. f_equal.
    now rewrite insert_insert_eq, delete_insert_eq, delete_empty.
  - unfold scan_step. cbn [waiting shown]. rewrite lookup_delete_eq.
    cbn [snd]. f_equal. now rewrite delete_insert_eq, delete_empty.
Qed.

(** What a run on its own leaves. *)
Lemma scanSVGs_view (answers : ScanAnswers) (st : PanelState) :
  let st' := snd (scanSVGs answers st) in
  isScanning st' = false
  /\ (scanError st' <> None -> svgItems st' = [])
  /\ (shows_error st', shows_empty st', shows_rows st')
     ∈ [(true, false, false); (false, true, false); (false, false, true)].
Proof.
  unfold scanSVGs, scan_queried, shows_empty, shows_rows, shows_error.
  destruct (tabs_query answers) as [tabs|m].
  - destruct (active_tab_id tabs) as [tabId|].
    + destruct (tabs_sendMessage answers tabId) as [[svgData|]|m]; cbn.
      * split; [reflexivity|]. split; [congruence|].
        destruct svgData; cbn; set_solver.
      * split; [reflexivity|]. split; [congruence|]. set_solver.
      * split; [reflexivity|]. split; [reflexivity|].
        destruct m; cbn; set_solver.
    + cbn. split; [reflexivity|]. split; [reflexivity|]. set_solver.
  - cbn. split; [reflexivity|]. split; [reflexivity|].
    destruct m; cbn; set_solver.
Qed.

(** X12.  The runs of [scanSVGs] may overlap: each is three stretches with
    an await between them, and the panel starts several.  Whatever the
    order of the stretches, once a run has begun and every run that began
    has ended, the spinner is off.  A run with no stretch of another run
    inside it also leaves no items beside an error, and leaves the panel
    with exactly one of the error box, the notice of the empty page and the
    rows. *)
Theorem X12_scan_leaves_one_view
        (steps : list ScanStep) (st : PanelState) (run : nat)
        (tabs : Result (list Tab)) (response : Result (option (list SVGItem))) :
  (In (Begins run) steps ->
   waiting (scan_steps steps (at_rest st)) = ∅ ->
   shows_spinner (shown (scan_steps steps (at_rest st))) = false)
  /\ (let s := scan_steps [Begins run; Queried run tabs; Answered run response]
                          (at_rest st) in
      waiting s = ∅
      /\ shows_spinner (shown s) = false
      /\ (scanError (shown s) <> None -> svgItems (shown s) = [])
      /\ (shows_error (shown s), shows_empty (shown s), shows_rows (shown s))
         ∈ [(true, false, false); (false, true, false); (false, false, true)]).
Proof.
  split.
  - revert st. unfold shows_spinner.
    assert (G : forall s : Scans,
               waiting s = ∅ -> In (Begins run) steps ->
               waiting (scan_steps steps s) = ∅ ->
               isScanning (shown (scan_steps steps s)) = false).
    { induction steps as [|step steps IH]; intros s E I; [destruct I|].
      cbn [scan_steps fold_left].
      destruct step as [r|r q|r a].
      - apply scan_steps_settled. cbn [scan_step]. rewrite E, lookup_empty.
        cbn [waiting]. intros X. apply (f_equal (fun m => m !! r)) in X.
        rewrite lookup_insert_eq, lookup_empty in X. discriminate X.
      - destruct I as [I|I]; [discriminate I|].
        cbn [scan_step]. rewrite E, lookup_empty. now apply IH.
      - destruct I as [I|I]; [discriminate I|].
        cbn [scan_step]. rewrite E, lookup_empty. now apply IH. }
    intros st. now apply G.
  - cbv zeta. rewrite scan_steps_isolated. cbn [at_rest waiting shown].
    split; [reflexivity|]. exact (scanSVGs_view _ st).
Qed.

(** X12 on two runs that overlap, the second failing inside the first: the
    spinner is off, and the error of the second run stays beside the rows
    of the first. *)
Lemma X12_witness :
  In (Begins 0)
     [Begins 0; Begins 1; Queried 0 (Resolve [ {| tab_id := Some 7 |} ]);
      Queried 1 (Reject "no tab"); Answered 0 (Resolve (Some [Instances.item 0 24 24]))]
  /\ shown (scan_steps
              [Begins 0; Begins 1; Queried 0 (Resolve [ {| tab_id := Some 7 |} ]);
               Queried 1 (Reject "no tab");
               Answered 0 (Resolve (Some [Instances.item 0 24 24]))]
              (at_rest Instances.initial_panel))
     = {| svgItems := [Instances.item 0 24 24]; isScanning := false;
          scanError := Some "no tab"%string; currentTabId := Some 7 |}
  /\ shows_spinner
       (shown (scan_steps
                 [Begins 0; Begins 1; Queried 0 (Resolve [ {| tab_id := Some 7 |} ]);
                  Queried 1 (Reject "no tab");
                  Answered 0 (Resolve (Some [Instances.item 0 24 24]))]
                 (at_rest Instances.initial_panel))) = false.
Proof.
  assert (I : In (Begins 0)
                 [Begins 0; Begins 1; Queried 0 (Resolve [ {| tab_id := Some 7 |} ]);
                  Queried 1 (Reject "no tab");
                  Answered 0 (Resolve (Some [Instances.item 0 24 24]))])
    by now left.
  split; [exact I|]. split; [reflexivity|].
  destruct (X12_scan_leaves_one_view
              [Begins 0; Begins 1; Queried 0 (Resolve [ {| tab_id := Some 7 |} ]);
               Queried 1 (Reject "no tab");
               Answered 0 (Resolve (Some [Instances.item 0 24 24]))]
              Instances.initial_panel 0 (Reject "none") (Reject "none")) as [G _].
  apply G; [exact I|]. vm_compute. reflexivity.
Defined.

(** ** Retrying, for any number of attempts *)

Section RetrySchedule.
Variable World : Type.
Variable fn : World -> Result unit * World.

Lemma retry_from_resolves (n : Z) (k : nat) :
  forall (rounds : nat) (i : Z) (w : World),
    (k < rounds)%nat -> i + Z.of_nat k < n ->
    rejects World fn k w ->
    (exists u, fst (fn (world_after World fn k w)) = Resolve u) ->
    retry_from World fn n rounds i w
    = (failed_attempts i k ++ [Attempt (i + Z.of_nat k)], Resolve tt,
       world_after World fn (S k) w).
Proof.
  induction k as [|k IH]; intros rounds i w Lr Ln Rj [u Ok].
  - destruct rounds as [|rounds]; [lia|]. cbn [retry_from world_after] in *.
    assert ((i <? n) = true) as -> by (apply Z.ltb_lt; lia).
    destruct (fn w) as [r w']. cbn [fst snd] in *. subst r.
    now rewrite Z.add_0_r.
  - destruct rounds as [|rounds]; [lia|].
    cbn [rejects] in Rj. destruct Rj as [[m Rm] Rj].
    cbn [retry_from].
    assert ((i <? n) = true) as -> by (apply Z.ltb_lt; lia).
    change (world_after World fn (S (S k)) w)
      with (world_after World fn (S k) (snd (fn w))).
    change (world_after World fn (S k) w)
      with (world_after World fn k (snd (fn w))) in Ok.
    destruct (fn w) as [r w']. cbn [fst snd] in *. subst r.
    assert ((i =? n - 1) = false) as -> by (apply Z.eqb_neq; lia).
    rewrite (IH rounds (i + 1) w') by (try lia; eauto).
    replace (i + Z.of_nat (S k)) with (i + 1 + Z.of_nat k) by lia. reflexivity.
Qed.

Lemma retry_from_rejects (n : Z) (k : nat) :
  forall (rounds : nat) (i : Z) (w : World) (m : string),
    (k < rounds)%nat -> i + Z.of_nat k = n - 1 ->
    rejects World fn k w ->
    fst (fn (world_after World fn k w)) = Reject m ->
    retry_from World fn n rounds i w
    = (failed_attempts i k ++ [Attempt (i + Z.of_nat k)], Reject m,
       world_after World fn (S k) w).
Proof.
  induction k as [|k IH]; intros rounds i w m Lr Ln Rj Last.
  - destruct rounds as [|rounds]; [lia|]. cbn [retry_from world_after] in *.
    assert ((i <? n) = true) as -> by (apply Z.ltb_lt; lia).
    destruct (fn w) as [r w']. cbn [fst snd] in *. subst r.
    assert ((i =? n - 1) = true) as -> by (apply Z.eqb_eq; lia).
    now rewrite Z.add_0_r.
  - destruct rounds as [|rounds]; [lia|].
    cbn [rejects] in Rj. destruct Rj as [[m' Rm] Rj].
    cbn [retry_from].
    assert ((i <? n) = true) as -> by (apply Z.ltb_lt; lia).
    change (world_after World fn (S (S k)) w)
      with (world_after World fn (S k) (snd (fn w))).
    change (world_after World fn (S k) w)
      with (world_after World fn k (snd (fn w))) in Last.
    destruct (fn w) as [r w']. cbn [fst snd] in *. subst r.
    assert ((i =? n - 1) = false) as -> by (apply Z.eqb_neq; lia).
    rewrite (IH rounds (i + 1) w' m) by (try lia; assumption).
    replace (i + Z.of_nat (S k)) with (i + 1 + Z.of_nat k) by lia. reflexivity.
Qed.

Lemma waited_failed_attempts (k : nat) :
  forall i : Z,
    waited (failed_attempts i k) = 1000 * Z.of_nat k * i + 500 * Z.of_nat k * (Z.of_nat k + 1).
Proof.
  induction k as [|k IH]; intros i; [reflexivity|].
  cbn [failed_attempts waited fold_right]. fold (waited (failed_attempts (i + 1) k)).
  rewrite IH. lia.
Qed.

(** X13.  [retryOnError(fn, maxRetries)] for every [maxRetries]: when it
    is not above zero, [fn] is never called and the promise resolves;
    otherwise [fn] is called up to its first success, or [maxRetries]
    times, the last error being passed on; the attempt [i] that fails is
    followed by a wait of [1000 (i + 1)] ms, so [k] failures wait
    [500 k (k + 1)] ms in all. *)
Theorem X13_retry_schedule (maxRetries : Z) (w : World) :
  (maxRetries <= 0 -> retryOnError World fn maxRetries w = ([], Resolve tt, w))
  /\ (forall k : nat,
         Z.of_nat k < maxRetries ->
         rejects World fn k w ->
         (exists u, fst (fn (world_after World fn k w)) = Resolve u) ->
         retryOnError World fn maxRetries w
         = (failed_attempts 0 k ++ [Attempt (Z.of_nat k)], Resolve tt,
            world_after World fn (S k) w))
  /\ (forall (k : nat) (m : string),
         Z.of_nat k = maxRetries - 1 ->
         rejects World fn k w ->
         fst (fn (world_after World fn k w)) = Reject m ->
         retryOnError World fn maxRetries w
         = (failed_attempts 0 k ++ [Attempt (Z.of_nat k)], Reject m,
            world_after World fn (S k) w))
  /\ (forall k : nat,
         waited (failed_attempts 0 k ++ [Attempt (Z.of_nat k)])
         = 500 * Z.of_nat k * (Z.of_nat k + 1)).
Proof.
  unfold retryOnError. split; [|split; [|split]].
  - intros L. replace (Z.to_nat maxRetries) with O by lia. reflexivity.
  - intros k L Rj Ok.
    now rewrite (retry_from_resolves maxRetries k (Z.to_nat maxRetries) 0 w)
      by (try lia; assumption).
  - intros k m L Rj Last.
    now rewrite (retry_from_rejects maxRetries k (Z.to_nat maxRetries) 0 w m)
      by (try lia; assumption).
  - intros k. pose proof (waited_failed_attempts k 0) as E.
    unfold waited in *. rewrite fold_right_app. cbn [fold_right]. rewrite E. lia.
Qed.

End RetrySchedule.

(** ** The tab listeners *)

Lemma scanSVGs_currentTabId (answers : ScanAnswers) (st : PanelState)
      (tabId : Z) (rest : list Tab) :
  tabId <> 0 ->
  tabs_query answers = Resolve ({| tab_id := Some tabId |} :: rest) ->
  currentTabId (snd (scanSVGs answers st)) = Some tabId.
Proof.
  intros N Q. unfold scanSVGs, scan_queried. rewrite Q. cbn [active_tab_id tab_id].
  destruct tabId as [|p|p]; [contradiction| |];
    match goal with
    | |- context [tabs_sendMessage answers ?t] =>
        destruct (tabs_sendMessage answers t) as [[svgData|]|m]; reflexivity
    end.
Qed.

(** X14.  After [handleTabChange] for the tab that the browser reports as
    active, the panel follows that tab: a further activation of it does
    not scan, an update of it scans exactly when its status is
    [complete], an update of another tab does not scan, and the activation
    of another tab scans. *)
Theorem X14_tab_listeners
        (answers later : ScanAnswers) (st : PanelState) (tabId : Z) (rest : list Tab) :
  tabId <> 0 ->
  tabs_query answers = Resolve ({| tab_id := Some tabId |} :: rest) ->
  let st' := snd (handleTabChange answers tabId st) in
  currentTabId st' = Some tabId
  /\ handleTabChange later tabId st' = (false, st')
  /\ handleTabUpdate later tabId (Some (str "complete")) st'
     = (true, snd (scanSVGs later st'))
  /\ (forall (other : Z) (status : option jsstring),
         other <> tabId -> handleTabUpdate later other status st' = (false, st'))
  /\ (forall status : option jsstring,
         status <> Some (str "complete") ->
         handleTabUpdate later tabId status st' = (false, st'))
  /\ (forall other : Z,
         other <> tabId ->
         handleTabChange later other st' = (true, snd (scanSVGs later st'))).
Proof.
  intros N Q st'.
  assert (C : currentTabId st' = Some tabId).
  { subst st'. unfold handleTabChange.
    destruct (tab_differs (currentTabId st) tabId) eqn:D; cbn [snd].
    - exact (scanSVGs_currentTabId answers st tabId rest N Q).
    - unfold tab_differs in D. destruct (currentTabId st) as [c|]; [|discriminate D].
      apply negb_false_iff, Z.eqb_eq in D. now subst c. }
  split; [exact C|].
  unfold handleTabChange, handleTabUpdate, tab_differs. rewrite C, Z.eqb_refl.
  cbn [negb andb].
  split; [reflexivity|]. split; [now rewrite str_eqb_refl|]. split; [|split].
  - intros other status No.
    assert ((tabId =? other) = false) as -> by (apply Z.eqb_neq; congruence).
    now rewrite andb_false_r.
  - intros status Ns.
    destruct status as [s|]; [|reflexivity].
    destruct (str_eqb s (str "complete")) eqn:E; [|reflexivity].
    apply str_eqb_eq in E. subst s. contradiction.
  - intros other No.
    now assert ((tabId =? other) = false) as -> by (apply Z.eqb_neq; congruence).
Qed.

(** X14 on the tab 7. *)
Lemma X14_witness :
  7 <> 0
  /\ currentTabId (snd (handleTabChange (Instances.active_tab 7 None) 7 Instances.initial_panel)) = Some 7
  /\ handleTabChange (Instances.active_tab 7 None) 7
       (snd (handleTabChange (Instances.active_tab 7 None) 7 Instances.initial_panel))
     = (false, snd (handleTabChange (Instances.active_tab 7 None) 7 Instances.initial_panel)).
Proof.
  assert (N : 7 <> 0) by discriminate.
  split; [exact N|].
  destruct (X14_tab_listeners (Instances.active_tab 7 None) (Instances.active_tab 7 None) Instances.initial_panel
              7 [] N eq_refl) as (C & Again & _).
  split; [exact C|exact Again].
Defined.

(** ** Sizes as the scanner parses them *)

Lemma span_stop (p : N -> bool) (m rest : jsstring) :
  forallb p m = true ->
  match rest with [] => True | c :: _ => p c = false end ->
  span p (m ++ rest) = (m, rest).
Proof.
  intros F S. induction m as [|c m IH]; cbn [app].
  - destruct rest as [|c r]; [reflexivity|]. cbn [span]. now rewrite S.
  - cbn [forallb] in F. apply andb_prop in F as [Fc Fm].
    cbn [span]. rewrite Fc, (IH Fm). reflexivity.
Qed.

Section ParseSize.
Context {host : Engine}.

(** X15.  [parseSize] reads the digits a size starts with and ignores what
    follows them when that is no digit and no dot: a unit, a percent sign,
    anything.  A size that starts with no digit and no dot, a negative one
    included, counts as 0, as does a missing one. *)
Theorem X15_parseSize_leading_number (ds unit : jsstring) :
  ds <> [] -> forallb is_digit ds = true -> no_size_ahead unit = true ->
  parseSize (Some (ds ++ unit))
  = fl (inject_Z (Z.of_N (digits_value ds)) / inject_Z 1)
  /\ parseSize (Some (ds ++ unit)) = parseSize (Some ds)
  /\ (forall s, no_size_ahead s = true -> parseSize (Some s) = Num 0)
  /\ parseSize None = Num 0.
Proof.
  intros NE D U.
  assert (Dm : forallb (fun c => is_digit c || (c =? 46)%N) ds = true).
  { apply forallb_forall. intros c I.
    rewrite forallb_forall in D. now rewrite (D c I). }
  assert (P : parseFloat ds = fl (inject_Z (Z.of_N (digits_value ds)) / inject_Z 1)).
  { unfold parseFloat.
    rewrite <- (app_nil_r ds) at 1. rewrite (span_stop is_digit ds [] D I).
    rewrite app_nil_r. destruct ds as [|d ds]; [contradiction|reflexivity]. }
  assert (A : forall rest, no_size_ahead rest = true ->
                           parseSize (Some (ds ++ rest)) = parseFloat ds).
  { intros rest R. unfold parseSize.
    rewrite (span_stop _ ds rest Dm).
    - cbn [fst]. destruct ds as [|d ds]; [contradiction|reflexivity].
    - destruct rest as [|c r]; [exact I|]. cbn in R. now apply negb_true_iff in R. }
  split; [now rewrite (A unit U)|].
  split.
  - rewrite (A unit U). rewrite <- (A [] eq_refl). now rewrite app_nil_r.
  - split; [|reflexivity].
    intros s S. unfold parseSize. destruct s as [|c r]; [reflexivity|].
    cbn in S. apply negb_true_iff in S. cbn [span].
    unfold is_size_char in S. now rewrite S.
Qed.

End ParseSize.

(** X15 on the size 12px. *)
Lemma X15_witness :
  str "12" <> [] /\ forallb is_digit (str "12") = true
  /\ no_size_ahead (str "px") = true
  /\ parseSize (host := Instances.wide_engine) (Some (str "12" ++ str "px"))
     = Num (12 # 1).
Proof.
  assert (NE : str "12" <> []) by discriminate.
  split; [exact NE|]. split; [reflexivity|]. split; [reflexivity|].
  destruct (X15_parseSize_leading_number (host := Instances.wide_engine)
              (str "12") (str "px") NE eq_refl eq_refl) as [V _].
  exact V.
Defined.


Section ViewBox.
Context {host : Engine}.

(** X16.  For an element that lacks a width or a height attribute, a
    [viewBox] of four parts separated by single spaces, the third and the
    fourth not empty, gives the two strings that are parsed, whatever the
    computed style and the bounding box are. *)
Theorem X16_viewBox_dimensions (svg : Element) (a b w h : jsstring) :
  falsy_str (getAttribute svg (str "width"))
  || falsy_str (getAttribute svg (str "height")) = true ->
  getAttribute svg (str "viewBox") = Some (a ++ 32%N :: b ++ 32%N :: w ++ 32%N :: h) ->
  free_of 32 a -> free_of 32 b -> free_of 32 w -> free_of 32 h ->
  w <> [] -> h <> [] ->
  size_strings svg = (Some w, Some h)
  /\ getSVGDimensions svg
     = {| width := or_else (parseSize (Some w))
                     (or_else (of_Z (clientWidth (data svg))) (of_Z 100));
          height := or_else (parseSize (Some h))
                      (or_else (of_Z (clientHeight (data svg))) (of_Z 100)) |}.
Proof.
  intros Miss V Fa Fb Fw Fh Nw Nh.
  assert (S : size_strings svg = (Some w, Some h)).
  { unfold size_strings. rewrite Miss, V.
    assert (NE : falsy_str (Some (a ++ 32%N :: b ++ 32%N :: w ++ 32%N :: h)) = false)
      by (destruct a; reflexivity).
    rewrite NE. cbn [negb andb].
    rewrite (split_first 32 a _ Fa), (split_first 32 b _ Fb), (split_first 32 w _ Fw),
      (split_free_of 32 h Fh).
    cbn [List.length Nat.eqb at_index nth_error].
    destruct w as [|cw w]; [contradiction|]. destruct h as [|ch h]; [contradiction|].
    reflexivity. }
  split; [exact S|]. unfold getSVGDimensions. now rewrite S.
Qed.

End ViewBox.

(** X16 on an element with the viewBox 0 0 10 20. *)
Lemma X16_witness :
  free_of 32 (str "0") /\ free_of 32 (str "10") /\ free_of 32 (str "20")
  /\ size_strings (host := Instances.wide_engine) Instances.viewBox_only
     = (Some (str "10"), Some (str "20")).
Proof.
  assert (F0 : free_of 32 (str "0")) by (repeat constructor; discriminate).
  assert (F1 : free_of 32 (str "10")) by (repeat constructor; discriminate).
  assert (F2 : free_of 32 (str "20")) by (repeat constructor; discriminate).
  split; [exact F0|]. split; [exact F1|]. split; [exact F2|].
  apply (X16_viewBox_dimensions (host := Instances.wide_engine) Instances.viewBox_only
           (str "0") (str "0") (str "10") (str "20") eq_refl eq_refl F0 F0 F1 F2);
    discriminate.
Defined.


(** ** From the scanner to the panel *)

(** An item that arrives with its two dimensions arrives as it was sent,
    and its dimensions are finite. *)
Lemma delivered_same (item item' : SVGItem) :
  delivered item = Some item' ->
  item' = item
  /\ exists w h : Q, dimensions item = {| width := Num w; height := Num h |}.
Proof.
  destruct item as [i html [[|nw|w] [|nh|h]]]; cbn; try discriminate.
  intros [= <-]. split; [reflexivity|]. now exists w, h.
Qed.

Lemma delivered_all_same (svgData items : list SVGItem) :
  delivered_all svgData = Some items -> items = svgData.
Proof.
  revert items. induction svgData as [|item rest IH]; intros items; cbn.
  - now intros [= <-].
  - destruct (delivered item) as [item'|] eqn:D; [|discriminate].
    destruct (delivered_all rest) as [rest'|]; [|discriminate].
    intros [= <-]. apply delivered_same in D as [-> _]. now rewrite (IH rest' eq_refl).
Qed.

Section ScannedItems.
Context {host : Engine}.
Hypothesis fl_ge_zero : forall q : Q, (0 <= q)%Q -> ge_zero (fl q).

Lemma svgData_from_In (svgElements : list Element) :
  forall (start : nat) (item : SVGItem),
    In item (svgData_from start svgElements) ->
    exists svg, In svg svgElements /\ dimensions item = getSVGDimensions svg.
Proof.
  induction svgElements as [|svg rest IH]; intros start item I; [destruct I|].
  cbn [svgData_from] in I. destruct I as [<-|I].
  - exists svg. split; [now left|reflexivity].
  - destruct (IH _ _ I) as (svg' & I' & E). exists svg'. split; [now right|exact E].
Qed.

(** X17.  A record of the scanner for an element whose client box is not
    negative, once it has arrived at the panel with its two dimensions (the
    channel writes [null] for a dimension that is not finite), has a finite
    width and height above zero, so every preset of the panel that names a
    size, the original size included, gives the rasterizer a finite width
    and height above zero. *)
Theorem X17_scanned_sizes_positive
        (svgElements : list Element) (start : nat) (item item' : SVGItem)
        (size : PresetSize) :
  List.Forall (fun svg => 0 <= clientWidth (data svg) /\ 0 <= clientHeight (data svg))
              svgElements ->
  In item (svgData_from start svgElements) ->
  delivered item = Some item' ->
  In size PRESET_SIZES -> 0 <= preset_width size ->
  item' = item
  /\ (exists w h : Q,
         dimensions item' = {| width := Num w; height := Num h |}
         /\ (0 < w)%Q /\ (0 < h)%Q)
  /\ (exists tw th : Q,
         target_size item' size = (Num tw, Num th) /\ (0 < tw)%Q /\ (0 < th)%Q).
Proof.
  intros F I D Is Nn.
  destruct (delivered_same item item' D) as (-> & w & h & Dim).
  destruct (svgData_from_In _ _ _ I) as (svg & Isvg & E).
  rewrite List.Forall_forall in F. destruct (F svg Isvg) as [CW CH].
  assert (Gw : gt_zero (width (dimensions item))).
  { rewrite E, getSVGDimensions_resolve. cbn [width].
    now apply (resolve_gt_zero fl_ge_zero). }
  assert (Gh : gt_zero (height (dimensions item))).
  { rewrite E, getSVGDimensions_resolve. cbn [height].
    now apply (resolve_gt_zero fl_ge_zero). }
  rewrite Dim in Gw, Gh. cbn in Gw, Gh.
  split; [reflexivity|].
  split; [exists w, h; now repeat split|].
  unfold target_size. rewrite Dim. cbn [width height]. simpl in Is.
  destruct Is as [<-|Is]; [exists 16%Q, 16%Q; now repeat split|].
  destruct Is as [<-|Is]; [exists 32%Q, 32%Q; now repeat split|].
  destruct Is as [<-|Is]; [exists 48%Q, 48%Q; now repeat split|].
  destruct Is as [<-|Is]; [exists 128%Q, 128%Q; now repeat split|].
  destruct Is as [<-|Is]; [exists w, h; now repeat split|].
  destruct Is as [<-|Is]; [cbn in Nn; lia|].
  destruct Is as [<-|Is]; [cbn in Nn; lia|].
  destruct Is.
Qed.

End ScannedItems.

(** X17 on doubles: the record of an element sized by its [viewBox], and
    the original size. *)
Lemma X17_witness :
  delivered {| id := 0; item_outerHTML := str "<svg/>";
               dimensions := getSVGDimensions (host := Instances.wide_engine)
                               Instances.viewBox_only |}
  = Some {| id := 0; item_outerHTML := str "<svg/>";
            dimensions := {| width := Num 10; height := Num 20 |} |}
  /\ In Instances.original_preset PRESET_SIZES
  /\ 0 <= preset_width Instances.original_preset
  /\ exists tw th : Q,
      target_size {| id := 0; item_outerHTML := str "<svg/>";
                     dimensions := {| width := Num 10; height := Num 20 |} |}
                  Instances.original_preset = (Num tw, Num th)
      /\ (0 < tw)%Q /\ (0 < th)%Q.
Proof.
  assert (D : delivered {| id := 0; item_outerHTML := str "<svg/>";
                           dimensions := getSVGDimensions (host := Instances.wide_engine)
                                           Instances.viewBox_only |}
              = Some {| id := 0; item_outerHTML := str "<svg/>";
                        dimensions := {| width := Num 10; height := Num 20 |} |})
    by (vm_compute; reflexivity).
  assert (Is : In Instances.original_preset PRESET_SIZES) by (do 4 right; now left).
  assert (Nn : 0 <= preset_width Instances.original_preset) by discriminate.
  split; [exact D|]. split; [exact Is|]. split; [exact Nn|].
  assert (Box : List.Forall
                  (fun svg => 0 <= clientWidth (data svg) /\ 0 <= clientHeight (data svg))
                  [Instances.viewBox_only])
    by (repeat constructor; discriminate).
  destruct (X17_scanned_sizes_positive (host := Instances.wide_engine) round_ge_zero
              [Instances.viewBox_only] 0 _ _ Instances.original_preset
              Box (or_introl eq_refl) D Is Nn)
    as (_ & _ & T).
  exact T.
Defined.

(** ** A scan from end to end *)

Section EndToEnd.
Context {host : Engine}.

(** X18.  From the page to the panel.  A request that the scanner does not
    answer from its cache, on a page that reads as it is, is answered with
    one record for each element of the traversal; when every dimension in
    it is finite the response arrives as it was sent; and the run of
    [scanSVGs] that was waiting for it, whatever other runs are under way,
    then shows those records: their ids are 0, 1, 2, ... in the order of
    the traversal, hence distinct, and the run is under way no longer. *)
Theorem X18_scan_reaches_panel
        (document : Root) (live : nat -> ElementData) (now : Z) (c : Cache)
        (s : Scans) (run : nat) (tabId : Z) (svgData : list SVGItem) :
  cachedElements c = None \/ CACHE_DURATION <= now - lastScanTime c ->
  (forall e, In e (traverse document) -> live (uid (data e)) = data e) ->
  delivered_all (svgData_from 0 (traverse document)) = Some svgData ->
  waiting s !! run = Some (ForResponse tabId) ->
  fst (Content.onMessage (str "scanSVG") document live now c)
  = Some (svgData_from 0 (traverse document))
  /\ svgData = svgData_from 0 (traverse document)
  /\ (let s' := scan_step s (Answered run (Resolve (Some svgData))) in
      svgItems (shown s') = svgData_from 0 (traverse document)
      /\ waiting s' !! run = None
      /\ List.map id (svgItems (shown s')) = List.seq 0 (List.length (traverse document))
      /\ List.NoDup (List.map id (svgItems (shown s')))).
Proof.
  intros Miss Live D W.
  split.
  { unfold Content.onMessage. rewrite str_eqb_refl.
    pose proof (scanSVGElements_miss document now c Miss) as S.
    destruct (scanSVGElements document now c) as [l c'].
    cbn [fst] in *. subst l. now rewrite (read_now_page live _ Live). }
  apply delivered_all_same in D. split; [exact D|].
  cbv zeta. unfold scan_step. rewrite W. cbn [shown waiting scan_answered svgItems].
  split; [exact D|]. split; [apply lookup_delete_eq|].
  rewrite D, svgData_from_ids. split; [reflexivity|apply List.seq_NoDup].
Qed.

End EndToEnd.

(** X18 on doubles and a page with an [svg] in the document, one three
    shadow roots deep and one in a frame, while another run is under
    way. *)
Lemma X18_witness :
  (cachedElements initial_cache = None
   \/ CACHE_DURATION <= 5000 - lastScanTime initial_cache)
  /\ delivered_all (svgData_from (host := Instances.wide_engine) 0
                      (traverse Instances.deep_page))
     = Some (svgData_from (host := Instances.wide_engine) 0
               [Instances.plain_svg 0; Instances.plain_svg 4])
  /\ waiting (scan_steps [Begins 0; Begins 1;
                          Queried 0 (Resolve [ {| tab_id := Some 7 |} ])]
                         (at_rest Instances.initial_panel)) !! 0%nat
     = Some (ForResponse 7)
  /\ List.map id
       (svgItems
          (shown
             (scan_step
                (scan_steps [Begins 0; Begins 1;
                             Queried 0 (Resolve [ {| tab_id := Some 7 |} ])]
                            (at_rest Instances.initial_panel))
                (Answered 0
                   (Resolve (Some (svgData_from (host := Instances.wide_engine) 0
                                     [Instances.plain_svg 0; Instances.plain_svg 4])))))))
     = [0; 1]%nat.
Proof.
  assert (D : delivered_all (svgData_from (host := Instances.wide_engine) 0
                               (traverse Instances.deep_page))
              = Some (svgData_from (host := Instances.wide_engine) 0
                        [Instances.plain_svg 0; Instances.plain_svg 4]))
    by (vm_compute; reflexivity).
  assert (W : waiting (scan_steps [Begins 0; Begins 1;
                                   Queried 0 (Resolve [ {| tab_id := Some 7 |} ])]
                                  (at_rest Instances.initial_panel)) !! 0%nat
              = Some (ForResponse 7)) by (vm_compute; reflexivity).
  assert (Live : forall e, In e (traverse Instances.deep_page) ->
                           Instances.deep_page_live (uid (data e)) = data e).
  { intros e [<-|[<-|[]]]; reflexivity. }
  split; [now left|]. split; [exact D|]. split; [exact W|].
  destruct (X18_scan_reaches_panel (host := Instances.wide_engine)
              Instances.deep_page Instances.deep_page_live 5000 initial_cache
              _ 0%nat 7 _ (or_introl eq_refl) Live D W)
    as (_ & _ & _ & _ & Ids & _).
  exact Ids.
Defined.

(** ** The box of the offscreen rasterizer *)

Section Letterbox.
Context {host : Engine}.
Variables u eta : Q.
Hypothesis u_ge_0 : (0 <= u)%Q.
Hypothesis u_le_1 : (u <= 1)%Q.
Hypothesis eta_ge_0 : (0 <= eta)%Q.
Hypothesis fl_error :
  forall q r : Q, fl q = Num r -> (Qabs (r - q) <= u * Qabs q + eta)%Q.

(** The rounded quotient [a] of a side [W] of the box by the side [w] of
    the image, taken back to the side. *)
Lemma quotient_back (w W a : Q) :
  (0 < w)%Q -> (0 <= W)%Q -> fl (W / w) = Num a ->
  (W - (u * W + w * eta) <= w * a <= W + (u * W + w * eta))%Q.
Proof.
  intros Pw PW E. apply fl_error in E.
  assert (PQ : (0 <= W / w)%Q) by (apply Qle_shift_div_l; [exact Pw|lra]).
  rewrite (Qabs_pos _ PQ) in E. apply Qabs_le_bounds in E.
  assert (B : (w * (W / w) == W)%Q) by (field; lra).
  destruct E as [E1 E2].
  apply (Qmult_le_l _ _ w Pw) in E1, E2.
  set (c := (W / w)%Q) in *. clearbody c. clear fl_error.
  assert (B2 : (u * (w * c) == u * W)%Q) by (now rewrite B).
  split; lra.
Qed.

(** A side of the image as drawn does not pass the side of the box by
    more than the roundings allow. *)
Lemma side_within (w W a s' sw' : Q) :
  (0 < w)%Q -> (0 <= W)%Q -> fl (W / w) = Num a -> (s' <= a)%Q ->
  fl (w * s') = Num sw' ->
  (sw' <= (1 + u) * ((1 + u) * W + w * eta) + eta)%Q.
Proof.
  intros Pw PW Ea Le Es.
  destruct (quotient_back w W a Pw PW Ea) as [_ Up].
  apply fl_error in Es. apply Qabs_le_bounds in Es. destruct Es as [_ Es].
  assert (P : (w * s' <= w * a)%Q) by (apply Qmult_le_l; assumption).
  assert (We : (0 <= w * eta)%Q) by (apply Qmult_le_0_compat; lra).
  set (p := (w * s')%Q) in *. set (e := (w * eta)%Q) in *. set (q := (w * a)%Q) in *.
  clearbody p e q. clear fl_error.
  assert (B : (p <= (1 + u) * W + e)%Q) by lra.
  assert (UW : (0 <= u * W)%Q) by (apply Qmult_le_0_compat; lra).
  destruct (Qlt_le_dec p 0) as [Sg|Sg].
  - rewrite (Qabs_neg p) in Es by lra.
    assert (X : (0 <= u * - p)%Q) by (apply Qmult_le_0_compat; lra).
    assert (Y : (u * - p <= - p)%Q) by nra.
    assert (Z : (0 <= u * ((1 + u) * W + e))%Q) by (apply Qmult_le_0_compat; lra).
    lra.
  - rewrite (Qabs_pos p Sg) in Es.
    assert (X : (u * p <= u * ((1 + u) * W + e))%Q) by nra.
    lra.
Qed.

(** The side of the image along which the scale was taken fills the side
    of the box, up to the roundings. *)
Lemma side_fills (w W a sw' : Q) :
  (0 < w)%Q -> (0 <= W)%Q -> fl (W / w) = Num a ->
  fl (w * a) = Num sw' ->
  (W - (u * (2 + u) * W + (1 + u) * (w * eta) + eta) <= sw')%Q.
Proof.
  intros Pw PW Ea Es.
  destruct (quotient_back w W a Pw PW Ea) as [Lo Up].
  apply fl_error in Es. apply Qabs_le_bounds in Es. destruct Es as [Es _].
  assert (We : (0 <= w * eta)%Q) by (apply Qmult_le_0_compat; lra).
  assert (UW : (0 <= u * W)%Q) by (apply Qmult_le_0_compat; lra).
  set (e := (w * eta)%Q) in *. set (q := (w * a)%Q) in *.
  clearbody e q. clear fl_error.
  destruct (Qlt_le_dec q 0) as [Sg|Sg].
  - rewrite (Qabs_neg q) in Es by lra.
    assert (X : (u * (W - (u * W + e)) <= u * q)%Q) by nra.
    assert (Y : (0 <= u * (u * W))%Q) by (apply Qmult_le_0_compat; lra).
    lra.
  - rewrite (Qabs_pos q Sg) in Es.
    assert (X : (u * q <= u * (W + (u * W + e)))%Q) by nra.
    lra.
Qed.

(** X19.  The offscreen rasterizer draws the image inside the target box
    and against two of its edges, up to the roundings: when neither
    quotient overflows and the image is drawn [sw] by [sh], neither side
    passes the side of the box by more than the roundings of the quotient
    and of the product allow, and one side is no shorter than the side of
    the box by more than they allow. *)
Theorem X19_draw_fits_box
        (img : Image) (w h W Ht a b sw sh : Q) (x y : number) :
  img_width img = Num w -> img_height img = Num h ->
  (0 < w)%Q -> (0 < h)%Q -> (0 <= W)%Q -> (0 <= Ht)%Q ->
  div (Num W) (Num w) = Num a -> div (Num Ht) (Num h) = Num b ->
  Offscreen.draw img (Num W) (Num Ht) =
  [SetImageSmoothingEnabled true;
   SetImageSmoothingQuality "high";
   DrawImage img x y (Num sw) (Num sh)] ->
  (sw <= (1 + u) * ((1 + u) * W + w * eta) + eta)%Q
  /\ (sh <= (1 + u) * ((1 + u) * Ht + h * eta) + eta)%Q
  /\ ((W - (u * (2 + u) * W + (1 + u) * (w * eta) + eta) <= sw)%Q
      \/ (Ht - (u * (2 + u) * Ht + (1 + u) * (h * eta) + eta) <= sh)%Q).
Proof.
  intros Ew Eh Pw Ph PW PH Ea Eb D.
  unfold Offscreen.draw in D. rewrite Ew, Eh, Ea, Eb in D.
  rewrite (div_rounds _ _ Pw) in Ea. rewrite (div_rounds _ _ Ph) in Eb.
  injection D as _ _ Esw Esh.
  unfold Math_min in Esw, Esh. destruct (Qle_bool a b) eqn:L.
  - apply Qle_bool_iff in L. cbn [mul] in Esw, Esh.
    split; [exact (side_within w W a a sw Pw PW Ea (Qle_refl a) Esw)|].
    split; [exact (side_within h Ht b a sh Ph PH Eb L Esh)|].
    left. exact (side_fills w W a sw Pw PW Ea Esw).
  - assert (L' : (b <= a)%Q).
    { destruct (Qlt_le_dec b a) as [Lt|Le]; [now apply Qlt_le_weak|].
      apply Qle_bool_iff in Le. congruence. }
    cbn [mul] in Esw, Esh.
    split; [exact (side_within w W a b sw Pw PW Ea L' Esw)|].
    split; [exact (side_within h Ht b b sh Ph PH Eb (Qle_refl b) Esh)|].
    right. exact (side_fills h Ht b sh Ph PH Eb Esh).
Qed.

End Letterbox.

(** X19 on doubles: an image 49 by 49 in a box 1 by 1 is drawn a last
    place short of the box. *)
Lemma X19_witness :
  (0 <= Binary64.unit_roundoff)%Q /\ (Binary64.unit_roundoff <= 1)%Q
  /\ (0 <= Binary64.half_least)%Q
  /\ (0 < 49)%Q /\ (0 <= 1)%Q
  /\ Offscreen.draw (host := Instances.square_engine) Instances.square_image
                    (Num 1) (Num 1) =
     [SetImageSmoothingEnabled true;
      SetImageSmoothingQuality "high";
      DrawImage Instances.square_image
        (Num (1 # 18014398509481984)) (Num (1 # 18014398509481984))
        (Num (9007199254740991 # 9007199254740992))
        (Num (9007199254740991 # 9007199254740992))]
  /\ ((9007199254740991 # 9007199254740992)
      <= (1 + Binary64.unit_roundoff)
         * ((1 + Binary64.unit_roundoff) * 1 + 49 * Binary64.half_least)
         + Binary64.half_least)%Q
  /\ (1 - (Binary64.unit_roundoff * (2 + Binary64.unit_roundoff) * 1
           + (1 + Binary64.unit_roundoff) * (49 * Binary64.half_least)
           + Binary64.half_least)
      <= 9007199254740991 # 9007199254740992)%Q.
Proof.
  assert (U0 : (0 <= Binary64.unit_roundoff)%Q) by discriminate.
  assert (U1 : (Binary64.unit_roundoff <= 1)%Q) by (vm_compute; discriminate).
  assert (E0 : (0 <= Binary64.half_least)%Q) by discriminate.
  assert (P : (0 < 49)%Q) by reflexivity.
  assert (B : (0 <= 1)%Q) by discriminate.
  assert (D : Offscreen.draw (host := Instances.square_engine) Instances.square_image
                             (Num 1) (Num 1) =
              [SetImageSmoothingEnabled true;
               SetImageSmoothingQuality "high";
               DrawImage Instances.square_image
                 (Num (1 # 18014398509481984)) (Num (1 # 18014398509481984))
                 (Num (9007199254740991 # 9007199254740992))
                 (Num (9007199254740991 # 9007199254740992))])
    by (vm_compute; reflexivity).
  assert (A : div (host := Instances.square_engine) (Num 1) (Num 49)
              = Num (5882252574524729 # 288230376151711744))
    by (vm_compute; reflexivity).
  split; [exact U0|]. split; [exact U1|]. split; [exact E0|].
  split; [exact P|]. split; [exact B|]. split; [exact D|].
  destruct (X19_draw_fits_box (host := Instances.square_engine)
              Binary64.unit_roundoff Binary64.half_least U0 U1 E0 round_error
              Instances.square_image 49 49 1 1 _ _ _ _ _ _
              eq_refl eq_refl P P B B A A D) as (In1 & _ & [Fill|Fill]).
  - split; [exact In1|exact Fill].
  - split; [exact In1|exact Fill].
Defined.

Section EmptyImage.
Context {host : Engine}.

Lemma gt_zero_div_zero (W : number) (q : Q) :
  gt_zero W -> (q == 0)%Q -> div W (Num q) = Inf false.
Proof.
  intros G Z. destruct W as [|[|]|v]; cbn in G |- *; try contradiction; try discriminate.
  - unfold is_neg. assert (E : Qle_bool 0 q = true) by (apply Qle_bool_iff; lra).
    now rewrite E.
  - assert (E : Qeq_bool q 0 = true) by now apply Qeq_bool_iff.
    rewrite E.
    assert (E' : Qeq_bool v 0 = false).
    { destruct (Qeq_bool v 0) eqn:X; [|reflexivity]. apply Qeq_bool_iff in X. lra. }
    rewrite E'. unfold is_neg.
    assert (E'' : Qle_bool 0 v = true) by (apply Qle_bool_iff; lra).
    now rewrite E''.
Qed.

(** X20.  An image that decodes with width 0 and height 0 does not make
    [processImage] reject: for a target above zero it resolves with the
    PNG of a canvas whose [drawImage] got NaN for its four geometry
    arguments. *)
Theorem X20_empty_image
        (svgString url : jsstring) (img : Image) (w h : Q) (W Ht : number) :
  Offscreen.svgToBase64 svgString = Some url ->
  loadImage url = Some img ->
  getContext2d = true ->
  img_width img = Num w -> img_height img = Num h ->
  (w == 0)%Q -> (h == 0)%Q ->
  gt_zero W -> gt_zero Ht ->
  Offscreen.processImage svgString W Ht =
  Resolve (toDataURL
             {| canvas_width := W; canvas_height := Ht;
                canvas_ops :=
                  [SetImageSmoothingEnabled true;
                   SetImageSmoothingQuality "high";
                   DrawImage img NaN NaN NaN NaN] |}).
Proof.
  intros U L C Ew Eh Zw Zh GW GH.
  unfold Offscreen.processImage. rewrite U, L, C. do 3 f_equal.
  unfold Offscreen.draw. rewrite Ew, Eh.
  rewrite (gt_zero_div_zero W w GW Zw), (gt_zero_div_zero Ht h GH Zh).
  cbn [Math_min mul].
  assert (E1 : Qeq_bool w 0 = true) by now apply Qeq_bool_iff.
  assert (E2 : Qeq_bool h 0 = true) by now apply Qeq_bool_iff.
  rewrite E1, E2.
  destruct W, Ht; reflexivity.
Qed.

End EmptyImage.

(** X20 on a box 16 by 16. *)
Lemma X20_witness :
  gt_zero (of_Z 16)
  /\ Offscreen.processImage (host := Instances.empty_engine) (str "<svg/>") (of_Z 16) (of_Z 16)
     = Resolve (toDataURL (Engine := Instances.empty_engine)
                  {| canvas_width := of_Z 16; canvas_height := of_Z 16;
                     canvas_ops :=
                       [SetImageSmoothingEnabled true;
                        SetImageSmoothingQuality "high";
                        DrawImage Instances.empty_image NaN NaN NaN NaN] |}).
Proof.
  assert (G : gt_zero (of_Z 16)) by reflexivity.
  split; [exact G|].
  apply (X20_empty_image (host := Instances.empty_engine) (str "<svg/>") Instances.plain_url
           Instances.empty_image (inject_Z 0) (inject_Z 0) (of_Z 16) (of_Z 16));
    first [reflexivity|exact G].
Defined.

(** ** The data URL of the offscreen rasterizer *)

Lemma utf8_ascii (s : jsstring) :
  List.Forall (fun c => (c < 128)%N) s -> utf8 s = Some s.
Proof.
  unfold utf8. induction s as [|c t IH]; intros F; [reflexivity|].
  inversion F as [|? ? Lc Ft]; subst. cbn [utf8_from].
  assert (H : is_high_surrogate c = false)
    by (unfold is_high_surrogate; apply andb_false_intro1, N.leb_gt; lia).
  assert (L : is_low_surrogate c = false)
    by (unfold is_low_surrogate; apply andb_false_intro1, N.leb_gt; lia).
  rewrite H, L, (IH Ft). cbn [option_map]. unfold utf8_of_code_point.
  assert ((c <? 128)%N = true) as -> by now apply N.ltb_lt. reflexivity.
Qed.

Lemma utf8_of_code_point_length (cp : N) :
  (1 <= List.length (utf8_of_code_point cp) <= 4)%nat
  /\ ((cp < 65536)%N -> (List.length (utf8_of_code_point cp) <= 3)%nat).
Proof.
  unfold utf8_of_code_point.
  destruct (cp <? 128)%N; [cbn; lia|].
  destruct (cp <? 2048)%N; [cbn; lia|].
  destruct (cp <? 65536)%N eqn:E; [cbn; lia|].
  cbn. split; [lia|]. intros L. apply N.ltb_ge in E. lia.
Qed.

Lemma utf8_scalars (s : jsstring) :
  forallb is_scalar s = true ->
  exists bytes,
    utf8 s = Some bytes
    /\ (List.length s <= List.length bytes <= 3 * List.length s)%nat.
Proof.
  unfold utf8. induction s as [|c t IH]; intros F; [exists []; split; [reflexivity|cbn; lia]|].
  cbn [forallb] in F. apply andb_prop in F as [Fc Ft].
  destruct (IH Ft) as (bytes & E & L).
  unfold is_scalar in Fc. apply andb_prop in Fc as [Fc Nl].
  apply andb_prop in Fc as [Lt Nh].
  apply negb_true_iff in Nh, Nl. apply N.ltb_lt in Lt.
  cbn [utf8_from]. rewrite Nh, Nl, E. cbn [option_map].
  eexists. split; [reflexivity|].
  rewrite List.length_app. cbn [List.length].
  destruct (utf8_of_code_point_length c) as [[A B] C]. specialize (C Lt). lia.
Qed.

Lemma utf8_from_lone_low (pre post : jsstring) (c : N) :
  forallb is_scalar pre = true -> is_low_surrogate c = true ->
  utf8 (pre ++ c :: post) = None.
Proof.
  unfold utf8. intros F L. induction pre as [|x pre IH]; cbn [app utf8_from].
  - rewrite L.
    assert (H : is_high_surrogate c = false).
    { unfold is_low_surrogate in L. unfold is_high_surrogate.
      apply andb_prop in L as [L1 L2]. apply N.leb_le in L1.
      apply andb_false_intro2, N.leb_gt. lia. }
    now rewrite H.
  - cbn [forallb] in F. apply andb_prop in F as [Fx Fp].
    unfold is_scalar in Fx. apply andb_prop in Fx as [Fx Nl].
    apply andb_prop in Fx as [Lt Nh]. apply negb_true_iff in Nh, Nl.
    now rewrite Nh, Nl, (IH Fp).
Qed.

Lemma utf8_from_high_at_end (pre : jsstring) (c : N) :
  forallb is_scalar pre = true -> is_high_surrogate c = true ->
  utf8 (pre ++ [c]) = None.
Proof.
  unfold utf8. intros F H. induction pre as [|x pre IH]; cbn [app utf8_from].
  - now rewrite H.
  - cbn [forallb] in F. apply andb_prop in F as [Fx Fp].
    unfold is_scalar in Fx. apply andb_prop in Fx as [Fx Nl].
    apply andb_prop in Fx as [Lt Nh]. apply negb_true_iff in Nh, Nl.
    now rewrite Nh, Nl, (IH Fp).
Qed.

Lemma base64_length (bytes : list N) :
  List.length (base64 bytes) = (4 * ((List.length bytes + 2) / 3))%nat.
Proof.
  assert (G : forall n (l : list N), (List.length l <= n)%nat ->
                List.length (base64 l) = (4 * ((List.length l + 2) / 3))%nat).
  { induction n as [|n IH]; intros l L.
    - destruct l; [reflexivity|cbn in L; lia].
    - destruct l as [|a [|b [|c rest]]]; try reflexivity.
      cbn [base64 List.length app]. rewrite IH by (cbn in L; lia).
      replace (S (S (S (List.length rest))) + 2)%nat
        with (1 * 3 + (List.length rest + 2))%nat by lia.
      rewrite Nat.div_add_l by lia. lia. }
  now apply (G (List.length bytes)).
Qed.

Lemma scalar_well_formed (s : jsstring) :
  forallb is_scalar s = true -> well_formed s.
Proof.
  intros F. apply List.Forall_forall. intros c I.
  rewrite forallb_forall in F. specialize (F c I).
  unfold is_scalar in F. apply andb_prop in F as [F _]. apply andb_prop in F as [F _].
  now apply N.ltb_lt.
Qed.

Section DataUrl.
Context {host : Engine}.

(** The UTF-8 octets of markup without surrogates: those of its code
    units, one after the other. *)
Lemma utf8_scalar_octets (s : jsstring) :
  forallb is_scalar s = true -> utf8 s = Some (flat_map utf8_of_code_point s).
Proof.
  unfold utf8. induction s as [|c t IH]; intros F; [reflexivity|].
  cbn [forallb] in F. apply andb_prop in F as [Fc Ft].
  unfold is_scalar in Fc. apply andb_prop in Fc as [Fc Lo]. apply andb_prop in Fc as [_ Hi].
  apply negb_true_iff in Lo, Hi.
  cbn [utf8_from flat_map]. rewrite Hi, Lo, (IH Ft). reflexivity.
Qed.

(** X21.  For markup without surrogates [svgToBase64] returns
    [data:image/svg+xml;base64,] followed by the base64 of the UTF-8
    octets of the markup, which are the octets of its code units one after
    the other, four characters for every three octets; for ASCII markup
    the octets are the markup itself.  A low surrogate that follows such
    markup, or a high surrogate at its end, makes it throw. *)
Theorem X21_data_url_total (svgString : jsstring) :
  forallb is_scalar svgString = true ->
  (let bytes := flat_map utf8_of_code_point svgString in
   utf8 svgString = Some bytes
   /\ Offscreen.svgToBase64 svgString
      = Some (str "data:image/svg+xml;base64," ++ base64 bytes)
   /\ (List.length svgString <= List.length bytes <= 3 * List.length svgString)%nat
   /\ List.length (base64 bytes) = (4 * ((List.length bytes + 2) / 3))%nat
   /\ (List.Forall (fun c => (c < 128)%N) svgString -> bytes = svgString))
  /\ (forall c post,
         (c < 65536)%N -> well_formed post -> is_low_surrogate c = true ->
         Offscreen.svgToBase64 (svgString ++ c :: post) = None)
  /\ (forall c,
         is_high_surrogate c = true ->
         Offscreen.svgToBase64 (svgString ++ [c]) = None).
Proof.
  intros F. pose proof (scalar_well_formed _ F) as W.
  split; [|split].
  - cbv zeta. pose proof (utf8_scalar_octets _ F) as U.
    destruct (utf8_scalars _ F) as (bytes & U' & L).
    rewrite U in U'. injection U' as <-.
    split; [exact U|].
    rewrite (svgToBase64_utf8 _ W). unfold data_url_of. rewrite U.
    split; [reflexivity|]. split; [exact L|]. split; [apply base64_length|].
    intros A. rewrite (utf8_ascii _ A) in U. congruence.
  - intros c post Lc Wp Lo.
    rewrite svgToBase64_utf8.
    + unfold data_url_of. now rewrite (utf8_from_lone_low _ _ _ F Lo).
    + apply List.Forall_app. split; [exact W|]. now constructor.
  - intros c H.
    rewrite svgToBase64_utf8.
    + unfold data_url_of. now rewrite (utf8_from_high_at_end _ _ F H).
    + apply List.Forall_app. split; [exact W|]. constructor; [|constructor].
      unfold is_high_surrogate in H. apply andb_prop in H as [_ H].
      apply N.leb_le in H. lia.
Qed.

End DataUrl.

(** X21 on markup with the letter U+00E9, whose two octets are 195 and
    169. *)
Lemma X21_witness :
  forallb is_scalar (str "<svg>" ++ [233%N]) = true
  /\ utf8 (str "<svg>" ++ [233%N]) = Some (str "<svg>" ++ [195%N; 169%N])
  /\ Offscreen.svgToBase64 (str "<svg>" ++ [233%N])
     = Some (str "data:image/svg+xml;base64," ++ str "PHN2Zz7DqQ==")
  /\ Offscreen.svgToBase64 ((str "<svg>" ++ [233%N]) ++ [56320%N]) = None.
Proof.
  assert (F : forallb is_scalar (str "<svg>" ++ [233%N]) = true) by reflexivity.
  split; [exact F|].
  destruct (X21_data_url_total (str "<svg>" ++ [233%N]) F) as ((U & E & _) & Low & _).
  split; [exact U|]. split; [rewrite E; reflexivity|].
  apply (Low 56320%N []); [reflexivity|constructor|reflexivity].
Defined.

(** ** Nothing is lost in the data URL *)

(** The equations of the divisions by [k] in the goal, for [lia]. *)
Ltac division a k :=
  let H := fresh "D" in
  let L := fresh "M" in
  let q := fresh "q" in
  let r := fresh "r" in
  pose proof (N.div_mod a k ltac:(discriminate)) as H;
  pose proof (N.mod_lt a k ltac:(discriminate)) as L;
  set (q := (a / k)%N) in *; set (r := (a mod k)%N) in *;
  clearbody q r.

Lemma base64_char_not_pad (v : N) : base64_char v <> 61%N.
Proof.
  unfold base64_char.
  destruct (N.ltb_spec v 26); [lia|].
  destruct (N.ltb_spec v 52); [lia|].
  destruct (N.ltb_spec v 62); [lia|].
  destruct (N.eqb_spec v 62); lia.
Qed.

Lemma base64_char_inj (u v : N) :
  (u < 64)%N -> (v < 64)%N -> base64_char u = base64_char v -> u = v.
Proof.
  unfold base64_char. intros Lu Lv.
  destruct (N.ltb_spec u 26); destruct (N.ltb_spec v 26); try lia;
    destruct (N.ltb_spec u 52); destruct (N.ltb_spec v 52); try lia;
    destruct (N.ltb_spec u 62); destruct (N.ltb_spec v 62); try lia;
    destruct (N.eqb_spec u 62); destruct (N.eqb_spec v 62); lia.
Qed.

Lemma base64_head (a b c a' b' c' : N) :
  (a < 256)%N -> (b < 256)%N -> (c < 256)%N ->
  (a' < 256)%N -> (b' < 256)%N -> (c' < 256)%N ->
  base64_char (a / 4) = base64_char (a' / 4) ->
  base64_char ((a mod 4) * 16 + b / 16) = base64_char ((a' mod 4) * 16 + b' / 16) ->
  base64_char ((b mod 16) * 4 + c / 64) = base64_char ((b' mod 16) * 4 + c' / 64) ->
  base64_char (c mod 64) = base64_char (c' mod 64) ->
  a = a' /\ b = b' /\ c = c'.
Proof.
  intros La Lb Lc La' Lb' Lc' E1 E2 E3 E4.
  division a 4%N. division a' 4%N. division b 16%N. division b' 16%N.
  division c 64%N. division c' 64%N.
  apply base64_char_inj in E1; [|lia|lia].
  apply base64_char_inj in E2; [|lia|lia].
  apply base64_char_inj in E3; [|lia|lia].
  apply base64_char_inj in E4; [|lia|lia].
  lia.
Qed.

Ltac pad_clash E :=
  cbn [base64 app] in E; injection E; intros; exfalso;
  match goal with
  | H : base64_char _ = 61%N |- _ => exact (base64_char_not_pad _ H)
  | H : 61%N = base64_char _ |- _ => exact (base64_char_not_pad _ (eq_sym H))
  end.

Lemma base64_inj (n : nat) :
  forall l l' : list N,
    (List.length l <= n)%nat -> octets l -> octets l' ->
    base64 l = base64 l' -> l = l'.
Proof.
  induction n as [|n IH]; intros l l' L O O' E.
  - destruct l; [|cbn in L; lia].
    destruct l' as [|a [|b [|c r]]]; [reflexivity|discriminate E..].
  - destruct l as [|a [|b [|c r]]]; destruct l' as [|a' [|b' [|c' r']]];
      try reflexivity; try discriminate E; try solve [pad_clash E];
      cbn [base64 app] in E;
      repeat match goal with
             | H : octets (_ :: _) |- _ => inversion H; subst; clear H
             | H : List.Forall _ (_ :: _) |- _ => inversion H; subst; clear H
             end.
    + injection E as E1 E2.
      destruct (base64_head a 0 0 a' 0 0) as (-> & _); try lia; try assumption;
        try reflexivity.
      change (N.div 0 16) with 0%N. rewrite !N.add_0_r. exact E2.
    + injection E as E1 E2 E3.
      destruct (base64_head a b 0 a' b' 0) as (-> & -> & _); try lia; try assumption;
        try reflexivity.
      change (N.div 0 64) with 0%N. rewrite !N.add_0_r. exact E3.
    + injection E as E1 E2 E3 E4 E5.
      destruct (base64_head a b c a' b' c') as (-> & -> & ->); try assumption.
      f_equal. f_equal. f_equal. apply IH; try assumption.
      cbn in L. lia.
Qed.

(** The quotients and remainders of a code point by 64, 4096 and 262144,
    as unknowns for [lia]. *)
Ltac sextets c :=
  let D1 := fresh "D" in let D2 := fresh "D" in let D3 := fresh "D" in
  let M1 := fresh "M" in let M2 := fresh "M" in let M3 := fresh "M" in
  pose proof (N.div_mod c 64 ltac:(discriminate)) as D1;
  pose proof (N.mod_lt c 64 ltac:(discriminate)) as M1;
  pose proof (N.div_mod (c / 64) 64 ltac:(discriminate)) as D2;
  pose proof (N.mod_lt (c / 64) 64 ltac:(discriminate)) as M2;
  pose proof (N.div_mod (c / 4096) 64 ltac:(discriminate)) as D3;
  pose proof (N.mod_lt (c / 4096) 64 ltac:(discriminate)) as M3;
  rewrite (N.Div0.div_div c 64 64) in D2;
  rewrite (N.Div0.div_div c 4096 64) in D3;
  change (64 * 64)%N with 4096%N in D2;
  change (4096 * 64)%N with 262144%N in D3;
  let x1 := fresh "x" in let x2 := fresh "x" in let x3 := fresh "x" in
  let q1 := fresh "q" in let q2 := fresh "q" in let q3 := fresh "q" in
  set (x3 := ((c / 4096) mod 64)%N) in *;
  set (x2 := ((c / 64) mod 64)%N) in *;
  set (x1 := (c mod 64)%N) in *;
  set (q3 := (c / 262144)%N) in *;
  set (q2 := (c / 4096)%N) in *;
  set (q1 := (c / 64)%N) in *;
  clearbody x1 x2 x3 q1 q2 q3.

(** No UTF-8 sequence of a code point starts another one. *)
Lemma utf8_prefix_free (c c' : N) (r r' : list N) :
  (c < 2097152)%N -> (c' < 2097152)%N ->
  utf8_of_code_point c ++ r = utf8_of_code_point c' ++ r' ->
  c = c' /\ r = r'.
Proof.
  intros L L' E. unfold utf8_of_code_point in E.
  destruct (N.ltb_spec c 128); destruct (N.ltb_spec c' 128);
    destruct (N.ltb_spec c 2048); destruct (N.ltb_spec c' 2048);
    destruct (N.ltb_spec c 65536); destruct (N.ltb_spec c' 65536);
    try lia;
    cbn [app] in E; injection E; clear E; intros;
    sextets c; sextets c'; (split; [lia|first [assumption|lia]]).
Qed.

Lemma utf8_from_cons_view (c : N) (t : jsstring) (b : list N) :
  utf8_from None (c :: t) = Some b ->
  (is_high_surrogate c = false /\ is_low_surrogate c = false
   /\ exists b', utf8_from None t = Some b' /\ b = utf8_of_code_point c ++ b')
  \/ (is_high_surrogate c = true
      /\ exists lo t' b',
          t = lo :: t' /\ is_low_surrogate lo = true
          /\ utf8_from None t' = Some b'
          /\ b = utf8_of_code_point
                   (65536 + (c - 55296) * 1024 + (lo - 56320))%N ++ b').
Proof.
  cbn [utf8_from]. destruct (is_high_surrogate c) eqn:H.
  - intros E. right. split; [reflexivity|].
    destruct t as [|lo t']; [discriminate E|]. cbn [utf8_from] in E.
    destruct (is_low_surrogate lo) eqn:Lo; [|discriminate E].
    destruct (utf8_from None t') as [b'|] eqn:U; [|discriminate E].
    injection E as <-. exists lo, t', b'. repeat split; first [assumption|reflexivity].
  - destruct (is_low_surrogate c) eqn:Lo; [discriminate|].
    intros E. left. split; [reflexivity|]. split; [reflexivity|].
    destruct (utf8_from None t) as [b'|] eqn:U; [|discriminate E].
    injection E as <-. exists b'. split; first [assumption|reflexivity].
Qed.

Lemma utf8_of_code_point_not_nil (cp : N) (r : list N) :
  utf8_of_code_point cp ++ r <> [].
Proof.
  unfold utf8_of_code_point.
  destruct (cp <? 128)%N; [discriminate|].
  destruct (cp <? 2048)%N; [discriminate|].
  destruct (cp <? 65536)%N; discriminate.
Qed.

Lemma high_range (c : N) : is_high_surrogate c = true -> (55296 <= c <= 56319)%N.
Proof.
  unfold is_high_surrogate. intros H. apply andb_prop in H as [A B].
  apply N.leb_le in A, B. lia.
Qed.

Lemma low_range (c : N) : is_low_surrogate c = true -> (56320 <= c <= 57343)%N.
Proof.
  unfold is_low_surrogate. intros H. apply andb_prop in H as [A B].
  apply N.leb_le in A, B. lia.
Qed.

(** Two strings with the same UTF-8 octets are the same string. *)
Lemma utf8_inj (n : nat) :
  forall (s s' : jsstring) (b : list N),
    (List.length s <= n)%nat -> well_formed s -> well_formed s' ->
    utf8_from None s = Some b -> utf8_from None s' = Some b -> s = s'.
Proof.
  induction n as [|n IH]; intros s s' b L W W' E E'.
  - destruct s; [|cbn in L; lia]. cbn in E. injection E as <-.
    destruct s' as [|c' t']; [reflexivity|].
    apply utf8_from_cons_view in E'
      as [(_ & _ & b' & _ & B)|(_ & lo & t'' & b' & _ & _ & _ & B)];
      symmetry in B; now apply utf8_of_code_point_not_nil in B.
  - destruct s as [|c t].
    { cbn in E. injection E as <-.
      destruct s' as [|c' t']; [reflexivity|].
      apply utf8_from_cons_view in E'
        as [(_ & _ & b' & _ & B)|(_ & lo & t'' & b' & _ & _ & _ & B)];
        symmetry in B; now apply utf8_of_code_point_not_nil in B. }
    destruct s' as [|c' t'].
    { cbn in E'. injection E' as <-.
      apply utf8_from_cons_view in E
        as [(_ & _ & b' & _ & B)|(_ & lo & t'' & b' & _ & _ & _ & B)];
        symmetry in B; now apply utf8_of_code_point_not_nil in B. }
    inversion W as [|? ? Lc Wt]; subst. inversion W' as [|? ? Lc' Wt']; subst.
    cbn [List.length] in L.
    apply utf8_from_cons_view in E
      as [(H & Lo & b1 & E1 & B1)|(H & lo & t1 & b1 & -> & Lo & E1 & B1)];
      apply utf8_from_cons_view in E'
        as [(H' & Lo' & b2 & E2 & B2)|(H' & lo' & t2 & b2 & -> & Lo' & E2 & B2)];
      rewrite B1 in B2.
    + apply utf8_prefix_free in B2 as [-> ->]; [|lia|lia].
      f_equal. apply (IH t t' b2); try assumption. lia.
    + apply high_range in H'. apply low_range in Lo'.
      apply utf8_prefix_free in B2 as [Ec _]; lia.
    + apply high_range in H. apply low_range in Lo.
      apply utf8_prefix_free in B2 as [Ec _]; lia.
    + pose proof (high_range _ H) as R1. pose proof (low_range _ Lo) as R2.
      pose proof (high_range _ H') as R3. pose proof (low_range _ Lo') as R4.
      apply utf8_prefix_free in B2 as [Ec ->]; [|lia|lia].
      assert (c = c') by lia. assert (lo = lo') by lia. subst c' lo'.
      f_equal. f_equal.
      inversion Wt as [|? ? _ Wt1]; subst. inversion Wt' as [|? ? _ Wt2]; subst.
      apply (IH t1 t2 b2); try assumption. cbn [List.length] in L. lia.
Qed.

Section Lossless.
Context {host : Engine}.

(** X22.  The two rasterizers encode without loss: two markups that
    [svgToBase64], or the encoding inside [svgToDataUrl], turns into the
    same data URL are the same markup. *)
Theorem X22_data_url_injective (s s' url : jsstring) :
  well_formed s -> well_formed s' ->
  (Offscreen.svgToBase64 s = Some url -> Offscreen.svgToBase64 s' = Some url -> s = s')
  /\ (encode_data_url s = Some url -> encode_data_url s' = Some url -> s = s').
Proof.
  intros W W'.
  assert (G : data_url_of s = Some url -> data_url_of s' = Some url -> s = s').
  { unfold data_url_of, utf8. intros E E'.
    destruct (utf8_from None s) as [b|] eqn:U; [|discriminate E].
    destruct (utf8_from None s') as [b'|] eqn:U'; [|discriminate E'].
    cbn [option_map] in E, E'.
    assert (X : str "data:image/svg+xml;base64," ++ base64 b
                = str "data:image/svg+xml;base64," ++ base64 b') by congruence.
    clear E E'. apply app_inv_head in X. rename X into E.
    pose proof (utf8_from_octets s W None b I U) as O.
    pose proof (utf8_from_octets s' W' None b' I U') as O'.
    apply (base64_inj (List.length b) b b' (Nat.le_refl _) O O') in E. subst b'.
    exact (utf8_inj (List.length s) s s' b (Nat.le_refl _) W W' U U'). }
  split.
  - rewrite (svgToBase64_utf8 s W), (svgToBase64_utf8 s' W'). exact G.
  - rewrite (encode_data_url_utf8 s W), (encode_data_url_utf8 s' W'). exact G.
Qed.

End Lossless.

(** X22 on two markups. *)
Lemma X22_witness :
  well_formed (str "<svg/>") /\ well_formed (str "<svg />")
  /\ (Offscreen.svgToBase64 (str "<svg/>") = Some Instances.plain_url ->
      Offscreen.svgToBase64 (str "<svg />") = Some Instances.plain_url ->
      str "<svg/>" = str "<svg />").
Proof.
  assert (W : well_formed (str "<svg/>")) by (repeat constructor).
  assert (W' : well_formed (str "<svg />")) by (repeat constructor).
  split; [exact W|]. split; [exact W'|].
  apply (X22_data_url_injective (str "<svg/>") (str "<svg />") Instances.plain_url W W').
Defined.

(** ** Markup that is normalized already *)

Lemma replace_from_lit_absent (p rep s : jsstring) :
  p <> [] -> cut_at p s = None -> replace_from (lit p) rep O s = s.
Proof.
  intros NE. induction s as [|c t IH]; intros C; [reflexivity|].
  cbn [cut_at] in C. rewrite replace_from_cons. unfold lit at 1.
  destruct (starts_with p (c :: t)); [discriminate C|].
  destruct (cut_at p t) as [[a b]|]; [discriminate C|].
  now rewrite IH.
Qed.

Lemma cut_at_newline_absent (s : jsstring) :
  List.Forall (fun c => is_space c = true -> c = 32%N) s -> cut_at [10%N] s = None.
Proof.
  induction s as [|c t IH]; intros F; [reflexivity|].
  inversion F as [|? ? Fc Ft]; subst. cbn [cut_at starts_with]. unfold code_eqb.
  destruct (N.eqb_spec 10 c) as [<-|_].
  - specialize (Fc eq_refl). discriminate Fc.
  - cbn [andb]. now rewrite (IH Ft).
Qed.

Lemma single_spaces_kept (s : jsstring) :
  List.Forall (fun c => is_space c = true -> c = 32%N) s ->
  forall after_space,
    no_double_space after_space s = true ->
    replace_from spaces (str " ") O s = s.
Proof.
  induction s as [|c t IH]; intros F b N; [reflexivity|].
  inversion F as [|? ? Fc Ft]; subst.
  cbn [no_double_space] in N. apply andb_prop in N as [_ N].
  rewrite replace_from_cons, spaces_cons.
  destruct (is_space c) eqn:S.
  - assert (E : fst (span is_space t) = []).
    { destruct t as [|d t']; [reflexivity|].
      cbn [no_double_space] in N. apply andb_prop in N as [Nd _].
      cbn [andb] in Nd. apply negb_true_iff in Nd. cbn [span]. now rewrite Nd. }
    rewrite E. cbn [List.length]. rewrite (IH Ft _ N), str_space.
    cbn [app]. now rewrite (Fc eq_refl).
  - now rewrite (IH Ft _ N).
Qed.

Lemma gaps_absent_kept (s : jsstring) :
  gap_free Outside s = true -> replace_from gt_spaces_lt (str "><") O s = s.
Proof.
  induction s as [|c t IH]; intros G; [reflexivity|].
  rewrite replace_from_cons, (gap_free_no_match_here _ G).
  now rewrite (IH (gap_free_tail _ _ _ G)).
Qed.

(** X23.  Markup that is normalized already (single plain spaces, none
    between [>] and [<], no [xlink:href], no [xmlns:xlink]) is changed by
    [cleanSvgString] in one place only: the declaration of the namespace
    goes in after the first ["<svg"], also when that element declares it
    already, which then declares it twice. *)
Theorem X23_clean_normalized (svgString : jsstring) :
  List.Forall (fun c => is_space c = true -> c = 32%N) svgString ->
  no_double_space false svgString = true ->
  gap_free Outside svgString = true ->
  cut_at (str "xlink:href") svgString = None ->
  cut_at (str "xmlns:xlink") svgString = None ->
  before_xmlns svgString = svgString
  /\ cleanSvgString svgString =
     match cut_at (str "<svg") svgString with
     | Some (pre, post) => pre ++ str "<svg" ++ xmlns_declaration ++ post
     | None => svgString
     end
  /\ (forall pre rest,
         cut_at (str "<svg") svgString = Some (pre, xmlns_declaration ++ rest) ->
         svgString = pre ++ str "<svg" ++ xmlns_declaration ++ rest
         /\ cleanSvgString svgString
            = pre ++ str "<svg" ++ xmlns_declaration ++ xmlns_declaration ++ rest).
Proof.
  intros P N G X1 X2.
  assert (B : before_xmlns svgString = svgString).
  { unfold before_xmlns, replace_all.
    rewrite (replace_from_lit_absent [10%N]) by
        (try discriminate; now apply cut_at_newline_absent).
    rewrite (single_spaces_kept _ P _ N), (gaps_absent_kept _ G).
    rewrite (replace_from_lit_absent (str "xlink:href")) by (try discriminate; exact X1).
    now rewrite (replace_from_lit_absent (str "xmlns:xlink"))
      by (try discriminate; exact X2). }
  split; [exact B|].
  assert (C : cleanSvgString svgString =
              match cut_at (str "<svg") svgString with
              | Some (pre, post) => pre ++ str "<svg" ++ xmlns_declaration ++ post
              | None => svgString
              end)
    by (rewrite cleanSvgString_xmlns, B; reflexivity).
  split; [exact C|].
  intros pre rest E. split; [exact (cut_at_app _ _ _ _ E)|].
  now rewrite C, E.
Qed.

(** X23 on markup that declares the namespace. *)
Lemma X23_witness :
  no_double_space false Instances.declared = true
  /\ gap_free Outside Instances.declared = true
  /\ cut_at (str "xlink:href") Instances.declared = None
  /\ cut_at (str "xmlns:xlink") Instances.declared = None
  /\ cleanSvgString Instances.declared
     = str "<svg" ++ xmlns_declaration ++ xmlns_declaration ++ str " width='1'/>".
Proof.
  split; [reflexivity|]. split; [reflexivity|]. split; [reflexivity|].
  split; [reflexivity|].
  assert (P : List.Forall (fun c => is_space c = true -> c = 32%N) Instances.declared)
    by (vm_compute; repeat constructor; intros S; first [reflexivity|discriminate S]).
  destruct (X23_clean_normalized Instances.declared P eq_refl eq_refl eq_refl eq_refl)
    as (_ & _ & Twice).
  destruct (Twice [] (str " width='1'/>") eq_refl) as [_ E]. exact E.
Defined.


(** ** The timers *)

Import Timers.


Lemma run_app {S E O : Type} (step : S -> E -> list O * S) (st : S) (a b : list E) :
  run step st (a ++ b) =
  (fst (run step st a) ++ fst (run step (snd (run step st a)) b),
   snd (run step (snd (run step st a)) b)).
Proof.
  revert st. induction a as [|e a IH]; intros st; simpl.
  - now destruct (run step st b).
  - destruct (step st e) as [o st']. rewrite IH.
    destruct (run step st' a) as [oa sa]. simpl.
    destruct (run step sa b) as [ob sb]. simpl. now rewrite app_assoc.
Qed.

Section DebounceFacts.
Variable A : Type.
Variable wait : Z.

Lemma debounce_shape_initial : debounce_shape (A := A) Debounce.initial None.
Proof. split; reflexivity. Qed.

Lemma debounce_step_call (st : Debounce.State A) p (t : Z) (args : A) :
  debounce_shape st p ->
  fst (Debounce.step A wait st (Call t args)) = []
  /\ debounce_shape (snd (Debounce.step A wait st (Call t args)))
                    (Some (next_id (Debounce.timers st), t + Z.max 0 wait, args)).
Proof.
  intros [T P]. unfold Debounce.step, debounce_shape.
  destruct p as [[[i d] a]|]; cbn in T, P; rewrite T; cbn; rewrite P; cbn.
  - rewrite Pos.eqb_refl. cbn. repeat split.
  - repeat split.
Qed.

Lemma debounce_step_timers (st : Debounce.State A) p (t : Z) :
  debounce_shape st p ->
  match p with
  | Some (i, d, a) =>
      if d <=? t
      then fst (Debounce.step A wait st (RunTimers t)) = [(t, a)]
           /\ debounce_shape (snd (Debounce.step A wait st (RunTimers t))) None
      else fst (Debounce.step A wait st (RunTimers t)) = []
           /\ debounce_shape (snd (Debounce.step A wait st (RunTimers t))) p
  | None =>
      fst (Debounce.step A wait st (RunTimers t)) = []
      /\ debounce_shape (snd (Debounce.step A wait st (RunTimers t))) p
  end.
Proof.
  intros [T P]. unfold Debounce.step, debounce_shape, due, after. cbn.
  destruct p as [[[i d] a]|]; cbn in T, P; rewrite P; cbn; unfold is_due; cbn.
  - destruct (d <=? t); cbn; (split; [reflexivity|]); split; try reflexivity.
    exact T.
  - split; [reflexivity|]. split; [exact T|reflexivity].
Qed.

(** Every call of [func] made while running [tasks] from a state with the
    pending timeout [p] was set by [p] or by a call among the tasks, runs
    with the arguments of that call, no earlier than it is due, and no
    other call lies in between. *)
Lemma debounce_origin (tasks : list (Task A)) :
  forall (st : Debounce.State A) p (t : Z) (a : A),
    debounce_shape st p ->
    In (t, a) (fst (run (Debounce.step A wait) st tasks)) ->
    (exists i d mid post,
        p = Some (i, d, a) /\ tasks = mid ++ RunTimers t :: post
        /\ forallb (fun task => negb (is_call task)) mid = true /\ d <= t)
    \/ (exists pre t0 mid post,
           tasks = pre ++ Call t0 a :: mid ++ RunTimers t :: post
           /\ forallb (fun task => negb (is_call task)) mid = true
           /\ t0 + Z.max 0 wait <= t).
Proof.
  induction tasks as [|task tasks IH]; intros st p t a Sh I; [destruct I|].
  cbn [run] in I.
  destruct (Debounce.step A wait st task) as [out st'] eqn:E.
  destruct (run (Debounce.step A wait) st' tasks) as [outs st''] eqn:R.
  cbn [fst] in I. apply in_app_or in I.
  destruct task as [t1 a1|t1].
  - (* a call: it replaces what is pending *)
    destruct (debounce_step_call st p t1 a1 Sh) as [O Sh'].
    rewrite E in O, Sh'. cbn [fst snd] in O, Sh'. subst out.
    destruct I as [[]|I].
    assert (I' : In (t, a) (fst (run (Debounce.step A wait) st' tasks)))
      by now rewrite R.
    destruct (IH st' _ t a Sh' I') as [(i & d & mid & post & Ep & Et & Fm & Le)
                                      |(pre & t0 & mid & post & Et & Fm & Le)].
    + right. injection Ep as _ <- <-.
      exists [], t1, mid, post. now rewrite Et.
    + right. exists (Call t1 a1 :: pre), t0, mid, post. now rewrite Et.
  - (* the timers run *)
    pose proof (debounce_step_timers st p t1 Sh) as St.
    rewrite E in St. cbn [fst snd] in St.
    assert (Later : forall q, debounce_shape st' q ->
                              (q = p \/ q = None) ->
                              In (t, a) outs ->
              (exists i d mid post,
                  p = Some (i, d, a) /\ RunTimers t1 :: tasks = mid ++ RunTimers t :: post
                  /\ forallb (fun task => negb (is_call task)) mid = true /\ d <= t)
              \/ (exists pre t0 mid post,
                     RunTimers t1 :: tasks = pre ++ Call t0 a :: mid ++ RunTimers t :: post
                     /\ forallb (fun task => negb (is_call task)) mid = true
                     /\ t0 + Z.max 0 wait <= t)).
    { intros q Sh' Q I'.
      assert (I'' : In (t, a) (fst (run (Debounce.step A wait) st' tasks)))
        by now rewrite R.
      destruct (IH st' q t a Sh' I'') as [(i & d & mid & post & Ep & Et & Fm & Le)
                                         |(pre & t0 & mid & post & Et & Fm & Le)].
      - destruct Q as [->| ->]; [|discriminate Ep].
        left. exists i, d, (RunTimers t1 :: mid), post. now rewrite Et.
      - right. exists (RunTimers t1 :: pre), t0, mid, post. now rewrite Et. }
    destruct p as [[[i d] a0]|].
    + destruct (d <=? t1) eqn:D; destruct St as [O Sh']; subst out.
      * destruct I as [[Eq|[]]|I].
        -- injection Eq as <- <-. left. exists i, d, [], tasks.
           split; [reflexivity|]. split; [reflexivity|].
           split; [reflexivity|]. now apply Z.leb_le.
        -- apply (Later None Sh'); [now right|exact I].
      * destruct I as [[]|I]. apply (Later _ Sh'); [now left|exact I].
    + destruct St as [O Sh']; subst out.
      destruct I as [[]|I]. apply (Later _ Sh'); [now left|exact I].
Qed.

(** Each call of the debounced function sets off at most one call of
    [func]. *)
Lemma debounce_count (tasks : list (Task A)) :
  forall (st : Debounce.State A) p,
    debounce_shape st p ->
    (List.length (fst (run (Debounce.step A wait) st tasks))
     <= List.length (calls_of tasks) + match p with Some _ => 1 | None => 0 end)%nat.
Proof.
  induction tasks as [|task tasks IH]; intros st p Sh; [simpl; lia|].
  cbn [run].
  destruct (Debounce.step A wait st task) as [out st'] eqn:E.
  destruct (run (Debounce.step A wait) st' tasks) as [outs st''] eqn:R.
  cbn [fst]. rewrite List.length_app.
  destruct task as [t1 a1|t1].
  - destruct (debounce_step_call st p t1 a1 Sh) as [O Sh'].
    rewrite E in O, Sh'. cbn [fst snd] in O, Sh'. subst out.
    specialize (IH st' _ Sh'). rewrite R in IH. cbn [fst] in IH.
    cbn [calls_of flat_map List.length app] in *.
    fold (calls_of tasks). destruct p; simpl; lia.
  - pose proof (debounce_step_timers st p t1 Sh) as St.
    rewrite E in St. cbn [fst snd] in St.
    cbn [calls_of flat_map app]. fold (calls_of tasks).
    destruct p as [[[i d] a0]|].
    + destruct (d <=? t1); destruct St as [O Sh']; subst out;
        specialize (IH st' _ Sh'); rewrite R in IH; cbn [fst] in IH; simpl in *; lia.
    + destruct St as [O Sh']; subst out.
      specialize (IH st' _ Sh'); rewrite R in IH; cbn [fst] in IH; simpl in *; lia.
Qed.

Lemma debounce_shape_run (tasks : list (Task A)) :
  forall (st : Debounce.State A) p,
    debounce_shape st p ->
    exists q, debounce_shape (snd (run (Debounce.step A wait) st tasks)) q.
Proof.
  induction tasks as [|task tasks IH]; intros st p Sh; [now exists p|].
  cbn [run].
  destruct (Debounce.step A wait st task) as [out st'] eqn:E.
  assert (exists q, debounce_shape st' q) as [q Sh'].
  { destruct task as [t1 a1|t1].
    - destruct (debounce_step_call st p t1 a1 Sh) as [_ Sh'].
      rewrite E in Sh'. eauto.
    - pose proof (debounce_step_timers st p t1 Sh) as St.
      rewrite E in St. cbn [fst snd] in St.
      destruct p as [[[i d] a0]|]; [destruct (d <=? t1)|]; destruct St; eauto. }
  destruct (IH st' q Sh') as [q' Sh''].
  destruct (run (Debounce.step A wait) st' tasks) as [outs st'']. now exists q'.
Qed.

End DebounceFacts.

(** X25.  Every call that the function made by [debounce(func, wait)]
    makes of [func] runs when the timers run, with the arguments of an
    earlier call of the debounced function that is at least [wait] old and
    after which the debounced function was not called again. *)
Theorem X25_debounce_latest_call
        (A : Type) (wait : Z) (tasks : list (Task A)) (t : Z) (a : A) :
  In (t, a) (Debounce.debounce A wait tasks) ->
  exists pre t0 mid post,
    tasks = pre ++ Call t0 a :: mid ++ RunTimers t :: post
    /\ forallb (fun task => negb (is_call task)) mid = true
    /\ t0 + wait <= t.
Proof.
  intros I. unfold Debounce.debounce in I.
  destruct (debounce_origin A wait tasks _ None t a (debounce_shape_initial A) I)
    as [(i & d & mid & post & Ep & _)|(pre & t0 & mid & post & Et & Fm & Le)];
    [discriminate Ep|].
  exists pre, t0, mid, post. split; [exact Et|split; [exact Fm|lia]].
Qed.

(** X25 on two calls and a run of the timers. *)
Lemma X25_witness :
  In (400, 2%nat) (Debounce.debounce nat 300 [Call 0 1%nat; Call 100 2%nat; RunTimers 400])
  /\ exists pre t0 mid post,
      [Call 0 1%nat; Call 100 2%nat; RunTimers 400]
      = pre ++ Call t0 2%nat :: mid ++ RunTimers 400 :: post
      /\ forallb (fun task => negb (is_call task)) mid = true
      /\ t0 + 300 <= 400.
Proof.
  assert (I : In (400, 2%nat)
                 (Debounce.debounce nat 300 [Call 0 1%nat; Call 100 2%nat; RunTimers 400]))
    by (now left).
  split; [exact I|].
  apply (X25_debounce_latest_call nat 300 _ 400 2%nat I).
Defined.

(** X26.  After any history, a call of the debounced function followed
    by a run of the timers once it is due adds exactly one call of [func],
    with its arguments; in a burst of calls without a run of the timers
    [func] is not called; and [func] is never called more often than the
    debounced function. *)
Theorem X26_debounce_trailing_call
        (A : Type) (wait : Z) (pre : list (Task A)) (t0 t : Z) (a : A) :
  t0 + Z.max 0 wait <= t ->
  Debounce.debounce A wait (pre ++ [Call t0 a; RunTimers t])
  = Debounce.debounce A wait pre ++ [(t, a)]
  /\ (forallb is_call pre = true -> Debounce.debounce A wait pre = [])
  /\ (List.length (Debounce.debounce A wait pre) <= List.length (calls_of pre))%nat.
Proof.
  intros Le. unfold Debounce.debounce. split; [|split].
  - rewrite run_app. cbn [fst]. f_equal.
    destruct (debounce_shape_run A wait pre _ None (debounce_shape_initial A)) as [q Sh].
    set (st := snd (run (Debounce.step A wait) Debounce.initial pre)) in *.
    cbn [run].
    destruct (debounce_step_call A wait st q t0 a Sh) as [O Sh'].
    destruct (Debounce.step A wait st (Call t0 a)) as [out st'].
    cbn [fst snd] in O, Sh'. subst out.
    pose proof (debounce_step_timers A wait st' _ t Sh') as St. cbv beta iota in St.
    apply Z.leb_le in Le. rewrite Le in St. destruct St as [O _].
    destruct (Debounce.step A wait st' (RunTimers t)) as [out st''].
    cbn [fst] in O. now subst out.
  - intros F.
    assert (G : forall st p, debounce_shape st p ->
                             fst (run (Debounce.step A wait) st pre) = []).
    { induction pre as [|task pre IH]; intros st p Sh; [reflexivity|].
      cbn [forallb] in F. apply andb_prop in F as [F1 F2].
      destruct task as [t1 a1|t1]; [|discriminate F1].
      cbn [run]. destruct (debounce_step_call A wait st p t1 a1 Sh) as [O Sh'].
      destruct (Debounce.step A wait st (Call t1 a1)) as [out st'].
      cbn [fst snd] in O, Sh'. subst out.
      specialize (IH F2 st' _ Sh').
      destruct (run (Debounce.step A wait) st' pre) as [outs st'']. exact IH. }
    exact (G _ None (debounce_shape_initial A)).
  - pose proof (debounce_count A wait pre _ None (debounce_shape_initial A)) as C.
    cbv iota in C. unfold Debounce.debounce. lia.
Qed.

(** X26 on two calls and a run of the timers. *)
Lemma X26_witness :
  100 + Z.max 0 300 <= 400
  /\ Debounce.debounce nat 300 ([Call 0 1%nat] ++ [Call 100 2%nat; RunTimers 400])
     = Debounce.debounce nat 300 [Call 0 1%nat] ++ [(400, 2%nat)].
Proof.
  assert (L : 100 + Z.max 0 300 <= 400) by discriminate.
  split; [exact L|].
  apply (X26_debounce_trailing_call nat 300 [Call 0 1%nat] 100 400 2%nat L).
Defined.

Lemma spaced_nth {A : Type} (gap : Z) (calls : list (Z * A)) :
  spaced gap calls ->
  forall i j x y,
    (i < j)%nat -> nth_error calls i = Some x -> nth_error calls j = Some y ->
    fst x + gap <= fst y.
Proof.
  induction calls as [|c calls IH]; intros Sp i j x y L Ei Ej.
  - now destruct i.
  - destruct Sp as [F Sp]. destruct j as [|j]; [lia|]. cbn in Ej.
    destruct i as [|i].
    + cbn in Ei. injection Ei as <-.
      rewrite List.Forall_forall in F. apply F. eapply nth_error_In, Ej.
    + cbn in Ei. apply (IH Sp i j); [lia|exact Ei|exact Ej].
Qed.

Section ThrottleFacts.
Variable A : Type.
Variable limit : Z.

Lemma throttle_shape_initial : throttle_shape Throttle.initial None.
Proof. split; reflexivity. Qed.

Lemma throttle_step_call (st : Throttle.State) p (t : Z) (args : A) :
  throttle_shape st p ->
  match p with
  | Some _ =>
      Throttle.step A limit st (Call t args) = ([], st)
  | None =>
      fst (Throttle.step A limit st (Call t args)) = [(t, args)]
      /\ throttle_shape (snd (Throttle.step A limit st (Call t args)))
                        (Some (next_id (Throttle.timers st), t + Z.max 0 limit, tt))
  end.
Proof.
  intros [T P]. unfold Throttle.step, throttle_shape.
  destruct p as [x|]; rewrite T; [reflexivity|].
  cbn. rewrite P. repeat split.
Qed.

Lemma throttle_step_timers (st : Throttle.State) p (t : Z) :
  throttle_shape st p ->
  fst (Throttle.step A limit st (RunTimers t)) = []
  /\ throttle_shape (snd (Throttle.step A limit st (RunTimers t)))
       match p with
       | Some (i, d, u) => if d <=? t then None else p
       | None => None
       end.
Proof.
  intros [T P]. unfold Throttle.step, throttle_shape, due, after. cbn.
  split; [reflexivity|].
  destruct p as [[[i d] u]|]; rewrite P; cbn; unfold is_due; cbn.
  - destruct (d <=? t); cbn; split; try reflexivity. exact T.
  - split; [exact T|reflexivity].
Qed.

(** The calls of [func] are calls of the throttled function, in their
    order. *)
Lemma throttle_sublist (tasks : list (Task A)) :
  forall st p,
    throttle_shape st p ->
    sublist (fst (run (Throttle.step A limit) st tasks)) (calls_of tasks).
Proof.
  induction tasks as [|task tasks IH]; intros st p Sh; [constructor|].
  cbn [run].
  destruct (Throttle.step A limit st task) as [out st'] eqn:E.
  destruct (run (Throttle.step A limit) st' tasks) as [outs st''] eqn:R.
  cbn [fst calls_of flat_map]. fold (calls_of tasks).
  destruct task as [t1 a1|t1].
  - pose proof (throttle_step_call st p t1 a1 Sh) as St. rewrite E in St.
    destruct p as [x|].
    + injection St as -> ->. cbn [app].
      apply sublist_cons. specialize (IH st _ Sh). now rewrite R in IH.
    + destruct St as [O Sh']. cbn [fst snd] in O, Sh'. subst out. cbn [app].
      apply sublist_skip. specialize (IH st' _ Sh'). now rewrite R in IH.
  - destruct (throttle_step_timers st p t1 Sh) as [O Sh']. rewrite E in O, Sh'.
    cbn [fst snd] in O, Sh'. subst out. cbn [app].
    specialize (IH st' _ Sh'). now rewrite R in IH.
Qed.

Lemma calls_of_times (tasks : list (Task A)) (lo : Z) :
  List.Forall (Z.le lo) (List.map task_time tasks) ->
  List.Forall (fun x => lo <= fst x) (calls_of tasks).
Proof.
  induction tasks as [|task tasks IH]; intros F; [constructor|].
  cbn [List.map] in F. inversion F as [|? ? F1 F2]; subst.
  cbn [calls_of flat_map]. fold (calls_of tasks).
  destruct task; cbn [app]; [constructor; [exact F1|]|]; now apply IH.
Qed.

Lemma throttle_times (tasks : list (Task A)) (lo : Z) st p :
  throttle_shape st p ->
  List.Forall (Z.le lo) (List.map task_time tasks) ->
  List.Forall (fun x => lo <= fst x) (fst (run (Throttle.step A limit) st tasks)).
Proof.
  intros Sh F. pose proof (calls_of_times tasks lo F) as C.
  rewrite List.Forall_forall in *. intros x I. apply C.
  pose proof (throttle_sublist tasks st p Sh) as S.
  apply list_elem_of_In. eapply elem_of_sublist; [|exact S]. now apply list_elem_of_In.
Qed.

(** Two calls of [func] are at least [limit] apart, and a call of [func]
    waits for the pending timeout. *)
Lemma throttle_spaced (tasks : list (Task A)) :
  forall st p,
    throttle_shape st p ->
    in_order (List.map task_time tasks) ->
    spaced limit (fst (run (Throttle.step A limit) st tasks))
    /\ List.Forall (fun x => match p with
                             | Some (_, d, _) => d <= fst x
                             | None => True
                             end)
                   (fst (run (Throttle.step A limit) st tasks)).
Proof.
  induction tasks as [|task tasks IH]; intros st p Sh Ord.
  - split; [exact I|constructor].
  - cbn [List.map in_order] in Ord. destruct Ord as [Later Ord].
    cbn [run].
    destruct (Throttle.step A limit st task) as [out st'] eqn:E.
    destruct (run (Throttle.step A limit) st' tasks) as [outs st''] eqn:R.
    cbn [fst].
    destruct task as [t1 a1|t1].
    + pose proof (throttle_step_call st p t1 a1 Sh) as St. rewrite E in St.
      destruct p as [[[i d] u]|].
      * injection St as -> ->. cbn [app].
        specialize (IH st _ Sh Ord). now rewrite R in IH.
      * destruct St as [O Sh']. cbn [fst snd] in O, Sh'. subst out. cbn [app].
        destruct (IH st' _ Sh' Ord) as [Sp F]. rewrite R in Sp, F. cbn [fst] in Sp, F.
        split; [|constructor; [exact I|]].
        -- cbn [spaced]. split; [|exact Sp].
           eapply List.Forall_impl; [|exact F]. cbn. intros x. lia.
        -- eapply List.Forall_impl; [|exact F]. now cbn.
    + destruct (throttle_step_timers st p t1 Sh) as [O Sh']. rewrite E in O, Sh'.
      cbn [fst snd] in O, Sh'. subst out. cbn [app].
      destruct (IH st' _ Sh' Ord) as [Sp F]. rewrite R in Sp, F. cbn [fst] in Sp, F.
      split; [exact Sp|].
      destruct p as [[[i d] u]|]; [|eapply List.Forall_impl; [|exact F]; now cbn].
      destruct (d <=? t1) eqn:D.
      * apply Z.leb_le in D.
        pose proof (throttle_times tasks t1 st' _ Sh' Later) as T.
        rewrite R in T. cbn [fst] in T.
        eapply List.Forall_impl; [|exact T]. cbn. intros x. lia.
      * exact F.
Qed.

End ThrottleFacts.

(** X24.  The function made by [throttle(func, limit)], over tasks whose
    times do not go back: [func] is called only inside a call of the
    throttled function, with its arguments, so the calls of [func] are a
    subsequence of those calls; the first call goes through; and two calls
    of [func] are at least [limit] apart. *)
Theorem X24_throttle_rate_limit (A : Type) (limit : Z) (tasks : list (Task A)) :
  in_order (List.map task_time tasks) ->
  sublist (Throttle.throttle A limit tasks) (calls_of tasks)
  /\ (forall t a rest,
         tasks = Call t a :: rest ->
         exists more, Throttle.throttle A limit tasks = (t, a) :: more)
  /\ (forall i j t1 a1 t2 a2,
         (i < j)%nat ->
         nth_error (Throttle.throttle A limit tasks) i = Some (t1, a1) ->
         nth_error (Throttle.throttle A limit tasks) j = Some (t2, a2) ->
         t1 + limit <= t2).
Proof.
  intros Ord. unfold Throttle.throttle. split; [|split].
  - exact (throttle_sublist A limit tasks _ None (throttle_shape_initial)).
  - intros t a rest ->. cbn [run].
    destruct (throttle_step_call A limit Throttle.initial None t a throttle_shape_initial)
      as [O _].
    destruct (Throttle.step A limit Throttle.initial (Call t a)) as [out st'].
    cbn [fst] in O. subst out.
    destruct (run (Throttle.step A limit) st' rest) as [outs st'']. now exists outs.
  - intros i j t1 a1 t2 a2 L Ei Ej.
    destruct (throttle_spaced A limit tasks _ None throttle_shape_initial Ord) as [Sp _].
    exact (spaced_nth limit _ Sp i j (t1, a1) (t2, a2) L Ei Ej).
Qed.

(** X24 on three calls, the second inside the limit. *)
Lemma X24_witness :
  in_order (List.map task_time
              [Call 0 1%nat; Call 50 2%nat; RunTimers 100; Call 120 3%nat])
  /\ Throttle.throttle nat 100
       [Call 0 1%nat; Call 50 2%nat; RunTimers 100; Call 120 3%nat]
     = [(0, 1%nat); (120, 3%nat)]
  /\ sublist (Throttle.throttle nat 100
                [Call 0 1%nat; Call 50 2%nat; RunTimers 100; Call 120 3%nat])
             (calls_of [Call 0 1%nat; Call 50 2%nat; RunTimers 100; Call 120 3%nat]).
Proof.
  assert (O : in_order (List.map task_time
                          [Call 0 1%nat; Call 50 2%nat; RunTimers 100; Call 120 3%nat]))
    by (cbn; repeat split; repeat constructor; discriminate).
  split; [exact O|]. split; [reflexivity|].
  apply (X24_throttle_rate_limit nat 100 _ O).
Defined.

(** ** Storing the custom size *)

Lemma sync_step_effect (svg : SVGItem) (st : SizeSync.State) p (t : Z)
      (localSize : CustomSize) :
  sync_shape st p ->
  SizeSync.customSizes (SizeSync.step svg st (SizeSync.EffectRuns t localSize))
  = SizeSync.customSizes st
  /\ match SizeSync.prevSizeRef st with
     | None =>
         SizeSync.prevSizeRef (SizeSync.step svg st (SizeSync.EffectRuns t localSize))
         = Some localSize
         /\ sync_shape (SizeSync.step svg st (SizeSync.EffectRuns t localSize)) None
     | Some prev =>
         SizeSync.prevSizeRef (SizeSync.step svg st (SizeSync.EffectRuns t localSize))
         = Some prev
         /\ sync_shape (SizeSync.step svg st (SizeSync.EffectRuns t localSize))
              (if SizeSync.hasChanged prev localSize
               then Some (next_id (SizeSync.timers st), t + 300, localSize)
               else None)
     end.
Proof.
  intros [P C].
  assert (Q : pending (match SizeSync.cleanup st with
                       | Some id => clearTimeout id (SizeSync.timers st)
                       | None => SizeSync.timers st
                       end) = []
              /\ next_id (match SizeSync.cleanup st with
                          | Some id => clearTimeout id (SizeSync.timers st)
                          | None => SizeSync.timers st
                          end) = next_id (SizeSync.timers st)).
  { destruct p as [[[i d] s]|]; cbn in C.
    - rewrite C. cbn. rewrite P. cbn. now rewrite Pos.eqb_refl.
    - destruct (SizeSync.cleanup st); cbn; rewrite P; now cbn. }
  destruct Q as [Q1 Q2].
  unfold SizeSync.step.
  destruct (SizeSync.prevSizeRef st) as [prev|].
  - destruct (SizeSync.hasChanged prev localSize); cbn.
    + split; [reflexivity|]. split; [reflexivity|].
      rewrite Q1, Q2. split; reflexivity.
    + split; [reflexivity|]. split; [reflexivity|]. now split.
  - cbn. split; [reflexivity|]. split; [reflexivity|]. now split.
Qed.

Lemma sync_step_timers (svg : SVGItem) (st : SizeSync.State) p (t : Z) :
  sync_shape st p ->
  match p with
  | Some (i, d, s) =>
      if d <=? t
      then SizeSync.customSizes (SizeSync.step svg st (SizeSync.TimersRun t))
           = updateGlobalSize svg s (SizeSync.customSizes st)
           /\ SizeSync.prevSizeRef (SizeSync.step svg st (SizeSync.TimersRun t)) = Some s
           /\ sync_shape (SizeSync.step svg st (SizeSync.TimersRun t)) None
      else SizeSync.customSizes (SizeSync.step svg st (SizeSync.TimersRun t))
           = SizeSync.customSizes st
           /\ SizeSync.prevSizeRef (SizeSync.step svg st (SizeSync.TimersRun t))
              = SizeSync.prevSizeRef st
           /\ sync_shape (SizeSync.step svg st (SizeSync.TimersRun t)) p
  | None =>
      SizeSync.customSizes (SizeSync.step svg st (SizeSync.TimersRun t))
      = SizeSync.customSizes st
      /\ SizeSync.prevSizeRef (SizeSync.step svg st (SizeSync.TimersRun t))
         = SizeSync.prevSizeRef st
      /\ sync_shape (SizeSync.step svg st (SizeSync.TimersRun t)) None
  end.
Proof.
  intros [P C]. unfold SizeSync.step, sync_shape, due, after.
  destruct p as [[[i d] s]|]; rewrite P; cbn; unfold is_due; cbn.
  - destruct (d <=? t); cbn; repeat split; try reflexivity. exact C.
  - repeat split; reflexivity.
Qed.

Lemma sync_burst (svg : SVGItem) (burst : list SizeSync.Event) :
  forallb is_effect burst = true ->
  forall (st : SizeSync.State) p prev,
    sync_shape st p ->
    SizeSync.prevSizeRef st = Some prev ->
    exists p',
      sync_shape (SizeSync.run svg burst st) p'
      /\ SizeSync.prevSizeRef (SizeSync.run svg burst st) = Some prev
      /\ SizeSync.customSizes (SizeSync.run svg burst st) = SizeSync.customSizes st.
Proof.
  induction burst as [|e burst IH]; intros B st p prev S R.
  - exists p. split; [exact S|]. split; [exact R|reflexivity].
  - cbn in B. apply andb_true_iff in B as [Be B].
    destruct e as [t localSize|t]; [|discriminate].
    destruct (sync_step_effect svg st p t localSize S) as [C X].
    rewrite R in X. destruct X as [R' S'].
    destruct (IH B _ _ prev S' R') as (p' & S'' & R'' & C'').
    exists p'. split; [exact S''|]. split; [exact R''|].
    etransitivity; [exact C''|exact C].
Qed.

Lemma sync_mount (svg : SVGItem) (customSizes : gmap nat CustomSize) (t : Z)
      (localSize : CustomSize) :
  sync_shape (SizeSync.step svg (SizeSync.mounted customSizes)
                (SizeSync.EffectRuns t localSize)) None
  /\ SizeSync.prevSizeRef (SizeSync.step svg (SizeSync.mounted customSizes)
                             (SizeSync.EffectRuns t localSize)) = Some localSize
  /\ SizeSync.customSizes (SizeSync.step svg (SizeSync.mounted customSizes)
                             (SizeSync.EffectRuns t localSize)) = customSizes.
Proof. repeat split. Qed.

Lemma sync_idle (svg : SVGItem) (ts : list Z) (st : SizeSync.State) :
  sync_shape st None ->
  SizeSync.customSizes (SizeSync.run svg (List.map SizeSync.TimersRun ts) st)
  = SizeSync.customSizes st.
Proof.
  revert st. induction ts as [|t ts IH]; intros st S; [reflexivity|].
  destruct (sync_step_timers svg st None t S) as (C & _ & S').
  etransitivity; [exact (IH _ S')|exact C].
Qed.

Section Untouched.
Context {host : Engine}.

(** X27. A custom size that the inputs show but that was never changed is
    not stored: after the mount of the inputs, whatever the initial size
    and however often the timers run, [customSizes] is as before; so with
    the custom entry selected and no size stored, the download is refused
    with the message for an invalid custom size, and nothing is
    rasterized. *)
Theorem X27_untouched_custom_size
        (svg : SVGItem) (selectedSizes : gmap nat PresetSize)
        (customSizes : gmap nat CustomSize) (t0 : Z) (ts : list Z) :
  preset_width (default PRESET_0 (selectedSizes !! id svg)) = -2 ->
  customSizes !! id svg = None ->
  let st := SizeSync.run svg
              (SizeSync.EffectRuns t0 (SizeSync.mount_size customSizes svg)
               :: List.map SizeSync.TimersRun ts)
              (SizeSync.mounted customSizes) in
  SizeSync.customSizes st = customSizes
  /\ handleDownload selectedSizes (SizeSync.customSizes st) svg
     = [SetDownloadStatus (id svg) true None;
        SetDownloadStatus (id svg) false (Some "请输入有效的自定义尺寸"%string)].
Proof.
  intros Sel Abs st.
  assert (C : SizeSync.customSizes st = customSizes).
  { subst st. cbn [SizeSync.run fold_left].
    destruct (sync_mount svg customSizes t0 (SizeSync.mount_size customSizes svg))
      as (S & _ & C).
    etransitivity; [exact (sync_idle svg ts _ S)|exact C]. }
  split; [exact C|].
  rewrite C. unfold handleDownload. rewrite Sel, Abs. reflexivity.
Qed.

End Untouched.

(** X27 on an icon whose custom entry was selected and left as shown. *)
Lemma X27_witness :
  preset_width
    (default PRESET_0
       (({[ 0%nat := Instances.custom_preset ]} : gmap nat PresetSize)
          !! id (Instances.item 0 24 24))) = -2
  /\ (∅ : gmap nat CustomSize) !! id (Instances.item 0 24 24) = None
  /\ handleDownload (host := Instances.icon_engine)
       {[ 0%nat := Instances.custom_preset ]}
       (SizeSync.customSizes
          (SizeSync.run (Instances.item 0 24 24)
             [SizeSync.EffectRuns 0 (SizeSync.mount_size ∅ (Instances.item 0 24 24));
              SizeSync.TimersRun 300; SizeSync.TimersRun 5000]
             (SizeSync.mounted ∅)))
       (Instances.item 0 24 24)
     = [SetDownloadStatus 0 true None;
        SetDownloadStatus 0 false (Some "请输入有效的自定义尺寸"%string)].
Proof.
  assert (Sel : preset_width
                  (default PRESET_0
                     (({[ 0%nat := Instances.custom_preset ]} : gmap nat PresetSize)
                        !! id (Instances.item 0 24 24))) = -2) by reflexivity.
  assert (Abs : (∅ : gmap nat CustomSize) !! id (Instances.item 0 24 24) = None)
    by reflexivity.
  split; [exact Sel|]. split; [exact Abs|].
  exact (proj2 (X27_untouched_custom_size (host := Instances.icon_engine)
                  (Instances.item 0 24 24) _ ∅ 0 [300; 5000] Sel Abs)).
Defined.

(** X28. A burst of changes stores its last size only, and only once 300
    ms have passed: after the mount with [s0], any changes with no timer
    run between them, a last change to [s] at time [t] and a run of the
    timers at [t'], the stored sizes are those before, with [s] under the
    item's id exactly when [s] differs from [s0] in width, height or lock
    and [t + 300 <= t']. *)
Theorem X28_burst_stores_last
        (svg : SVGItem) (customSizes : gmap nat CustomSize)
        (t0 : Z) (s0 : CustomSize) (burst : list SizeSync.Event)
        (t : Z) (s : CustomSize) (t' : Z) :
  forallb is_effect burst = true ->
  SizeSync.customSizes
    (SizeSync.run svg
       (SizeSync.EffectRuns t0 s0
        :: burst ++ [SizeSync.EffectRuns t s; SizeSync.TimersRun t'])
       (SizeSync.mounted customSizes))
  = if SizeSync.hasChanged s0 s && (t + 300 <=? t')
    then <[id svg := s]> customSizes
    else customSizes.
Proof.
  intros B.
  cbn [SizeSync.run fold_left].
  destruct (sync_mount svg customSizes t0 s0) as (S & R & C).
  set (st := SizeSync.step svg (SizeSync.mounted customSizes) (SizeSync.EffectRuns t0 s0)) in *.
  clearbody st.
  rewrite fold_left_app.
  destruct (sync_burst svg burst B st None s0 S R) as (p & S' & R' & C').
  unfold SizeSync.run in S', R', C'.
  set (st' := fold_left (SizeSync.step svg) burst st) in *. clearbody st'.
  cbn [fold_left].
  destruct (sync_step_effect svg st' p t s S') as [C2 X].
  rewrite R' in X. destruct X as [R2 S2].
  set (st2 := SizeSync.step svg st' (SizeSync.EffectRuns t s)) in *. clearbody st2.
  pose proof (sync_step_timers svg st2 _ t' S2) as T.
  destruct (SizeSync.hasChanged s0 s); cbn [andb].
  - destruct (t + 300 <=? t').
    + destruct T as (T & _). rewrite T, C2, C', C. reflexivity.
    + destruct T as (T & _). rewrite T, C2, C', C. reflexivity.
  - destruct T as (T & _). rewrite T, C2, C', C. reflexivity.
Qed.

(** X28 on two changes 100 ms apart and a run of the timers 350 ms after
    the second. *)
Lemma X28_witness :
  forallb is_effect [SizeSync.EffectRuns 1000 (Instances.locked 50 50)] = true
  /\ SizeSync.customSizes
       (SizeSync.run (Instances.item 0 24 24)
          [SizeSync.EffectRuns 0 (Instances.locked 24 24);
           SizeSync.EffectRuns 1000 (Instances.locked 50 50);
           SizeSync.EffectRuns 1100 (Instances.locked 64 64);
           SizeSync.TimersRun 1450]
          (SizeSync.mounted ∅))
     = {[ 0%nat := Instances.locked 64 64 ]}.
Proof.
  split; [reflexivity|].
  exact (X28_burst_stores_last (Instances.item 0 24 24) ∅ 0 (Instances.locked 24 24)
           [SizeSync.EffectRuns 1000 (Instances.locked 50 50)]
           1100 (Instances.locked 64 64) 1450 eq_refl).
Defined.
